(** * kommo-dashboard: the retrieval-and-aggregation pipeline of [server.js]

    A shallow embedding of [src/server.js] and the properties of its
    natural-language specification.

    Conventions of the embedding.
    - JavaScript time values are integers ([Z]), milliseconds since the epoch.
    - The host timezone is a fixed offset [tz] (milliseconds east of UTC);
      daylight-saving transitions are outside the model.
    - JavaScript numbers that the handlers only count and compare, and the
      sums of the funnel and of the time series, are integers ([Z]); the
      revenue and the two quotients of [/api/metrics] are binary64 numbers,
      every operation rounding its exact result ([Binary64]).
    - [async] functions are functions on an explicit [World] (clock, the
      replies the upstream will give, and the trace of requests and sleeps). *)

From Stdlib Require Import ZArith QArith Qabs Qround Qpower Qreduction.
From Stdlib Require Import Floats.SpecFloat.
From Stdlib Require Import List String Ascii Bool.
From Stdlib Require Import Sorted Permutation Lia Lqa.
Import ListNotations.

Local Open Scope string_scope.
Local Open Scope list_scope.
Local Open Scope Z_scope.

(* ================================================================== *)
(** * Strings of numbers *)
(* ================================================================== *)

Module Digits.

Definition digit (d : Z) : ascii := ascii_of_N (48 + Z.to_N d).

(** The decimal digits of a non-negative [n], most significant first;
    [fuel] bounds the number of digits produced. *)
Fixpoint digits_fuel (fuel : nat) (n : Z) (acc : string) : string :=
  match fuel with
  | O => acc
  | S fuel' =>
      let acc' := String (digit (n mod 10)) acc in
      if n / 10 =? 0 then acc' else digits_fuel fuel' (n / 10) acc'
  end.

Definition digits (n : Z) : string :=
  digits_fuel (S (Z.to_nat (Z.log2 n))) n "".

(** [String(n)] for an integer [n]. *)
Definition String_ (n : Z) : string :=
  if n <? 0 then String "-" (digits (- n)) else digits n.

Fixpoint zeros (k : nat) : string :=
  match k with O => "" | S k' => String "0" (zeros k') end.

(** [String(n).padStart(w, "0")] for a non-negative [n]. *)
Definition pad (w : nat) (n : Z) : string :=
  let s := digits n in (zeros (w - String.length s) ++ s)%string.

Definition is_digit (c : ascii) : bool :=
  let n := N_of_ascii c in ((48 <=? n) && (n <=? 57))%N.

Fixpoint all_digits (s : string) : bool :=
  match s with
  | EmptyString => true
  | String c s' => is_digit c && all_digits s'
  end.

Fixpoint value_acc (s : string) (acc : Z) : Z :=
  match s with
  | EmptyString => acc
  | String c s' => value_acc s' (10 * acc + (Z.of_N (N_of_ascii c) - 48))
  end.

Definition value (s : string) : Z := value_acc s 0.

End Digits.

(* ================================================================== *)
(** * The built-in [Date] *)
(* ================================================================== *)

Module JSDate.

Definition msPerDay : Z := 24 * 60 * 60 * 1000.

(** Day number (days since 1970-01-01) of day [d] of month [m] (1..12) of
    year [y] in the proleptic Gregorian calendar; [d] may lie outside the
    month and then counts on into the neighbouring months. *)
Definition days_from_civil (y m d : Z) : Z :=
  let y' := if m <=? 2 then y - 1 else y in
  let era := y' / 400 in
  let yoe := y' - era * 400 in
  let mp := if m >? 2 then m - 3 else m + 9 in
  let doy := (153 * mp + 2) / 5 + d - 1 in
  let doe := yoe * 365 + yoe / 4 - yoe / 100 + doy in
  era * 146097 + doe - 719468.

(** Year, month (1..12) and day of month of a day number. *)
Definition civil_from_days (z : Z) : Z * Z * Z :=
  let z' := z + 719468 in
  let era := z' / 146097 in
  let doe := z' - era * 146097 in
  let yoe := (doe - doe / 1460 + doe / 36524 - doe / 146096) / 365 in
  let doy := doe - (365 * yoe + yoe / 4 - yoe / 100) in
  let mp := (5 * doy + 2) / 153 in
  let d := doy - (153 * mp + 2) / 5 + 1 in
  let m := if mp <? 10 then mp + 3 else mp - 9 in
  let y := yoe + era * 400 in
  (if m <=? 2 then y + 1 else y, m, d).

Section Host.

(** Offset of the host's local time from UTC, in milliseconds. *)
Variable tz : Z.

Definition localDay (t : Z) : Z := (t + tz) / msPerDay.

Definition getFullYear (t : Z) : Z :=
  let '(y, _, _) := civil_from_days (localDay t) in y.

(** Months are numbered from 0, as in JavaScript. *)
Definition getMonth (t : Z) : Z :=
  let '(_, m, _) := civil_from_days (localDay t) in m - 1.

Definition getDate (t : Z) : Z :=
  let '(_, _, d) := civil_from_days (localDay t) in d.

(** [new Date(year, month, date)]: local midnight of the given day;
    [month] and [date] may overflow, and a year in 0..99 means 1900 + year. *)
Definition Date_ymd (year month date : Z) : Z :=
  let year := if (0 <=? year) && (year <=? 99) then 1900 + year else year in
  let ym := year + month / 12 in
  let mn := month mod 12 in
  (days_from_civil ym (mn + 1) 1 + date - 1) * msPerDay - tz.

End Host.

(** [date.toISOString().slice(0, 10)]: the UTC calendar date.  Years
    outside 0..9999 print in the expanded form, sign and six digits. *)
Definition isoYear (y : Z) : string :=
  if (0 <=? y) && (y <=? 9999) then Digits.pad 4 y
  else String (if y <? 0 then "-"%char else "+"%char) (Digits.pad 6 (Z.abs y)).

Definition toISOString (t : Z) : string :=
  let '(y, m, d) := civil_from_days (t / msPerDay) in
  (isoYear y ++ "-" ++ Digits.pad 2 m ++ "-" ++ Digits.pad 2 d ++ "T")%string.

Definition toISODate (t : Z) : string :=
  substring 0 10 (toISOString t).

(** The largest time value of a Date, in milliseconds from the epoch. *)
Definition maxTime : Z := 8640000000000000.

(** [new Date(ms)] for a number: the time value, or [None] for the Invalid
    Date that a number beyond the range gives. *)
Definition Date_ms (ms : Z) : option Z :=
  if Z.abs ms <=? maxTime then Some ms else None.

End JSDate.

(* ================================================================== *)
(** * Plain objects used as maps: [stageMap] and [series] *)
(* ================================================================== *)

Module JSObject.

(** The property names every plain object inherits from
    [Object.prototype]; each of them reads as a truthy value. *)
Definition prototype_names : list string :=
  [ "constructor"; "__proto__"; "hasOwnProperty"; "isPrototypeOf";
    "propertyIsEnumerable"; "toLocaleString"; "toString"; "valueOf";
    "__defineGetter__"; "__defineSetter__";
    "__lookupGetter__"; "__lookupSetter__" ].

Definition inherited (k : string) : bool :=
  existsb (String.eqb k) prototype_names.

(** An array index is the canonical decimal string of an integer in
    0 .. 2^32 - 2. *)
Definition is_index (k : string) : bool :=
  match k with
  | EmptyString => false
  | String c rest =>
      Digits.all_digits k
      && (negb (Ascii.eqb c "0") || String.eqb rest "")
      && (Digits.value k <=? 4294967294)
  end.

Fixpoint insert_index (k : string) (ks : list string) : list string :=
  match ks with
  | [] => [k]
  | k' :: ks' =>
      if Digits.value k <=? Digits.value k' then k :: ks
      else k' :: insert_index k ks'
  end.

Fixpoint sort_index (ks : list string) : list string :=
  match ks with
  | [] => []
  | k :: ks' => insert_index k (sort_index ks')
  end.

(** The order in which own property keys are listed: array indices in
    ascending numeric order, then the other names in order of creation. *)
Definition key_order (ks : list string) : list string :=
  sort_index (filter is_index ks) ++ filter (fun k => negb (is_index k)) ks.

Section Obj.

Variable V : Type.

(** Own properties, in order of creation. *)
Definition obj : Type := list (string * V).

Fixpoint own (o : obj) (k : string) : option V :=
  match o with
  | [] => None
  | (k', v) :: o' => if String.eqb k k' then Some v else own o' k
  end.

(** [o[k] = v]: an existing own property keeps its place. *)
Fixpoint put (o : obj) (k : string) (v : V) : obj :=
  match o with
  | [] => [(k, v)]
  | (k', v') :: o' =>
      if String.eqb k k' then (k', v) :: o' else (k', v') :: put o' k v
  end.

(** [Object.keys(o)] *)
Definition keys (o : obj) : list string := key_order (map fst o).

(** [Object.values(o)] *)
Definition values (o : obj) : list V :=
  flat_map (fun k => match own o k with Some v => [v] | None => [] end)
           (keys o).

End Obj.

Arguments own {V} o k.
Arguments put {V} o k v.
Arguments keys {V} o.
Arguments values {V} o.

End JSObject.

(* ================================================================== *)
(** * Records of the remote API *)
(* ================================================================== *)

(** A lead or a task as the handlers read it.  A numeric field is an
    integer of the reply or absent ([None] reads as [undefined]); a null
    reads as 0 wherever these fields are used but in [String(status_id)].
    [embedded_status] is [None]
    when the record has no [_embedded.status] (or a falsy one), and
    otherwise [Some] of the [name] of that status, which may itself be
    absent. *)
Record item : Type := mkItem {
  status_id : option Z;
  price : option Z;
  created_at : option Z;
  closed_at : option Z;
  embedded_status : option (option string);   (* _embedded.status, its name *)
  complete_till_at : option Z
}.

(** [x || 0] for a numeric field. *)
Definition or0 (x : option Z) : Z :=
  match x with Some v => v | None => 0 end.

(** [x === n] for a numeric field. *)
Definition is_ (n : Z) (x : option Z) : bool :=
  match x with Some v => v =? n | None => false end.

(* ================================================================== *)
(** * Effects: the world of an [async] function *)
(* ================================================================== *)

Inductive JSError : Type :=
| HttpError (status : Z)       (* an axios error with [err.response.status] *)
| NetworkError                 (* an axios error without [err.response] *)
| TypeError
| RangeError.

(** A reply body that is no list: a string (the empty body of a 204
    reply is [RString ""]), or any other value, kept as its JSON text. *)
Inductive raw : Type :=
| RString (s : string)
| RValue (json : string).

(** [response.data] of a successful reply. *)
Inductive data : Type :=
| Arr (items : list item)              (* a bare array *)
| Embedded (items : list item)         (* { _embedded: { items: [...] } } *)
| Other (r : raw).                     (* any other shape *)

Inductive reply : Type :=
| Ok (d : data)
| Fail (e : JSError).

(** What the upstream will answer to the next request, and after how long. *)
Record scripted : Type := mkScripted { latency : Z; answer : reply }.

Inductive qval : Type :=
| QNum (n : option Z)          (* a number; [None] is NaN *)
| QStr (s : string).

Inductive event : Type :=
| Get (path : string) (params : list (string * qval)) (limit page : Z)
| Sleep (ms : Z).

Record World : Type := mkWorld {
  clock : Z;                     (* Date.now() *)
  upstream : list scripted;      (* replies not yet consumed *)
  trace : list event             (* requests and sleeps so far, oldest first *)
}.

(** How a call ends: it returns, it throws, or it is still waiting when the
    upstream script is exhausted. *)
Inductive completion (A : Type) : Type :=
| Return (a : A)
| Throw (e : JSError)
| Pending.

Arguments Return {A} a.
Arguments Throw {A} e.
Arguments Pending {A}.

Definition M (A : Type) : Type := World -> completion A * World.

Definition ret {A} (a : A) : M A := fun w => (Return a, w).

Definition throw {A} (e : JSError) : M A := fun w => (Throw e, w).

Definition bind {A B} (m : M A) (k : A -> M B) : M B :=
  fun w =>
    match m w with
    | (Return a, w') => k a w'
    | (Throw e, w') => (Throw e, w')
    | (Pending, w') => (Pending, w')
    end.

Notation "x <- m ;; k" := (bind m (fun x => k))
  (at level 61, m at next level, right associativity).

(** [new Date()] *)
Definition now_ : M Z := fun w => (Return (clock w), w).

(* ================================================================== *)
(** * [kommoRequest]: paginated fetch with retry *)
(* ================================================================== *)

Definition limit : Z := 250.

(** What [kommoRequest] returns: the accumulated [results], or the [data]
    of a reply that is no list. *)
Inductive fetched : Type :=
| Items (results : list item)
| Raw (r : raw).

(** The test of the [catch] block:
    [err.response && (err.response.status === 429 || err.response.status >= 500)] *)
Definition retryable (e : JSError) : bool :=
  match e with
  | HttpError status => (status =? 429) || (status >=? 500)
  | _ => false
  end.

Section KommoRequest.

Variable path : string.
Variable params : list (string * qval).

(** The [while (true)] loop, one iteration per scripted reply. *)
Fixpoint kommoLoop (page : Z) (results : list item)
         (script : list scripted) (clk : Z) (tr : list event)
  : completion fetched * World :=
  let tr := tr ++ [Get path params limit page] in
  match script with
  | [] => (Pending, mkWorld clk [] tr)
  | r :: rest =>
      let clk := clk + latency r in
      match answer r with
      | Ok (Arr items) | Ok (Embedded items) =>
          let results := results ++ items in
          if Z.of_nat (List.length items) <? limit
          then (Return (Items results), mkWorld clk rest tr)
          else kommoLoop (page + 1) results rest clk tr
      | Ok (Other d) => (Return (Raw d), mkWorld clk rest tr)
      | Fail err =>
          if retryable err
          then kommoLoop page results rest (clk + 1000) (tr ++ [Sleep 1000])
          else (Throw err, mkWorld clk rest tr)
      end
  end.

Definition kommoRequest : M fetched :=
  fun w => kommoLoop 1 [] (upstream w) (clock w) (trace w).

End KommoRequest.

(* ================================================================== *)
(** * The cache *)
(* ================================================================== *)

Definition CACHE_TTL : Z := 60 * 1000.

Module LRU.

(** Modelled from the spec: the cache object of the [lru-cache] package,
    which [server.js] only constructs ([new LRU({ max: 500, ttl: CACHE_TTL })])
    and calls ([has], [get], [set]).  The spec gives its behaviour: an entry
    is [{key, value, storedAt}] and "expires when now - storedAt >= TTL";
    "entries beyond a fixed capacity (500) are evicted by recency
    (least-recently-used) independent of TTL; TTL expiry is checked on
    read, not proactively swept". *)
Section Cache.

Variable V : Type.

Record entry : Type := mkEntry { key : string; value : V; storedAt : Z }.

(** Entries, most recently used first. *)
Definition cache : Type := list entry.

Definition max : nat := 500.

Definition live (e : entry) (now : Z) : bool :=
  negb (now - storedAt e >=? CACHE_TTL).

Fixpoint find (c : cache) (k : string) : option entry :=
  match c with
  | [] => None
  | e :: c' => if String.eqb k (key e) then Some e else find c' k
  end.

Definition remove (c : cache) (k : string) : cache :=
  filter (fun e => negb (String.eqb k (key e))) c.

Definition has (c : cache) (k : string) (now : Z) : bool :=
  match find c k with
  | Some e => live e now
  | None => false
  end.

(** [get] of a live entry makes it the most recently used; an expired
    entry is dropped and reads as [undefined] ([None]). *)
Definition get (c : cache) (k : string) (now : Z) : option V * cache :=
  match find c k with
  | Some e =>
      if live e now then (Some (value e), e :: remove c k)
      else (None, remove c k)
  | None => (None, c)
  end.

(** [set] stores the value with the current timestamp; when the cache
    is full the least recently used entry makes room. *)
Definition set (c : cache) (k : string) (v : V) (now : Z) : cache :=
  let c' := remove c k in
  let c' := if (max <=? List.length c')%nat then removelast c' else c' in
  mkEntry k v now :: c'.

End Cache.

Arguments mkEntry {V} key value storedAt.
Arguments key {V} e.
Arguments value {V} e.
Arguments storedAt {V} e.
Arguments live {V} e now.
Arguments find {V} c k.
Arguments remove {V} c k.
Arguments has {V} c k now.
Arguments get {V} c k now.
Arguments set {V} c k v now.

End LRU.

Section GetCached.

Variable V : Type.
Variable undefined : V.

(** [getCached(key, fetchFn)] on the module-level [cache], which is
    threaded through explicitly. *)
Definition getCached (key : string) (fetchFn : M V) (cache : LRU.cache V)
  : World -> completion V * LRU.cache V * World :=
  fun w =>
    if LRU.has cache key (clock w) then
      let '(v, cache') := LRU.get cache key (clock w) in
      (Return (match v with Some v => v | None => undefined end), cache', w)
    else
      match fetchFn w with
      | (Return val, w') => (Return val, LRU.set cache key val (clock w'), w')
      | (Throw e, w') => (Throw e, cache, w')
      | (Pending, w') => (Pending, cache, w')
      end.

(** How many times [getCached] runs [fetchFn] from a given state: never
    in the first branch, once in the second. *)
Definition invocations (key : string) (cache : LRU.cache V) (w : World) : nat :=
  if LRU.has cache key (clock w) then 0%nat else 1%nat.

End GetCached.

Arguments getCached {V} undefined key fetchFn cache w.
Arguments invocations {V} key cache w.

(* ================================================================== *)
(** * Numbers *)
(* ================================================================== *)

(** The numbers of JavaScript where their rounding shows: a finite
    binary64 number is the rational it stands for (the two zeros are one,
    they print alike), and every operation gives the representable number
    nearest to its exact result, the one with an even significand of two,
    and an infinity from 2^1024 on. *)
Module Binary64.

Inductive number : Type :=
| Finite (q : Q)
| Infinity (negative : bool)
| NaN.

Definition pow2 (k : Z) : Q := (2 ^ k)%Q.

(** The exponent [k] of a positive [q]: [2^k <= q < 2^(k+1)]. *)
Definition ilog2 (q : Q) : Z :=
  let k := Z.log2 (Qnum q) - Z.log2 (Zpos (Qden q)) in
  if Qle_bool (pow2 k) q then k else k - 1.

(** The nearest integer, the even one of two. *)
Definition nearest_even (q : Q) : Z :=
  let f := Qfloor q in
  match (q - inject_Z f ?= 1 # 2)%Q with
  | Lt => f
  | Gt => f + 1
  | Eq => if Z.even f then f else f + 1
  end.

Definition negative (q : Q) : bool := negb (Qle_bool 0 q).

(** Rounding to 53 significant bits, or to a multiple of 2^-1074 for a
    subnormal result. *)
Definition round (q : Q) : number :=
  if Qeq_bool q 0 then Finite 0
  else
    let e := Z.max (ilog2 (Qabs q) - 52) (-1074) in
    let r := (inject_Z (nearest_even (q / pow2 e)) * pow2 e)%Q in
    if Qle_bool (pow2 1024) (Qabs r) then Infinity (negative q)
    else Finite (Qred r).

(** [x + y] *)
Definition add (x y : number) : number :=
  match x, y with
  | Finite a, Finite b => round (a + b)
  | Finite _, Infinity s | Infinity s, Finite _ => Infinity s
  | Infinity s, Infinity s' => if Bool.eqb s s' then Infinity s else NaN
  | _, _ => NaN
  end.

(** [x * y] *)
Definition mul (x y : number) : number :=
  match x, y with
  | Finite a, Finite b => round (a * b)
  | Finite a, Infinity s | Infinity s, Finite a =>
      if Qeq_bool a 0 then NaN else Infinity (xorb s (negative a))
  | Infinity s, Infinity s' => Infinity (xorb s s')
  | _, _ => NaN
  end.

(** [x / y]; a zero divisor is the positive zero. *)
Definition div (x y : number) : number :=
  match x, y with
  | Finite a, Finite b =>
      if Qeq_bool b 0
      then if Qeq_bool a 0 then NaN else Infinity (negative a)
      else round (a / b)
  | Finite _, Infinity _ => Finite 0
  | Infinity s, Finite b => Infinity (xorb s (negative b))
  | _, _ => NaN
  end.

(** An integer that is a binary64 number, such as the length of an array. *)
Definition num (n : Z) : number := Finite (inject_Z n).

(** [xs.reduce((sum, x) => sum + x, 0)] *)
Definition sum (xs : list number) : number := fold_left add xs (num 0).

End Binary64.

(* ================================================================== *)
(** * Payloads and responses *)
(* ================================================================== *)

Record metrics : Type := mkMetrics {
  leads_created : Z;
  leads_won : Z;
  leads_lost : Z;
  active_leads : Z;
  conversion_rate : Binary64.number;
  revenue_won : Binary64.number;
  avg_ticket : Binary64.number;
  time_to_first_touch_avg_minutes : option Q      (* [None] is null *)
}.

(** An entry of the funnel; a [stage_name] that is [None] is [undefined]. *)
Record stage : Type := mkStage {
  stage_name : option string;
  count : Z;
  value_sum : Z
}.

Record point : Type := mkPoint { date : string; value : Z }.

Record buckets : Type := mkBuckets { overdue : Z; today : Z; next48h : Z }.

(** Everything the handlers put in the cache and send with [res.json]. *)
Inductive payload : Type :=
| PUndefined
| PFetched (f : fetched)
| PMetrics (m : metrics)
| PFunnel (l : list stage)
| PSeries (l : list point)
| PTasks (b : buckets).

Inductive body : Type :=
| Json (p : payload)
| Error (msg : string).

Record response : Type := mkResponse { status : Z; sent : body }.

(** [req.query]: every parameter may be missing. *)
Record query : Type := mkQuery {
  q_metric : option string;
  q_range : option string;
  q_from : option string;
  q_to : option string;
  q_pipeline_id : option string;
  q_user_id : option string
}.

(** Truthiness of a query parameter: missing and empty are falsy. *)
Definition truthy (s : option string) : bool :=
  match s with
  | None => false
  | Some s => negb (String.eqb s "")
  end.

(** A parameter inside a template literal. *)
Definition show (s : option string) : string :=
  match s with Some s => s | None => "undefined" end.

(** [const { x = d } = req.query]: the default replaces [undefined] only. *)
Definition default (d : string) (s : option string) : option string :=
  match s with Some s => Some s | None => Some d end.

(** [x === 'lit'] *)
Definition eqs (x : option string) (lit : string) : bool :=
  match x with Some s => String.eqb s lit | None => false end.

(* ================================================================== *)
(** * Range resolution and the lead fetchers *)
(* ================================================================== *)

(** [{ start, end }]; [None] is an Invalid Date. *)
Record Range : Type := mkRange { start : option Z; end_ : option Z }.

(** [Math.ceil(a / b)] for integers [a] and a positive [b]. *)
Definition ceil_div (a b : Z) : Z := - ((- a) / b).

Section Server.

(** Offset of the host's local time from UTC, in milliseconds. *)
Variable tz : Z.

(** [new Date(string)]: the time value, or [None] for an Invalid Date. *)
Variable Date_parse : string -> option Z.

Definition local_midnight (now : Z) (shift : Z) : Z :=
  JSDate.Date_ymd tz (JSDate.getFullYear tz now) (JSDate.getMonth tz now)
                  (JSDate.getDate tz now + shift).

(** The today window: from the local midnight before [now] to the next. *)
Definition today_range (now : Z) : Range :=
  mkRange (Some (local_midnight now 0)) (Some (local_midnight now 1)).

Definition parseRange (now : Z) (range from to : option string) : Range :=
  if eqs range "today" then
    mkRange (Some (local_midnight now 0)) (Some (local_midnight now 1))
  else if eqs range "yesterday" then
    mkRange (Some (local_midnight now (-1))) (Some (local_midnight now 0))
  else if eqs range "7d" then
    mkRange (Some (now - 7 * 24 * 60 * 60 * 1000)) (Some now)
  else if eqs range "30d" then
    mkRange (Some (now - 30 * 24 * 60 * 60 * 1000)) (Some now)
  else if eqs range "custom" && truthy from && truthy to then
    mkRange (Date_parse (show from)) (Date_parse (show to))
  else
    (* default to today *)
    mkRange (Some (local_midnight now 0)) (Some (local_midnight now 1)).

Definition toUnix (date : option Z) : qval :=
  QNum (option_map (fun t => t / 1000) date).

Definition filter_param (name : string) (v : option string)
  : list (string * qval) :=
  if truthy v then [(name, QStr (show v))] else [].

Definition fetchLeads (r : Range) (pipeline_id user_id : option string)
  : M fetched :=
  kommoRequest "/leads"
    ([("filter[created_at][from]", toUnix (start r));
      ("filter[created_at][to]", toUnix (end_ r))]
     ++ filter_param "filter[pipeline_id]" pipeline_id
     ++ filter_param "filter[responsible_user_id]" user_id).

Definition fetchLeadsClosed (r : Range) (pipeline_id user_id : option string)
  : M fetched :=
  kommoRequest "/leads"
    ([("filter[closed_at][from]", toUnix (start r));
      ("filter[closed_at][to]", toUnix (end_ r))]
     ++ filter_param "filter[pipeline_id]" pipeline_id
     ++ filter_param "filter[responsible_user_id]" user_id).

(** A record without any of the fields the handlers read. *)
Definition blank : item := mkItem None None None None None None.

(** [x.filter(...)] and [x.length] need an array. *)
Definition as_array (f : fetched) : M (list item) :=
  match f with
  | Items l => ret l
  | Raw _ => throw TypeError
  end.

(** [for (const x of f)]: an array gives its items, a string its
    characters (none of which has a field), anything else is not iterable. *)
Definition as_iterable (f : fetched) : M (list item) :=
  match f with
  | Items l => ret l
  | Raw (RString s) => ret (repeat blank (String.length s))
  | Raw (RValue _) => throw TypeError
  end.

(* ---------------------------------------------------------------- *)
(** ** [/api/metrics] *)

(** [Number(x.toFixed(digits))].  [toFixed] prints the integer [n] for
    which [n / 10^digits] is closest to the exact value of [|x|], the
    larger one of two, with the point before the last [digits] digits and
    the sign of [x]; [Number] reads the decimal back as the nearest
    number.  From 10^21 on, and for an infinity or a NaN, [toFixed]
    prints the number as [String] does and [Number] reads it back. *)
Definition toFixed (digits : nat) (x : Binary64.number) : Binary64.number :=
  match x with
  | Binary64.Finite q =>
      if Qle_bool (inject_Z (10 ^ 21)) (Qabs q) then x
      else
        let p := inject_Z (10 ^ Z.of_nat digits) in
        let n := inject_Z (Qfloor (Qabs q * p + (1 # 2))%Q) in
        Binary64.round (if Qle_bool 0 q then n / p else - (n / p))%Q
  | _ => x
  end.

(** [l.price || 0]: the number the reply holds, the one nearest to the
    integer written in it. *)
Definition priceOf (l : item) : Binary64.number :=
  Binary64.round (inject_Z (or0 (price l))).

Definition len (l : list item) : Z := Z.of_nat (List.length l).

Definition metricsOf (createdLeads closedLeads : list item) : metrics :=
  let wonLeads := filter (fun l => is_ 142 (status_id l)) closedLeads in
  let lostLeads := filter (fun l => is_ 143 (status_id l)) closedLeads in
  let activeLeads :=
    filter (fun l => negb (is_ 142 (status_id l)) && negb (is_ 143 (status_id l)))
           createdLeads in
  let leadsCreatedCount := len createdLeads in
  let leadsWonCount := len wonLeads in
  let leadsLostCount := len lostLeads in
  let revenueWon :=
    fold_left (fun sum l => Binary64.add sum (priceOf l)) wonLeads
              (Binary64.num 0) in
  let conversionRate :=
    if leadsCreatedCount >? 0
    then Binary64.mul (Binary64.div (Binary64.num leadsWonCount)
                                    (Binary64.num leadsCreatedCount))
                      (Binary64.num 100)
    else Binary64.num 0 in
  let avgTicket :=
    if leadsWonCount >? 0
    then Binary64.div revenueWon (Binary64.num leadsWonCount)
    else Binary64.num 0 in
  mkMetrics leadsCreatedCount leadsWonCount leadsLostCount (len activeLeads)
            (toFixed 4 conversionRate) revenueWon (toFixed 2 avgTicket) None.

Definition metrics_compute (q : query) : M payload :=
  let range := default "today" (q_range q) in
  now <- now_ ;;
  let r := parseRange now range (q_from q) (q_to q) in
  created <- fetchLeads r (q_pipeline_id q) (q_user_id q) ;;
  closed <- fetchLeadsClosed r (q_pipeline_id q) (q_user_id q) ;;
  closedLeads <- as_array closed ;;
  createdLeads <- as_array created ;;
  ret (PMetrics (metricsOf createdLeads closedLeads)).

(* ---------------------------------------------------------------- *)
(** ** [/api/funnels] *)

(** The value of the variable [stageName]: the name of the nested status
    when the lead has one ([undefined], here [None], when that status has
    no name), else [String(lead.status_id)]. *)
Definition stageName (lead : item) : option string :=
  match embedded_status lead with
  | Some name => name
  | None =>
      Some match status_id lead with
           | Some id => Digits.String_ id
           | None => "undefined"
           end
  end.

(** The property key under which [stageMap[stageName]] reads and writes. *)
Definition stageNameOf (lead : item) : string := show (stageName lead).

(** One iteration of the loop over [leads].  A name that [stageMap]
    inherits reads as truthy, so no entry is created for it and the two
    updates land on the inherited value, not on [stageMap]. *)
Definition funnel_step (stageMap : JSObject.obj stage) (lead : item)
  : JSObject.obj stage :=
  let key := stageNameOf lead in
  if JSObject.inherited key then stageMap
  else
    let stageMap :=
      match JSObject.own stageMap key with
      | None => JSObject.put stageMap key (mkStage (stageName lead) 0 0)
      | Some _ => stageMap
      end in
    match JSObject.own stageMap key with
    | Some s =>
        JSObject.put stageMap key
          (mkStage (stage_name s) (count s + 1) (value_sum s + or0 (price lead)))
    | None => stageMap
    end.

Definition funnelOf (leads : list item) : list stage :=
  JSObject.values (fold_left funnel_step leads []).

Definition funnels_compute (q : query) : M payload :=
  let range := default "today" (q_range q) in
  now <- now_ ;;
  let r := parseRange now range (q_from q) (q_to q) in
  fetched <- fetchLeads r (q_pipeline_id q) None ;;
  leads <- as_iterable fetched ;;
  ret (PFunnel (funnelOf leads)).

(* ---------------------------------------------------------------- *)
(** ** [/api/timeseries] *)

(** The first loop: one key per [i < days], set to 0. *)
Definition zero_series (start : Z) (days : Z) : JSObject.obj Z :=
  fold_left
    (fun series i =>
       let date :=
         JSDate.Date_ymd tz (JSDate.getFullYear tz start) (JSDate.getMonth tz start)
                         (JSDate.getDate tz start + Z.of_nat i) in
       let keyDate := JSDate.toISODate date in
       JSObject.put series keyDate 0)
    (seq 0 (Z.to_nat days)) [].

(** With an Invalid Date [days] is NaN and the loop body never runs. *)
Definition series_of_range (r : Range) : JSObject.obj Z :=
  match start r, end_ r with
  | Some s, Some e => zero_series s (ceil_div (e - s) JSDate.msPerDay)
  | _, _ => []
  end.

(** [if (series[k] !== undefined) series[k] += v] *)
Definition bump (series : JSObject.obj Z) (k : string) (v : Z)
  : JSObject.obj Z :=
  match JSObject.own series k with
  | Some old => JSObject.put series k (old + v)
  | None => series
  end.

(** The loops over the fetched leads.  [stamp] is the timestamp read and
    [amount] what is added.  [new Date(stamp * 1000)] is an Invalid Date
    when the timestamp is undefined or its product beyond the range of
    Date, and [toISOString] then throws ([None]).  A null timestamp
    multiplies to 0 and is the number 0 here. *)
Fixpoint bucket (stamp : item -> option Z) (amount : item -> Z)
         (leads : list item) (series : JSObject.obj Z)
  : option (JSObject.obj Z) :=
  match leads with
  | [] => Some series
  | lead :: rest =>
      match stamp lead with
      | None => None
      | Some seconds =>
          match JSDate.Date_ms (seconds * 1000) with
          | None => None
          | Some d =>
              let k := JSDate.toISODate d in
              bucket stamp amount rest (bump series k (amount lead))
          end
      end
  end.

(** [Object.keys(series).map(date => ({ date, value: series[date] }))] *)
Definition points (series : JSObject.obj Z) : list point :=
  flat_map (fun date => match JSObject.own series date with
                        | Some v => [mkPoint date v]
                        | None => []
                        end)
           (JSObject.keys series).

Definition bucketed (o : option (JSObject.obj Z)) : M payload :=
  match o with
  | Some series => ret (PSeries (points series))
  | None => throw RangeError
  end.

Definition timeseries_range (now : Z) (q : query) : Range :=
  parseRange now (default "7d" (q_range q)) None None.

Definition timeseries_compute (q : query) : M payload :=
  let metric := q_metric q in
  now <- now_ ;;
  let r := timeseries_range now q in
  let series := series_of_range r in
  if eqs metric "leads_created" then
    fetched <- fetchLeads r (q_pipeline_id q) (q_user_id q) ;;
    leads <- as_iterable fetched ;;
    bucketed (bucket created_at (fun _ => 1) leads series)
  else if eqs metric "leads_won" || eqs metric "revenue_won" then
    fetched <- fetchLeadsClosed r (q_pipeline_id q) (q_user_id q) ;;
    leads <- as_array fetched ;;
    let wonLeads := filter (fun l => is_ 142 (status_id l)) leads in
    if eqs metric "leads_won"
    then bucketed (bucket closed_at (fun _ => 1) wonLeads series)
    else bucketed (bucket closed_at (fun l => or0 (price l)) wonLeads series)
  else
    ret (PSeries (points series)).

(* ---------------------------------------------------------------- *)
(** ** [/api/tasks] *)

Definition same_local_date (a b : Z) : bool :=
  (JSDate.getFullYear tz a =? JSDate.getFullYear tz b)
  && (JSDate.getMonth tz a =? JSDate.getMonth tz b)
  && (JSDate.getDate tz a =? JSDate.getDate tz b).

(** [task.complete_till_at ? new Date(task.complete_till_at * 1000) : null] *)
Definition dueOf (task : item) : option Z :=
  match complete_till_at task with
  | Some seconds => if seconds =? 0 then None else Some (seconds * 1000)
  | None => None
  end.

(** One iteration of the loop over [tasks]. *)
Definition tasks_step (now : Z) (b : buckets) (task : item) : buckets :=
  match dueOf task with
  | None => b
  | Some due =>
      if due <? now then
        mkBuckets (overdue b + 1) (today b) (next48h b)
      else if same_local_date due now then
        mkBuckets (overdue b) (today b + 1) (next48h b)
      else if due - now <=? 48 * 60 * 60 * 1000 then
        mkBuckets (overdue b) (today b) (next48h b + 1)
      else b
  end.

Definition bucketTasks (now : Z) (tasks : list item) : buckets :=
  fold_left (tasks_step now) tasks (mkBuckets 0 0 0).

Definition tasks_compute (q : query) : M payload :=
  now <- now_ ;;
  let params :=
    [("filter[is_completed]", QNum (Some 0))]
    ++ filter_param "filter[responsible_user_id]" (q_user_id q) in
  fetched <- kommoRequest "/tasks" params ;;
  tasks <- as_iterable fetched ;;
  ret (PTasks (bucketTasks now tasks)).

(* ---------------------------------------------------------------- *)
(** ** The route handlers *)

(** What a handler has sent: [None] while it is still waiting. *)
Definition respond (failure : string)
           (r : completion payload * LRU.cache payload * World)
  : option response * LRU.cache payload * World :=
  match r with
  | (Return p, c, w) => (Some (mkResponse 200 (Json p)), c, w)
  | (Throw _, c, w) => (Some (mkResponse 500 (Error failure)), c, w)
  | (Pending, c, w) => (None, c, w)
  end.

Definition handler : Type :=
  query -> LRU.cache payload -> World
  -> option response * LRU.cache payload * World.

Definition fetchPipelines : M payload :=
  pipelines <- kommoRequest "/leads/pipelines" [] ;; ret (PFetched pipelines).

Definition pipelines_handler : handler := fun q cache w =>
  respond "Failed to fetch pipelines"
    (getCached PUndefined "pipelines" fetchPipelines cache w).

Definition fetchUsers : M payload :=
  users <- kommoRequest "/users" [] ;; ret (PFetched users).

Definition users_handler : handler := fun q cache w =>
  respond "Failed to fetch users"
    (getCached PUndefined "users" fetchUsers cache w).

Definition metrics_key (q : query) : string :=
  ("/metrics?range=" ++ show (default "today" (q_range q))
   ++ "&from=" ++ show (q_from q) ++ "&to=" ++ show (q_to q)
   ++ "&pipeline_id=" ++ show (q_pipeline_id q)
   ++ "&user_id=" ++ show (q_user_id q))%string.

Definition metrics_handler : handler := fun q cache w =>
  respond "Failed to fetch metrics"
    (getCached PUndefined (metrics_key q) (metrics_compute q) cache w).

Definition funnels_key (q : query) : string :=
  ("/funnels?pipeline=" ++ show (q_pipeline_id q)
   ++ "&range=" ++ show (default "today" (q_range q))
   ++ "&from=" ++ show (q_from q) ++ "&to=" ++ show (q_to q))%string.

Definition funnels_handler : handler := fun q cache w =>
  respond "Failed to fetch funnel data"
    (getCached PUndefined (funnels_key q) (funnels_compute q) cache w).

Definition timeseries_key (q : query) : string :=
  ("/timeseries?metric=" ++ show (q_metric q)
   ++ "&range=" ++ show (default "7d" (q_range q))
   ++ "&pipeline=" ++ show (q_pipeline_id q)
   ++ "&user_id=" ++ show (q_user_id q))%string.

Definition timeseries_handler : handler := fun q cache w =>
  if negb (truthy (q_metric q)) then
    (Some (mkResponse 400 (Error "metric is required")), cache, w)
  else
    respond "Failed to fetch timeseries data"
      (getCached PUndefined (timeseries_key q) (timeseries_compute q) cache w).

Definition tasks_key (q : query) : string :=
  ("/tasks?user_id=" ++ show (q_user_id q))%string.

Definition tasks_handler : handler := fun q cache w =>
  respond "Failed to fetch tasks"
    (getCached PUndefined (tasks_key q) (tasks_compute q) cache w).

End Server.

(* ================================================================== *)
(** * Vocabulary of the properties *)
(* ================================================================== *)

(** A scripted reply carrying one page of items, as a bare array or inside
    the envelope. *)
Record page : Type := mkPage {
  page_latency : Z;
  enveloped : bool;
  page_items : list item
}.

Definition page_reply (p : page) : scripted :=
  mkScripted (page_latency p)
    (Ok (if enveloped p then Embedded (page_items p) else Arr (page_items p))).

(** A scripted reply failing with an HTTP status. *)
Definition http_failure (f : Z * Z) : scripted :=
  mkScripted (fst f) (Fail (HttpError (snd f))).

Definition total (l : list Z) : Z := fold_right Z.add 0 l.

(** The requests for [n] consecutive pages, starting at page [first]. *)
Definition page_requests (path : string) (params : list (string * qval))
           (first : Z) (n : nat) : list event :=
  map (fun i => Get path params limit (first + Z.of_nat i)) (seq 0 n).

(** The events of [n] failed attempts at one page: request, sleep, ... *)
Fixpoint attempts (path : string) (params : list (string * qval))
         (page : Z) (n : nat) : list event :=
  match n with
  | O => []
  | S n' => Get path params limit page :: Sleep 1000 :: attempts path params page n'
  end.

(** A status that the [catch] block retries. *)
Definition retried (status : Z) : Prop := status = 429 \/ status >= 500.

(** An error that the [catch] block rethrows: anything but an HTTP error
    with a retried status. *)
Definition fatal (err : JSError) : Prop :=
  forall status, err = HttpError status -> ~ retried status.

(** [r] is the number [x] rounded to [d] decimal places.  For a finite
    [x] below 10^21 in size it is the number nearest to the decimal
    [n / 10^d] taken with the sign of [x], [n] being the one integer with
    [|x| * 10^d - 1/2 < n <= |x| * 10^d + 1/2]; any other [x] is left as
    it is. *)
Definition rounded (d : nat) (x r : Binary64.number) : Prop :=
  match x with
  | Binary64.Finite q =>
      let p := inject_Z (10 ^ Z.of_nat d) in
      ((inject_Z (10 ^ 21) <= Qabs q)%Q -> r = x)
      /\ ((Qabs q < inject_Z (10 ^ 21))%Q ->
          exists n : Z,
            (Qabs q * p - (1 # 2) < inject_Z n <= Qabs q * p + (1 # 2))%Q
            /\ r = Binary64.round
                     (if Qle_bool 0 q then inject_Z n / p
                      else - (inject_Z n / p))%Q)
  | _ => r = x
  end.

(** [r] is the number of a decimal with [d] places that is nearest to
    the exact quotient [x]: of [n / 10^d] with [|n - x * 10^d| <= 1/2]. *)
Definition nearest_decimal (d : nat) (x : Q) (r : Binary64.number) : Prop :=
  exists n : Z,
    r = Binary64.round (inject_Z n / inject_Z (10 ^ Z.of_nat d))
    /\ (Qabs (inject_Z n - x * inject_Z (10 ^ Z.of_nat d)) <= 1 # 2)%Q.

(** A number that is at least zero: not negative and not a NaN. *)
Definition nonneg (x : Binary64.number) : Prop :=
  match x with
  | Binary64.Finite q => (0 <= q)%Q
  | Binary64.Infinity negative => negative = false
  | Binary64.NaN => False
  end.

(** The distinct names of a list, each at the place of its first occurrence. *)
Fixpoint first_occurrences (ks : list string) : list string :=
  match ks with
  | [] => []
  | k :: rest =>
      k :: filter (fun k' => negb (String.eqb k' k)) (first_occurrences rest)
  end.

(** The leads of one stage, and the entry the funnel reports for them. *)
Definition with_label (name : string) (leads : list item) : list item :=
  filter (fun l => String.eqb (stageNameOf l) name) leads.

Definition group (leads : list item) (name : string) : stage :=
  mkStage (match with_label name leads with
           | first :: _ => stageName first
           | [] => Some name
           end)
          (len (with_label name leads))
          (total (map (fun l => or0 (price l)) (with_label name leads))).

(** The object whose keys, in order of creation, are [ks], with [f k]
    under [k]. *)
Definition table {V : Type} (f : string -> V) (ks : list string)
  : JSObject.obj V :=
  map (fun k => (k, f k)) ks.

(** Ascending numeric order of array indices. *)
Definition index_le (a b : string) : Prop := Digits.value a <= Digits.value b.

(** The leads of the example: two in stage "New", one with status 5. *)
Definition example_leads : list item :=
  [ mkItem None (Some 100) None None (Some (Some "New")) None;
    mkItem None (Some 50) None None (Some (Some "New")) None;
    mkItem (Some 5) (Some 0) None None None None ].

(** The same leads with [status] beside [price] instead of under
    [_embedded], which the handler does not read. *)
Definition example_leads_flat : list item :=
  [ mkItem None (Some 100) None None None None;
    mkItem None (Some 50) None None None None;
    mkItem (Some 5) (Some 0) None None None None ].

(** The two date strings of the examples, as [new Date(string)] reads
    them (midnight UTC); every other string is left invalid here. *)
Definition example_parse (s : string) : option Z :=
  if String.eqb s "2024-02-01" then Some 1706745600000
  else if String.eqb s "2024-02-10" then Some 1707523200000
  else None.

(** 2024-01-10 09:00 UTC. *)
Definition example_now : Z := 1704877200000.

(** The three buckets as predicates on a task, for a host offset [tz] and
    a current time [now]. *)
Definition is_overdue (now : Z) (task : item) : bool :=
  match dueOf task with
  | Some due => due <? now
  | None => false
  end.

Definition is_today (tz now : Z) (task : item) : bool :=
  match dueOf task with
  | Some due => negb (due <? now) && same_local_date tz due now
  | None => false
  end.

Definition is_next48h (tz now : Z) (task : item) : bool :=
  match dueOf task with
  | Some due =>
      negb (due <? now) && negb (same_local_date tz due now)
      && (due - now <=? 48 * 60 * 60 * 1000)
  | None => false
  end.

(** A task due at [seconds] (epoch seconds). *)
Definition task_due (seconds : Z) : item :=
  mkItem None None None None None (Some seconds).

(** A lead created at [seconds] (epoch seconds). *)
Definition lead_created (seconds : Z) : item :=
  mkItem None None (Some seconds) None None None.

(** A scripted reply that the [catch] block answers with a retry. *)
Definition retried_failure (r : scripted) : bool :=
  match answer r with
  | Fail err => retryable err
  | Ok _ => false
  end.

Definition is_get (ev : event) : bool :=
  match ev with Get _ _ _ _ => true | Sleep _ => false end.

Definition is_sleep (ev : event) : bool :=
  match ev with Sleep _ => true | Get _ _ _ _ => false end.

(** The events [kommoRequest] may add to the trace for a given path and
    parameters: a request for some page from [first] on, with limit 250,
    or a sleep of one second. *)
Definition fetch_event (path : string) (params : list (string * qval))
           (first : Z) (ev : event) : Prop :=
  (exists page, first <= page /\ ev = Get path params limit page)
  \/ ev = Sleep 1000.

(* ================================================================== *)
(** * The calendar *)
(* ================================================================== *)

Example epoch_day : JSDate.civil_from_days 0 = (1970, 1, 1).
Proof. reflexivity. Qed.

Example leap_day : JSDate.civil_from_days (JSDate.days_from_civil 2024 2 29) = (2024, 2, 29).
Proof. reflexivity. Qed.

Example day_overflow :
  JSDate.days_from_civil 2024 1 32 = JSDate.days_from_civil 2024 2 1.
Proof. reflexivity. Qed.

Example iso_date : JSDate.toISODate 1704877200000 = "2024-01-10".
Proof. vm_compute. reflexivity. Qed.

Example iso_date_before_epoch : JSDate.toISODate (-1) = "1969-12-31".
Proof. vm_compute. reflexivity. Qed.

Example local_getters :
  (JSDate.getFullYear (3 * 3600000) 1704059999999,
   JSDate.getMonth (3 * 3600000) 1704059999999,
   JSDate.getDate (3 * 3600000) 1704059999999) = (2024, 0, 1)
  /\ (JSDate.getFullYear 0 1704059999999,
      JSDate.getMonth 0 1704059999999,
      JSDate.getDate 0 1704059999999) = (2023, 11, 31).
Proof. split; vm_compute; reflexivity. Qed.

(** The two calendar functions are inverse on every day from 1970-01-01 to
    2069-12-31. *)
Lemma civil_days_inverse :
  N.iter 36524
         (fun st : Z * bool =>
            let '(z, ok) := st in
            let '(y, m, d) := JSDate.civil_from_days z in
            (z + 1, ok && (JSDate.days_from_civil y m d =? z)))
         (0, true)
  = (36524, true).
Proof. vm_compute. reflexivity. Qed.

(* ================================================================== *)
(** * RemoteFetcher: retry policy and pagination *)
(* ================================================================== *)

Section KommoRequestFacts.

Variable path : string.
Variable params : list (string * qval).

Lemma retryable_http (status : Z) :
  retryable (HttpError status) = true <-> retried status.
Proof.
  unfold retryable, retried.
  rewrite orb_true_iff, Z.eqb_eq, Z.geb_le. lia.
Qed.

Lemma kommoLoop_page (p : page) page_no results rest clk tr :
  kommoLoop path params page_no results (page_reply p :: rest) clk tr =
  if Z.of_nat (List.length (page_items p)) <? limit
  then (Return (Items (results ++ page_items p)),
        mkWorld (clk + page_latency p) rest
                (tr ++ [Get path params limit page_no]))
  else kommoLoop path params (page_no + 1) (results ++ page_items p) rest
                 (clk + page_latency p) (tr ++ [Get path params limit page_no]).
Proof.
  destruct p as [lat env items]; destruct env; reflexivity.
Qed.

Lemma kommoLoop_failure lat err page_no results rest clk tr :
  kommoLoop path params page_no results (mkScripted lat (Fail err) :: rest) clk tr =
  if retryable err
  then kommoLoop path params page_no results rest (clk + lat + 1000)
                 (tr ++ [Get path params limit page_no] ++ [Sleep 1000])
  else (Throw err,
        mkWorld (clk + lat) rest (tr ++ [Get path params limit page_no])).
Proof.
  cbn [kommoLoop latency answer]. rewrite <- app_assoc. reflexivity.
Qed.

(** Any number of retried failures leaves the loop where it was: same
    page, same accumulated results, one sleep of a second per failure. *)
Lemma kommoLoop_retries (failures : list (Z * Z)) :
  Forall (fun f => retried (snd f)) failures ->
  forall page_no results rest clk tr,
    kommoLoop path params page_no results
              (map http_failure failures ++ rest) clk tr =
    kommoLoop path params page_no results rest
              (clk + total (map (fun f => fst f + 1000) failures))
              (tr ++ attempts path params page_no (List.length failures)).
Proof.
  induction 1 as [| [lat status] failures Hs _ IH]; intros page_no results rest clk tr.
  - cbn. rewrite Z.add_0_r, app_nil_r. reflexivity.
  - cbn [map app].
    change (http_failure (lat, status))
      with (mkScripted lat (Fail (HttpError status))).
    rewrite kommoLoop_failure.
    apply retryable_http in Hs. cbn [snd] in Hs. rewrite Hs.
    rewrite IH. cbn [List.length attempts total map fold_right fst].
    f_equal; [fold (total (map (fun f => fst f + 1000) failures)); lia |].
    rewrite <- !app_assoc. reflexivity.
Qed.

(** Whatever the script, an error that reaches the caller is one the
    [catch] block does not retry. *)
Lemma kommoLoop_throw script :
  forall page_no results clk tr err w,
    kommoLoop path params page_no results script clk tr = (Throw err, w) ->
    retryable err = false.
Proof.
  induction script as [| [lat ans] script IH]; intros page_no results clk tr err w H.
  - discriminate H.
  - destruct ans as [d | e].
    + cbn [kommoLoop latency answer] in H.
      destruct d as [items | items | r];
        try (destruct (Z.of_nat (List.length items) <? limit);
             [discriminate H | eapply IH; exact H]).
      discriminate H.
    + rewrite kommoLoop_failure in H.
      destruct (retryable e) eqn:He.
      * eapply IH; exact H.
      * congruence.
Qed.

Lemma kommoLoop_pages (full : list page) (last : page) :
  Forall (fun p => List.length (page_items p) = 250%nat) full ->
  (List.length (page_items last) < 250)%nat ->
  forall page_no results rest clk tr,
    kommoLoop path params page_no results
              (map page_reply (full ++ [last]) ++ rest) clk tr =
    (Return (Items (results ++ List.concat (map page_items (full ++ [last])))),
     mkWorld (clk + total (map page_latency (full ++ [last]))) rest
             (tr ++ page_requests path params page_no
                                  (List.length (full ++ [last])))).
Proof.
  intros Hfull Hlast.
  induction Hfull as [| p full Hp _ IH]; intros page_no results rest clk tr.
  - cbn [app map]. rewrite kommoLoop_page.
    replace (Z.of_nat (List.length (page_items last)) <? limit) with true
      by (symmetry; apply Z.ltb_lt; unfold limit; lia).
    cbn. rewrite app_nil_r, !Z.add_0_r. reflexivity.
  - cbn [app map]. rewrite kommoLoop_page.
    replace (Z.of_nat (List.length (page_items p)) <? limit) with false
      by (symmetry; apply Z.ltb_ge; unfold limit; lia).
    rewrite IH. cbn [List.concat List.length total map fold_right].
    unfold page_requests. cbn [seq map].
    rewrite <- seq_shift, map_map.
    f_equal; [now rewrite <- app_assoc |].
    f_equal; [fold (total (map page_latency (full ++ [last]))); lia |].
    rewrite <- app_assoc. cbn [app]. rewrite Z.add_0_r.
    do 2 f_equal. apply map_ext. intros i. f_equal. lia.
Qed.

End KommoRequestFacts.

Lemma retryable_fatal (err : JSError) : retryable err = false <-> fatal err.
Proof.
  unfold fatal. destruct err as [status | | |].
  - pose proof (retryable_http status) as R. split.
    + intros H s [= <-] Hs. apply R in Hs. congruence.
    + intros H. specialize (H status eq_refl).
      destruct (retryable (HttpError status)); [| reflexivity].
      exfalso. apply H, R. reflexivity.
  - split; [intros _ s; discriminate | reflexivity].
  - split; [intros _ s; discriminate | reflexivity].
  - split; [intros _ s; discriminate | reflexivity].
Qed.

(** C2.  Retry policy of the paginated fetch.  (1) An error that reaches
    the caller of [kommoRequest] is never an HTTP error with status 429 or
    >= 500.  (2) After such an error the loop sleeps 1000 ms and goes on
    with the same page and the same accumulated results.  (3) The number of
    attempts has no bound: after any number [n] of retried failures the
    fetch is still going, having sent [n] requests for page 1, each followed
    by a sleep of one second, and it is sending request [n + 1] for page 1.
    (4) Every other error (an HTTP error with another status, a network
    failure) is thrown to the caller at once, and no further request is
    sent. *)
Theorem retry_policy (path : string) (params : list (string * qval)) :
  (forall w err w',
      kommoRequest path params w = (Throw err, w') -> fatal err)
  /\ (forall lat status page_no results rest clk tr,
         retried status ->
         kommoLoop path params page_no results
                   (mkScripted lat (Fail (HttpError status)) :: rest) clk tr =
         kommoLoop path params page_no results rest (clk + lat + 1000)
                   (tr ++ [Get path params limit page_no; Sleep 1000]))
  /\ (forall failures clk tr,
         Forall (fun f => retried (snd f)) failures ->
         kommoRequest path params (mkWorld clk (map http_failure failures) tr) =
         (Pending,
          mkWorld (clk + total (map (fun f => fst f + 1000) failures)) []
                  (tr ++ attempts path params 1 (List.length failures)
                      ++ [Get path params limit 1])))
  /\ (forall lat err page_no results rest clk tr,
         fatal err ->
         kommoLoop path params page_no results
                   (mkScripted lat (Fail err) :: rest) clk tr =
         (Throw err,
          mkWorld (clk + lat) rest (tr ++ [Get path params limit page_no])))
  /\ fatal NetworkError
  /\ (forall status, status <> 429 -> status < 500 -> fatal (HttpError status)).
Proof.
  repeat split.
  - intros w err w' H. apply retryable_fatal.
    unfold kommoRequest in H. eapply kommoLoop_throw. exact H.
  - intros lat status page_no results rest clk tr Hs.
    rewrite kommoLoop_failure.
    apply retryable_http in Hs. rewrite Hs. reflexivity.
  - intros failures clk tr Hf. unfold kommoRequest. cbn [upstream clock trace].
    rewrite <- (app_nil_r (map http_failure failures)).
    rewrite (kommoLoop_retries path params failures Hf).
    cbn [kommoLoop]. rewrite <- app_assoc. reflexivity.
  - intros lat err page_no results rest clk tr Hf.
    rewrite kommoLoop_failure.
    apply retryable_fatal in Hf. rewrite Hf. reflexivity.
  - intros status; discriminate.
  - intros status H429 H500 s [= <-]. unfold retried. lia.
Qed.

(** Three failures that are retried (503, 429, 500), then nothing more:
    the fetch is pending with four requests for page 1 sent; and a 404 is
    thrown at once. *)
Lemma retry_policy_witness :
  kommoRequest "/leads" []
    (mkWorld 0 (map http_failure [(5, 503); (5, 429); (5, 500)]) []) =
  (Pending,
   mkWorld 3015 []
     [Get "/leads" [] 250 1; Sleep 1000; Get "/leads" [] 250 1; Sleep 1000;
      Get "/leads" [] 250 1; Sleep 1000; Get "/leads" [] 250 1])
  /\ kommoLoop "/leads" [] 3 [] [mkScripted 5 (Fail (HttpError 404))] 0 [] =
     (Throw (HttpError 404), mkWorld 5 [] [Get "/leads" [] 250 3]).
Proof.
  split.
  - apply (proj1 (proj2 (proj2 (retry_policy "/leads" [])))
             [(5, 503); (5, 429); (5, 500)] 0 []).
    repeat constructor; unfold retried; cbn [snd]; lia.
  - apply (proj1 (proj2 (proj2 (proj2 (retry_policy "/leads" []))))
             5 (HttpError 404) 3 [] [] 0 []).
    intros status [= <-]. unfold retried. lia.
Defined.

(** C3.  Pagination.  When the upstream answers with pages of exactly 250
    items followed by one shorter page (each a bare array or an envelope),
    [kommoRequest] sends one request per page, numbered 1, 2, ..., stops
    after the short page without consuming any further reply, and returns
    the concatenation of the pages in order; so the number of results is
    the sum of the page lengths and the number of requests is the number
    of pages. *)
Theorem pagination (path : string) (params : list (string * qval))
        (full : list page) (last : page) (rest : list scripted)
        (clk : Z) (tr : list event) :
  Forall (fun p => List.length (page_items p) = 250%nat) full ->
  (List.length (page_items last) < 250)%nat ->
  let pages := full ++ [last] in
  let requests := page_requests path params 1 (List.length pages) in
  kommoRequest path params (mkWorld clk (map page_reply pages ++ rest) tr) =
    (Return (Items (List.concat (map page_items pages))),
     mkWorld (clk + total (map page_latency pages)) rest (tr ++ requests))
  /\ List.length (List.concat (map page_items pages)) =
     list_sum (map (fun p => List.length (page_items p)) pages)
  /\ List.length requests = List.length pages
  /\ (forall i, (i < List.length pages)%nat ->
                nth_error requests i =
                Some (Get path params limit (1 + Z.of_nat i))).
Proof.
  intros Hfull Hlast pages requests. repeat split.
  - unfold kommoRequest. cbn [upstream clock trace].
    apply (kommoLoop_pages path params full last Hfull Hlast 1 [] rest clk tr).
  - rewrite length_concat, map_map. reflexivity.
  - unfold requests, page_requests. now rewrite length_map, length_seq.
  - intros i Hi. unfold requests, page_requests.
    rewrite nth_error_map, nth_error_seq.
    apply Nat.ltb_lt in Hi. rewrite Hi. reflexivity.
Qed.

(** One full page as a bare array and a short page of three items inside
    the envelope: two requests, 253 results. *)
Lemma pagination_witness :
  kommoRequest "/leads" []
    (mkWorld 0 (map page_reply [mkPage 5 false (repeat blank 250);
                                mkPage 7 true (repeat blank 3)]) []) =
  (Return (Items (repeat blank 253)),
   mkWorld 12 [] [Get "/leads" [] 250 1; Get "/leads" [] 250 2]).
Proof.
  assert (Hfull : Forall (fun p => List.length (page_items p) = 250%nat)
                         [mkPage 5 false (repeat blank 250)])
    by (repeat constructor).
  assert (Hlast : (List.length (page_items (mkPage 7 true (repeat blank 3))) < 250)%nat)
    by (cbn; lia).
  pose proof (proj1 (pagination "/leads" []
                       [mkPage 5 false (repeat blank 250)]
                       (mkPage 7 true (repeat blank 3)) [] 0 [] Hfull Hlast)) as W.
  exact W.
Defined.

(* ================================================================== *)
(** * CacheAside *)
(* ================================================================== *)

Section CacheFacts.

Variable V : Type.
Variable undefined : V.

Lemma find_key (c : LRU.cache V) (k : string) (e : LRU.entry V) :
  LRU.find c k = Some e -> LRU.key e = k.
Proof.
  induction c as [| e' c IH]; cbn [LRU.find]; [discriminate |].
  destruct (String.eqb k (LRU.key e')) eqn:E.
  - intros [= <-]. symmetry. now apply String.eqb_eq.
  - exact IH.
Qed.

Lemma find_front (c : LRU.cache V) (e : LRU.entry V) :
  LRU.find (e :: c) (LRU.key e) = Some e.
Proof. cbn [LRU.find]. now rewrite String.eqb_refl. Qed.

Lemma find_set (c : LRU.cache V) (k : string) (v : V) (now : Z) :
  LRU.find (LRU.set c k v now) k = Some (LRU.mkEntry k v now).
Proof. unfold LRU.set. apply (find_front _ (LRU.mkEntry k v now)). Qed.

Lemma live_window (e : LRU.entry V) (now : Z) :
  LRU.live e now = true <-> now - LRU.storedAt e < CACHE_TTL.
Proof. unfold LRU.live. rewrite negb_true_iff, Z.geb_leb, Z.leb_gt. reflexivity. Qed.

(** An entry that is not live does not become live later. *)
Lemma has_later (c : LRU.cache V) (k : string) (t t' : Z) :
  LRU.has c k t = false -> t <= t' -> LRU.has c k t' = false.
Proof.
  unfold LRU.has. destruct (LRU.find c k) as [e |]; [| reflexivity].
  intros Hdead Hle. destruct (LRU.live e t') eqn:L; [| reflexivity].
  apply live_window in L.
  assert (Hlive : LRU.live e t = true) by (apply live_window; lia).
  congruence.
Qed.

(** A hit: the stored value comes back, the world is untouched and
    [fetchFn] plays no part. *)
Lemma getCached_hit (key : string) (fetchFn : M V) (c : LRU.cache V) (w : World) :
  LRU.has c key (clock w) = true ->
  exists e, LRU.find c key = Some e
            /\ getCached undefined key fetchFn c w =
               (Return (LRU.value e), e :: LRU.remove c key, w).
Proof.
  unfold getCached, LRU.has, LRU.get. intros H. rewrite H.
  destruct (LRU.find c key) as [e |]; [| discriminate].
  exists e. rewrite H. split; reflexivity.
Qed.

(** A miss: [fetchFn] runs, and what it returns is stored with the time
    at which it returned; a failure stores nothing. *)
Lemma getCached_miss (key : string) (fetchFn : M V) (c : LRU.cache V) (w : World) :
  LRU.has c key (clock w) = false ->
  getCached undefined key fetchFn c w =
  match fetchFn w with
  | (Return val, w') => (Return val, LRU.set c key val (clock w'), w')
  | (Throw e, w') => (Throw e, c, w')
  | (Pending, w') => (Pending, c, w')
  end.
Proof. unfold getCached. intros H. rewrite H. reflexivity. Qed.

(** After a call that returned [v], the entry of [key] holds [v]; if the
    call ran [fetchFn], the entry was stored when [fetchFn] returned. *)
Lemma getCached_entry (key : string) (fetchFn : M V) (c c1 : LRU.cache V)
      (w w1 : World) (v : V) :
  getCached undefined key fetchFn c w = (Return v, c1, w1) ->
  exists e, LRU.find c1 key = Some e /\ LRU.value e = v
            /\ (invocations key c w = 1%nat -> LRU.storedAt e = clock w1).
Proof.
  intros H. unfold invocations.
  destruct (LRU.has c key (clock w)) eqn:Hhas.
  - destruct (getCached_hit key fetchFn c w Hhas) as (e & Hfind & Heq).
    rewrite Heq in H. injection H as Hv Hc Hw. subst c1.
    pose proof (find_front (LRU.remove c key) e) as F.
    rewrite (find_key _ _ _ Hfind) in F.
    exists e. repeat split; [exact F | assumption | discriminate].
  - rewrite (getCached_miss key fetchFn c w Hhas) in H.
    destruct (fetchFn w) as [[val | err |] w']; try discriminate H.
    injection H as Hv Hc Hw. subst.
    exists (LRU.mkEntry key v (clock w1)). rewrite find_set. repeat split.
Qed.

End CacheFacts.

(** C1, as amended.  Take a first [getCached(key, fetchFn)], however it
    ends.  If it returns a value [v]: (1) a second call with the same key
    while the entry of [key] is live does not run its compute function and
    returns [v], leaving the world as it is; (2) if the first call ran
    [fetchFn], the entry is live for the 60 seconds after [fetchFn]
    returned; (3) so the two calls, the second within those 60 seconds, run
    the compute function at most once; (4) once 60 seconds have passed
    since the entry was stored, a call with the same key runs its compute
    function again, and when that returns a value the value is stored
    afresh, with the new time.  If it throws: (5) the compute function was
    run and threw that error, nothing is stored, the cache being as it
    was, and any later call with the same key runs its compute function
    again, so that the two calls run it twice, and stores the value when
    that returns one. *)
Theorem cache_aside (V : Type) (undefined : V) (key : string) (fetchFn : M V)
        (cache c1 : LRU.cache V) (w w1 : World) (r : completion V) :
  getCached undefined key fetchFn cache w = (r, c1, w1) ->
  (forall v : V,
      r = Return v ->
      (forall (g : M V) (w2 : World),
          LRU.has c1 key (clock w2) = true ->
          invocations key c1 w2 = 0%nat
          /\ exists c2, getCached undefined key g c1 w2 = (Return v, c2, w2))
      /\ (forall w2 : World,
             invocations key cache w = 1%nat ->
             clock w1 <= clock w2 < clock w1 + CACHE_TTL ->
             LRU.has c1 key (clock w2) = true)
      /\ (forall w2 : World,
             clock w1 <= clock w2 < clock w1 + CACHE_TTL ->
             (invocations key cache w + invocations key c1 w2 <= 1)%nat)
      /\ (forall (e : LRU.entry V) (g : M V) (w3 : World),
             LRU.find c1 key = Some e ->
             clock w3 - LRU.storedAt e >= CACHE_TTL ->
             invocations key c1 w3 = 1%nat
             /\ forall v' w3',
                 g w3 = (Return v', w3') ->
                 getCached undefined key g c1 w3 =
                   (Return v', LRU.set c1 key v' (clock w3'), w3')
                 /\ LRU.find (LRU.set c1 key v' (clock w3')) key =
                    Some (LRU.mkEntry key v' (clock w3'))))
  /\ (forall err : JSError,
         r = Throw err ->
         fetchFn w = (Throw err, w1)
         /\ c1 = cache
         /\ invocations key cache w = 1%nat
         /\ forall (g : M V) (w2 : World),
             clock w <= clock w2 ->
             invocations key c1 w2 = 1%nat
             /\ (invocations key cache w + invocations key c1 w2 = 2)%nat
             /\ getCached undefined key g c1 w2 =
                match g w2 with
                | (Return val, w') => (Return val, LRU.set c1 key val (clock w'), w')
                | (Throw e, w') => (Throw e, c1, w')
                | (Pending, w') => (Pending, c1, w')
                end).
Proof.
  intros H. split.
  - intros v ->.
    destruct (getCached_entry V undefined key fetchFn cache c1 w w1 v H)
      as (e & Hfind & Hval & Hstored).
    assert (Hfresh : forall w2, invocations key cache w = 1%nat ->
                                clock w1 <= clock w2 < clock w1 + CACHE_TTL ->
                                LRU.has c1 key (clock w2) = true).
    { intros w2 Hinv Hwin. unfold LRU.has. rewrite Hfind.
      apply live_window. rewrite (Hstored Hinv). lia. }
    split; [| split; [exact Hfresh | split]].
    + intros g w2 Hlive. split.
      * unfold invocations. now rewrite Hlive.
      * destruct (getCached_hit V undefined key g c1 w2 Hlive) as (e' & Hfind' & Heq).
        rewrite Hfind in Hfind'. injection Hfind' as <-.
        rewrite Heq, Hval. eexists. reflexivity.
    + intros w2 Hwin. unfold invocations at 1.
      destruct (LRU.has cache key (clock w)) eqn:Hhas.
      * unfold invocations. destruct (LRU.has c1 key (clock w2)); lia.
      * assert (Hinv : invocations key cache w = 1%nat)
          by (unfold invocations; now rewrite Hhas).
        unfold invocations. rewrite (Hfresh w2 Hinv Hwin). lia.
    + intros e3 g w3 Hfind3 Hold.
      assert (Hmiss : LRU.has c1 key (clock w3) = false).
      { unfold LRU.has. rewrite Hfind3.
        destruct (LRU.live e3 (clock w3)) eqn:L; [| reflexivity].
        apply live_window in L. lia. }
      split.
      * unfold invocations. now rewrite Hmiss.
      * intros v' w3' Hg. split; [| apply find_set].
        rewrite getCached_miss, Hg by exact Hmiss. reflexivity.
  - intros err ->.
    destruct (LRU.has cache key (clock w)) eqn:Hhas.
    { destruct (getCached_hit V undefined key fetchFn cache w Hhas) as (e & _ & Heq).
      rewrite Heq in H. discriminate. }
    rewrite (getCached_miss V undefined key fetchFn cache w Hhas) in H.
    assert (Hrun : fetchFn w = (Throw err, w1) /\ c1 = cache).
    { destruct (fetchFn w) as [[val | e |] w0]; try discriminate.
      injection H as <- <- <-. split; reflexivity. }
    destruct Hrun as [Hrun ->].
    assert (Hinv : invocations key cache w = 1%nat)
      by (unfold invocations; now rewrite Hhas).
    split; [exact Hrun |]. split; [reflexivity |]. split; [exact Hinv |].
    intros g w2 Hlater.
    pose proof (has_later V cache key (clock w) (clock w2) Hhas Hlater) as Hmiss.
    assert (Hinv2 : invocations key cache w2 = 1%nat)
      by (unfold invocations; now rewrite Hmiss).
    split; [exact Hinv2 |]. split; [rewrite Hinv, Hinv2; reflexivity |].
    now apply getCached_miss.
Qed.

(** A first call at time 0 fetches one page in 5 ms and stores it; a call
    at 30 s returns it whatever its compute function is. *)
Lemma cache_aside_witness :
  getCached PUndefined "users" fetchUsers []
            (mkWorld 0 [page_reply (mkPage 5 false [blank])] []) =
  (Return (PFetched (Items [blank])),
   [LRU.mkEntry "users" (PFetched (Items [blank])) 5],
   mkWorld 5 [] [Get "/users" [] 250 1])
  /\ invocations "users" [LRU.mkEntry "users" (PFetched (Items [blank])) 5]
                 (mkWorld 30000 [] []) = 0%nat
  /\ exists c2,
      getCached PUndefined "users" (throw NetworkError)
                [LRU.mkEntry "users" (PFetched (Items [blank])) 5]
                (mkWorld 30000 [] []) =
      (Return (PFetched (Items [blank])), c2, mkWorld 30000 [] []).
Proof.
  assert (H : getCached PUndefined "users" fetchUsers []
                (mkWorld 0 [page_reply (mkPage 5 false [blank])] []) =
              (Return (PFetched (Items [blank])),
               [LRU.mkEntry "users" (PFetched (Items [blank])) 5],
               mkWorld 5 [] [Get "/users" [] 250 1]))
    by reflexivity.
  split; [exact H |].
  apply (proj1 (proj1 (cache_aside payload PUndefined "users" fetchUsers [] _ _ _ _ H)
                  _ eq_refl)
           (throw NetworkError) (mkWorld 30000 [] [])).
  reflexivity.
Defined.

(** C1 as stated fails for a compute function that throws: nothing is
    stored, and a second call one second later runs it again.  Here the
    upstream answers 404 twice; each call sends its own request. *)
Lemma cache_aside_failure_not_cached :
  let w := mkWorld 0 (map http_failure [(5, 404); (5, 404)]) [] in
  let w1 := mkWorld 5 (map http_failure [(5, 404)]) [Get "/users" [] 250 1] in
  let w2 := mkWorld 1005 (map http_failure [(5, 404)]) [Get "/users" [] 250 1] in
  getCached PUndefined "users" fetchUsers [] w = (Throw (HttpError 404), [], w1)
  /\ clock w2 - clock w < CACHE_TTL
  /\ getCached PUndefined "users" fetchUsers [] w2 =
     (Throw (HttpError 404), [],
      mkWorld 1010 [] [Get "/users" [] 250 1; Get "/users" [] 250 1])
  /\ (invocations "users" ([] : LRU.cache payload) w
      + invocations "users" ([] : LRU.cache payload) w2 = 2)%nat
  /\ ~ (invocations "users" ([] : LRU.cache payload) w
        + invocations "users" ([] : LRU.cache payload) w2 <= 1)%nat.
Proof.
  cbv zeta. repeat split; try reflexivity.
  cbn. lia.
Qed.

(* ================================================================== *)
(** * MetricsAggregator *)
(* ================================================================== *)

Lemma pow2_pos (k : Z) : (0 < Binary64.pow2 k)%Q.
Proof. apply Qpower_0_lt. reflexivity. Qed.

Lemma pow2_add (a b : Z) : (Binary64.pow2 (a + b) == Binary64.pow2 a * Binary64.pow2 b)%Q.
Proof. apply Qpower_plus. discriminate. Qed.

Lemma pow2_Z (k : Z) : 0 <= k -> (Binary64.pow2 k == inject_Z (2 ^ k))%Q.
Proof. intros H. unfold Binary64.pow2. now rewrite Zpower_Qpower. Qed.

Lemma pow2_lt (a b : Z) : a < b -> (Binary64.pow2 a < Binary64.pow2 b)%Q.
Proof. intros H. apply Qpower_lt_compat_l; [exact H | reflexivity]. Qed.

Lemma pow2_le (a b : Z) : a <= b -> (Binary64.pow2 a <= Binary64.pow2 b)%Q.
Proof. intros H. apply Qpower_le_compat_l; [exact H | discriminate]. Qed.

Lemma pow2_succ (k : Z) : (Binary64.pow2 (k + 1) == 2 * Binary64.pow2 k)%Q.
Proof. rewrite pow2_add. change (Binary64.pow2 1) with 2%Q. ring. Qed.

Lemma pow2_pred (k : Z) : (Binary64.pow2 k == 2 * Binary64.pow2 (k - 1))%Q.
Proof. rewrite <- pow2_succ. now replace (k - 1 + 1) with k by lia. Qed.

(** [Binary64.ilog2 q] is the exponent of the binade of a positive [q]. *)
Lemma ilog2_spec (q : Q) :
  (0 < q)%Q -> (Binary64.pow2 (Binary64.ilog2 q) <= q < Binary64.pow2 (Binary64.ilog2 q + 1))%Q.
Proof.
  intros Hq. destruct q as [n d]. unfold Binary64.ilog2. cbn [Qnum Qden].
  assert (Hn : 0 < n) by (unfold Qlt in Hq; cbn in Hq; lia).
  set (a := Z.log2 n). set (b := Z.log2 (Zpos d)).
  destruct (Z.log2_spec n Hn) as [Ha1 Ha2]. fold a in Ha1, Ha2.
  destruct (Z.log2_spec (Zpos d) (Pos2Z.is_pos d)) as [Hb1 Hb2]. fold b in Hb1, Hb2.
  assert (Ha0 : 0 <= a) by apply Z.log2_nonneg.
  assert (Hb0 : 0 <= b) by apply Z.log2_nonneg.
  assert (Hq_eq : (n # d == inject_Z n / inject_Z (Zpos d))%Q) by apply Qmake_Qdiv.
  assert (Hd : (0 < inject_Z (Zpos d))%Q) by (unfold Qlt; cbn; lia).
  assert (Hpa : (Binary64.pow2 a == Binary64.pow2 (a - b) * Binary64.pow2 b)%Q).
  { rewrite <- pow2_add. now replace (a - b + b) with a by lia. }
  assert (HA1 : (Binary64.pow2 a <= inject_Z n)%Q).
  { rewrite pow2_Z by lia. now rewrite <- Zle_Qle. }
  assert (HA2 : (inject_Z n < 2 * Binary64.pow2 a)%Q).
  { rewrite <- pow2_succ, pow2_Z by lia. rewrite <- Zlt_Qlt.
    now replace (a + 1) with (Z.succ a) by lia. }
  assert (HB1 : (Binary64.pow2 b <= inject_Z (Zpos d))%Q).
  { rewrite pow2_Z by lia. now rewrite <- Zle_Qle. }
  assert (HB2 : (inject_Z (Zpos d) < 2 * Binary64.pow2 b)%Q).
  { rewrite <- pow2_succ, pow2_Z by lia. rewrite <- Zlt_Qlt.
    now replace (b + 1) with (Z.succ b) by lia. }
  pose proof (pow2_pos (a - b)) as Hk. pose proof (pow2_pos b) as Hpb.
  set (D := inject_Z (Zpos d)) in *. set (N := inject_Z n) in *.
  set (K := Binary64.pow2 (a - b)) in *. set (B := Binary64.pow2 b) in *. set (A := Binary64.pow2 a) in *.
  destruct (Qle_bool K (n # d)) eqn:E.
  - apply Qle_bool_iff in E. split; [exact E |].
    rewrite pow2_succ. fold K. rewrite Hq_eq.
    apply Qlt_shift_div_r; [exact Hd |]. nra.
  - assert (Hlt : (n # d < K)%Q).
    { destruct (Qlt_le_dec (n # d) K) as [H | H]; [exact H |].
      apply Qle_bool_iff in H. congruence. }
    replace (a - b - 1 + 1) with (a - b) by lia. split; [| exact Hlt].
    assert (Hk2 : (K == 2 * Binary64.pow2 (a - b - 1))%Q) by apply pow2_pred.
    set (K' := Binary64.pow2 (a - b - 1)) in *.
    rewrite Hq_eq. apply Qle_shift_div_l; [exact Hd |]. nra.
Qed.

Lemma ilog2_unique (q : Q) (k : Z) :
  (Binary64.pow2 k <= q < Binary64.pow2 (k + 1))%Q -> Binary64.ilog2 q = k.
Proof.
  intros [H1 H2].
  assert (Hq : (0 < q)%Q) by (pose proof (pow2_pos k); lra).
  destruct (ilog2_spec q Hq) as [H3 H4].
  assert (Ha : Binary64.ilog2 q < k + 1).
  { apply (Qpower_lt_compat_l_inv 2); [| reflexivity]. fold (Binary64.pow2 (Binary64.ilog2 q)) (Binary64.pow2 (k + 1)). lra. }
  assert (Hb : k < Binary64.ilog2 q + 1).
  { apply (Qpower_lt_compat_l_inv 2); [| reflexivity]. fold (Binary64.pow2 k) (Binary64.pow2 (Binary64.ilog2 q + 1)). lra. }
  lia.
Qed.

Lemma nearest_even_Z (q : Q) (z : Z) : (q == inject_Z z)%Q -> Binary64.nearest_even q = z.
Proof.
  intros H. unfold Binary64.nearest_even.
  assert (Hf : Qfloor q = z) by (rewrite H; apply Qfloor_Z).
  rewrite Hf.
  assert (Hc : (q - inject_Z z ?= 1 # 2)%Q = Lt).
  { apply -> Qlt_alt. rewrite H. lra. }
  now rewrite Hc.
Qed.

Lemma nearest_even_close (q : Q) :
  (Qabs (inject_Z (Binary64.nearest_even q) - q) <= 1 # 2)%Q.
Proof.
  unfold Binary64.nearest_even.
  pose proof (Qfloor_le q) as Hle. pose proof (Qlt_floor q) as Hlt.
  rewrite inject_Z_plus in Hlt. change (inject_Z 1) with 1%Q in Hlt.
  set (f := Qfloor q) in *.
  apply Qabs_Qle_condition.
  destruct (q - inject_Z f ?= 1 # 2)%Q eqn:E.
  - apply Qeq_alt in E. destruct (Z.even f).
    + split; lra.
    + rewrite inject_Z_plus. change (inject_Z 1) with 1%Q. split; lra.
  - apply Qlt_alt in E. split; lra.
  - apply Qgt_alt in E. rewrite inject_Z_plus. change (inject_Z 1) with 1%Q.
    split; lra.
Qed.

Lemma nearest_even_nonneg (q : Q) : (0 <= q)%Q -> 0 <= Binary64.nearest_even q.
Proof.
  intros Hq. unfold Binary64.nearest_even.
  assert (Hf : 0 <= Qfloor q).
  { rewrite <- (Qfloor_Z 0). now apply Qfloor_resp_le. }
  destruct (q - inject_Z (Qfloor q) ?= 1 # 2)%Q; [destruct (Z.even _) | |]; lia.
Qed.

Lemma nearest_even_nonpos (q : Q) : (q <= 0)%Q -> Binary64.nearest_even q <= 0.
Proof.
  intros Hq.
  pose proof (nearest_even_close q) as H. apply Qabs_Qle_condition in H.
  assert (Hlt : (inject_Z (Binary64.nearest_even q) < inject_Z 1)%Q).
  { change (inject_Z 1) with 1%Q. lra. }
  rewrite <- Zlt_Qlt in Hlt. lia.
Qed.

Lemma round_nonneg (q : Q) : (0 <= q)%Q -> nonneg (Binary64.round q).
Proof.
  intros Hq. unfold Binary64.round.
  destruct (Qeq_bool q 0); [unfold nonneg; lra |].
  set (e := Z.max _ _).
  destruct (Qle_bool _ _).
  - unfold nonneg, Binary64.negative. apply Qle_bool_iff in Hq. now rewrite Hq.
  - unfold nonneg. rewrite Qred_correct.
    pose proof (pow2_pos e) as He.
    assert (Hn : 0 <= Binary64.nearest_even (q / Binary64.pow2 e)).
    { apply nearest_even_nonneg. apply Qle_shift_div_l; [exact He | lra]. }
    rewrite Zle_Qle in Hn. change (inject_Z 0) with 0%Q in Hn. nra.
Qed.

Lemma Qred_inject_Z (n : Z) : Qred (inject_Z n) = inject_Z n.
Proof.
  unfold Qred, inject_Z.
  pose proof (Z.ggcd_gcd n 1) as Hg. pose proof (Z.ggcd_correct_divisors n 1) as Hd.
  destruct (Z.ggcd n 1) as [g [a b]]. cbn [fst snd] in *.
  rewrite Z.gcd_1_r in Hg. subst g. destruct Hd as [Ha Hb].
  replace a with n by lia. replace b with 1 by lia. reflexivity.
Qed.

(** An integer of at most 53 bits is a binary64 Binary64.number. *)
Lemma round_Z (q : Q) (n : Z) :
  (q == inject_Z n)%Q -> Z.abs n <= 2 ^ 53 -> Binary64.round q = Binary64.Finite (inject_Z n).
Proof.
  intros Hq Hn. unfold Binary64.round.
  destruct (Qeq_bool q 0) eqn:E0.
  - apply Qeq_bool_eq in E0. rewrite Hq in E0.
    change 0%Q with (inject_Z 0) in E0. apply -> inject_Z_injective in E0. subst n. reflexivity.
  - apply Qeq_bool_neq in E0.
    assert (Hn0 : n <> 0).
    { intros ->. apply E0. exact Hq. }
    assert (Habs : (Qabs q == inject_Z (Z.abs n))%Q).
    { rewrite Hq. unfold Qabs, inject_Z. reflexivity. }
    set (k := Z.log2 (Z.abs n)).
    assert (Hk : Binary64.ilog2 (Qabs q) = k).
    { apply ilog2_unique. rewrite Habs.
      destruct (Z.log2_spec (Z.abs n)) as [H1 H2]; [lia |]. fold k in H1, H2.
      assert (Hk0 : 0 <= k) by apply Z.log2_nonneg.
      rewrite !pow2_Z by lia. rewrite <- Zle_Qle, <- Zlt_Qlt.
      split; [exact H1 |]. now replace (k + 1) with (Z.succ k) by lia. }
    rewrite Hk.
    assert (Hk53 : 0 <= k <= 53).
    { split; [apply Z.log2_nonneg |].
      unfold k. rewrite <- (Z.log2_pow2 53) by lia. now apply Z.log2_le_mono. }
    set (e := Z.max (k - 52) (-1074)).
    assert (He : e = k - 52) by lia.
    assert (Hm : exists m, (q / Binary64.pow2 e == inject_Z m)%Q /\ (inject_Z m * Binary64.pow2 e == q)%Q).
    { pose proof (pow2_pos e) as Hp.
      destruct (Z.le_gt_cases e 0) as [Hle | Hgt].
      - exists (n * 2 ^ (- e)). rewrite inject_Z_mult, <- pow2_Z by lia.
        assert (Hinv : (Binary64.pow2 (- e) * Binary64.pow2 e == 1)%Q).
        { rewrite <- pow2_add. now replace (- e + e) with 0 by lia. }
        rewrite Hq. split.
        + field_simplify_eq; [| lra].
          transitivity (inject_Z n * (Binary64.pow2 (- e) * Binary64.pow2 e))%Q; [| ring].
          rewrite Hinv. ring.
        + transitivity (inject_Z n * (Binary64.pow2 (- e) * Binary64.pow2 e))%Q; [ring |].
          rewrite Hinv. ring.
      - assert (k = 53) by lia. assert (He1 : e = 1) by lia.
        assert (Hn53 : Z.abs n = 2 ^ 53).
        { destruct (Z.log2_spec (Z.abs n)) as [H1 _]; [lia |]. fold k in H1.
          replace k with 53 in H1 by lia. lia. }
        exists (n / 2).
        assert (Hdiv : n = 2 * (n / 2)).
        { apply Z.div_exact; [lia |].
          destruct (Z.abs_spec n) as [[_ Hs] | [_ Hs]]; rewrite Hn53 in Hs.
          - now subst n.
          - replace n with (- 2 ^ 53) by lia. reflexivity. }
        rewrite He1. change (Binary64.pow2 1) with 2%Q. rewrite Hq.
        rewrite Hdiv at 1 4. rewrite inject_Z_mult. change (inject_Z 2) with 2%Q.
        split; [field | ring]. }
    destruct Hm as [m [Hm1 Hm2]].
    rewrite (nearest_even_Z _ _ Hm1).
    assert (Hover : Qle_bool (Binary64.pow2 1024) (Qabs (inject_Z m * Binary64.pow2 e)) = false).
    { destruct (Qle_bool _ _) eqn:E; [| reflexivity].
      apply Qle_bool_iff in E. rewrite Hm2, Habs in E.
      rewrite pow2_Z in E by lia. rewrite <- Zle_Qle in E.
      assert (2 ^ 53 < 2 ^ 1024) by (apply Z.pow_lt_mono_r; lia). lia. }
    rewrite Hover. f_equal.
    rewrite (Qred_complete _ (inject_Z n)) by (rewrite Hm2; exact Hq).
    apply Qred_inject_Z.
Qed.

(** Rounding a positive Binary64.number in the normal range moves it by at most
    half a unit in the last place, 2^-53 of its size. *)
Lemma round_close (q : Q) :
  (Binary64.pow2 (-1022) <= q < Binary64.pow2 1023)%Q ->
  exists r, Binary64.round q = Binary64.Finite r /\ (0 <= r)%Q /\ (Qabs (r - q) <= q * Binary64.pow2 (-53))%Q.
Proof.
  intros [Hlo Hhi].
  assert (Hq : (0 < q)%Q) by (pose proof (pow2_pos (-1022)); lra).
  assert (Habs : (Qabs q == q)%Q) by (apply Qabs_pos; lra).
  unfold Binary64.round.
  destruct (Qeq_bool q 0) eqn:E0.
  { apply Qeq_bool_eq in E0. lra. }
  assert (Hq' : (0 < Qabs q)%Q) by lra.
  destruct (ilog2_spec (Qabs q) Hq') as [Hk1 Hk2].
  set (k := Binary64.ilog2 (Qabs q)) in *. rewrite Habs in Hk1, Hk2.
  assert (Hk_lo : -1022 <= k).
  { assert (H : -1022 < k + 1); [| lia].
    apply (Qpower_lt_compat_l_inv 2); [| reflexivity].
    fold (Binary64.pow2 (-1022)) (Binary64.pow2 (k + 1)). lra. }
  assert (Hk_hi : k < 1023).
  { apply (Qpower_lt_compat_l_inv 2); [| reflexivity].
    fold (Binary64.pow2 k) (Binary64.pow2 1023). lra. }
  set (e := Z.max (k - 52) (-1074)).
  assert (He : e = k - 52) by lia.
  pose proof (pow2_pos e) as Hpe.
  set (m := Binary64.nearest_even (q / Binary64.pow2 e)).
  pose proof (nearest_even_close (q / Binary64.pow2 e)) as Hm. fold m in Hm.
  assert (Hm0 : 0 <= m).
  { apply nearest_even_nonneg. apply Qle_shift_div_l; [exact Hpe | lra]. }
  rewrite Zle_Qle in Hm0. change (inject_Z 0) with 0%Q in Hm0.
  (* 2^e = 2^k * 2^-52 *)
  assert (Hpk : (Binary64.pow2 k == Binary64.pow2 e * Binary64.pow2 52)%Q).
  { rewrite <- pow2_add. now replace (e + 52) with k by lia. }
  assert (H53 : (Binary64.pow2 (-53) * (2 * Binary64.pow2 52) == 1)%Q) by reflexivity.
  assert (Herr : (Qabs (inject_Z m * Binary64.pow2 e - q) <= Binary64.pow2 e * (1 # 2))%Q).
  { apply Qabs_Qle_condition in Hm. apply Qabs_Qle_condition.
    assert (Hdiv : (q == q / Binary64.pow2 e * Binary64.pow2 e)%Q) by (field; lra).
    set (y := (q / Binary64.pow2 e)%Q) in *. split; nra. }
  assert (Hhalf : (Binary64.pow2 e * (1 # 2) <= q * Binary64.pow2 (-53))%Q).
  { pose proof (pow2_pos (-53)) as Hp53. pose proof (pow2_pos 52) as Hp52.
    set (u := Binary64.pow2 (-53)) in *. set (P := Binary64.pow2 52) in *. set (E := Binary64.pow2 e) in *.
    assert (E * (1 # 2) == E * P * u)%Q as ->.
    { transitivity (E * (1 # 2) * (u * (2 * P)))%Q; [rewrite H53 |]; ring. }
    apply Qmult_le_compat_r; [| lra]. rewrite <- Hpk. exact Hk1. }
  assert (Hover : Qle_bool (Binary64.pow2 1024) (Qabs (inject_Z m * Binary64.pow2 e)) = false).
  { destruct (Qle_bool _ _) eqn:E; [| reflexivity].
    apply Qle_bool_iff in E.
    rewrite Qabs_pos in E by nra.
    apply Qabs_Qle_condition in Herr.
    assert (H1024 : (Binary64.pow2 1024 == 2 * Binary64.pow2 1023)%Q) by reflexivity.
    assert (Hu : (Binary64.pow2 (-53) <= 1)%Q) by (unfold Qle; cbn; lia).
    nra. }
  rewrite Hover. exists (Qred (inject_Z m * Binary64.pow2 e)).
  split; [reflexivity |]. rewrite Qred_correct. split; [nra |].
  eapply Qle_trans; [exact Herr | exact Hhalf].
Qed.

Lemma Qle_bool_false (a b : Q) : Qle_bool a b = false -> (b < a)%Q.
Proof.
  intros H. destruct (Qlt_le_dec b a) as [Hlt | Hle]; [exact Hlt |].
  apply Qle_bool_iff in Hle. congruence.
Qed.

(** The integer of [toFixed] for a Binary64.number [y'] near the fraction
    [a / c]: when [y'] is closer to it than [1 / (2 c)], the integer
    nearest to [y'] is also nearest to the fraction. *)
Lemma floor_half_fraction (y' : Q) (a c : Z) :
  0 < c ->
  (Qabs (y' - inject_Z a / inject_Z c) < 1 / (2 * inject_Z c))%Q ->
  (Qabs (inject_Z (Qfloor (y' + (1 # 2))) - inject_Z a / inject_Z c) <= 1 # 2)%Q.
Proof.
  intros Hc Hnear.
  pose proof (Qfloor_le (y' + (1 # 2))) as Hle.
  pose proof (Qlt_floor (y' + (1 # 2))) as Hlt.
  rewrite inject_Z_plus in Hlt. change (inject_Z 1) with 1%Q in Hlt.
  set (n := Qfloor (y' + (1 # 2))) in *.
  assert (HC : (0 < inject_Z c)%Q) by (change 0%Q with (inject_Z 0); now rewrite <- Zlt_Qlt).
  apply Qabs_Qlt_condition in Hnear.
  set (Y := (inject_Z a / inject_Z c)%Q) in *.
  assert (HY : (Y * inject_Z c == inject_Z a)%Q) by (unfold Y; field; lra).
  assert (Hinv : (1 / (2 * inject_Z c) * (2 * inject_Z c) == 1)%Q) by (field; lra).
  set (h := (1 / (2 * inject_Z c))%Q) in *.
  apply Qabs_Qle_condition. split.
  - (* n >= Y - 1/2 *)
    destruct (Qlt_le_dec (inject_Z n - Y) (- (1 # 2))) as [Hbad | Hok]; [| exact Hok].
    exfalso.
    (* 2 a - 2 n c - c > 0, an integer, so >= 1 *)
    assert (Hint : 0 < 2 * a - 2 * n * c - c).
    { rewrite Zlt_Qlt. change (inject_Z 0) with 0%Q.
      unfold Z.sub. rewrite !inject_Z_plus, !inject_Z_opp, !inject_Z_mult.
      change (inject_Z 2) with 2%Q. nra. }
    assert (Hint1 : 1 <= 2 * a - 2 * n * c - c) by lia.
    rewrite Zle_Qle in Hint1. change (inject_Z 1) with 1%Q in Hint1.
    unfold Z.sub in Hint1.
    rewrite !inject_Z_plus, !inject_Z_opp, !inject_Z_mult in Hint1.
    change (inject_Z 2) with 2%Q in Hint1.
    (* Y - (n + 1/2) >= h, but y' < n + 1/2 and Y - y' < h *)
    assert (Hgap : (h <= Y - (inject_Z n + (1 # 2)))%Q).
    { apply (Qmult_le_r _ _ (2 * inject_Z c)); [lra |]. rewrite Hinv. nra. }
    lra.
  - destruct (Qlt_le_dec (1 # 2) (inject_Z n - Y)) as [Hbad | Hok]; [| exact Hok].
    exfalso.
    assert (Hint : 0 < 2 * n * c - c - 2 * a).
    { rewrite Zlt_Qlt. change (inject_Z 0) with 0%Q.
      unfold Z.sub. rewrite !inject_Z_plus, !inject_Z_opp, !inject_Z_mult.
      change (inject_Z 2) with 2%Q. nra. }
    assert (Hint1 : 1 <= 2 * n * c - c - 2 * a) by lia.
    rewrite Zle_Qle in Hint1. change (inject_Z 1) with 1%Q in Hint1.
    unfold Z.sub in Hint1.
    rewrite !inject_Z_plus, !inject_Z_opp, !inject_Z_mult in Hint1.
    change (inject_Z 2) with 2%Q in Hint1.
    assert (Hgap : (h <= inject_Z n - (1 # 2) - Y)%Q).
    { apply (Qmult_le_r _ _ (2 * inject_Z c)); [lra |]. rewrite Hinv. nra. }
    lra.
Qed.

Lemma round_zero (q : Q) : (q == 0)%Q -> Binary64.round q = Binary64.Finite 0.
Proof. intros H. unfold Binary64.round. apply Qeq_bool_iff in H. now rewrite H. Qed.

Lemma inject_Z_pos (z : Z) : 0 < z -> (0 < inject_Z z)%Q.
Proof. intros H. change 0%Q with (inject_Z 0). now rewrite <- Zlt_Qlt. Qed.

(** The decimal printed by [toFixed] for a Binary64.number that is not Binary64.negative
    and below 10^21. *)
Lemma toFixed_nonneg_small (d : nat) (r : Q) :
  (0 <= r)%Q -> (r < inject_Z (10 ^ 21))%Q ->
  toFixed d (Binary64.Finite r) =
  Binary64.round (inject_Z (Qfloor (r * inject_Z (10 ^ Z.of_nat d) + (1 # 2)))
         / inject_Z (10 ^ Z.of_nat d)).
Proof.
  intros H0 Hsmall. unfold toFixed.
  assert (Habs : (Qabs r == r)%Q) by now apply Qabs_pos.
  destruct (Qle_bool (inject_Z (10 ^ 21)) (Qabs r)) eqn:E.
  { apply Qle_bool_iff in E. lra. }
  apply Qle_bool_iff in H0. rewrite H0.
  now rewrite Habs.
Qed.

(** Up to 2^31 won leads, the rate sent is a decimal with four places
    nearest to the exact quotient. *)
Lemma rate_accuracy (w c : Z) :
  0 <= w <= 2 ^ 31 -> 0 < c < 2 ^ 32 ->
  nearest_decimal 4 (inject_Z w / inject_Z c * 100)
                  (toFixed 4 (Binary64.mul (Binary64.div (Binary64.num w) (Binary64.num c)) (Binary64.num 100))).
Proof.
  intros Hw Hc. unfold Binary64.num, Binary64.div, Binary64.mul.
  pose proof (inject_Z_pos c (proj1 Hc)) as HC.
  assert (Hc0 : Qeq_bool (inject_Z c) 0 = false).
  { destruct (Qeq_bool _ _) eqn:E; [| reflexivity]. apply Qeq_bool_eq in E. lra. }
  rewrite Hc0.
  destruct (Z.eq_dec w 0) as [-> | Hw0].
  - rewrite (round_zero (inject_Z 0 / inject_Z c)) by (field; lra).
    exists 0. split; [vm_compute; reflexivity |].
    assert (E : (inject_Z 0 - inject_Z 0 / inject_Z c * 100 * inject_Z (10 ^ Z.of_nat 4) == 0)%Q)
      by (field; lra).
    rewrite E. discriminate.
  - assert (HA : (1 <= inject_Z w <= inject_Z (2 ^ 31))%Q).
    { rewrite <- !Zle_Qle. change 1%Q with (inject_Z 1). rewrite <- Zle_Qle. lia. }
    assert (HCb : (inject_Z c <= inject_Z (2 ^ 32))%Q) by (rewrite <- Zle_Qle; lia).
    set (a := (inject_Z w / inject_Z c)%Q).
    set (h := (1 / (2 * inject_Z c))%Q).
    assert (Hh : (h * (2 * inject_Z c) == 1)%Q) by (unfold h; field; lra).
    assert (Ha : (a == inject_Z w * (2 * h))%Q) by (unfold a, h; field; lra).
    assert (Hh0 : (0 < h)%Q).
    { unfold h. apply Qlt_shift_div_l; lra. }
    assert (Hhlo : (1 # 2 ^ 33 <= h)%Q).
    { unfold h. apply Qle_shift_div_l; [lra |].
      change (inject_Z (2 ^ 32)) with (4294967296%Q) in HCb.
      change (1 # 2 ^ 33)%Q with (1 # 8589934592)%Q. lra. }
    assert (Hhhi : (h <= 1 # 2)%Q).
    { unfold h. apply Qle_shift_div_r; [lra |].
      assert (1 <= inject_Z c)%Q; [| lra].
      change 1%Q with (inject_Z 1). rewrite <- Zle_Qle. lia. }
    change (inject_Z (2 ^ 31)) with (2147483648%Q) in HA.
    assert (Halo : (2 * h <= a)%Q) by (rewrite Ha; nra).
    assert (Hahi : (a <= 4294967296 * h)%Q) by (rewrite Ha; nra).
    destruct (round_close a) as [r1 [E1 [Hr1 Hd1]]].
    { split.
      - apply Qle_trans with (1 # 2 ^ 32)%Q; [unfold Qle; cbn; lia |].
        change (1 # 2 ^ 32)%Q with (1 # 4294967296)%Q.
        change (1 # 2 ^ 33)%Q with (1 # 8589934592)%Q in Hhlo. lra.
      - apply Qle_lt_trans with 2147483648%Q; [lra | reflexivity]. }
    rewrite E1. apply Qabs_Qle_condition in Hd1.
    change (Binary64.pow2 (-53)) with (1 # 9007199254740992)%Q in Hd1.
    change (1 # 2 ^ 33)%Q with (1 # 8589934592)%Q in Hhlo.
    destruct (round_close (r1 * inject_Z 100)) as [r2 [E2 [Hr2 Hd2]]].
    { change (inject_Z 100) with 100%Q. split.
      - apply Qle_trans with (1 # 2 ^ 32)%Q; [unfold Qle; cbn; lia |].
        change (1 # 2 ^ 32)%Q with (1 # 4294967296)%Q. lra.
      - apply Qle_lt_trans with 429496729600%Q; [lra | reflexivity]. }
    rewrite E2. apply Qabs_Qle_condition in Hd2.
    change (Binary64.pow2 (-53)) with (1 # 9007199254740992)%Q in Hd2.
    change (inject_Z 100) with 100%Q in Hd2.
    rewrite toFixed_nonneg_small; [| exact Hr2 |].
    2:{ change (inject_Z (10 ^ 21)) with 1000000000000000000000%Q. lra. }
    change (inject_Z (10 ^ Z.of_nat 4)) with 10000%Q.
    exists (Qfloor (r2 * 10000 + (1 # 2))). split; [reflexivity |].
    assert (HY : (a * 100 * 10000 == inject_Z (1000000 * w) / inject_Z c)%Q).
    { unfold a. rewrite inject_Z_mult. change (inject_Z 1000000) with 1000000%Q.
      field. lra. }
    rewrite HY. apply floor_half_fraction; [lia |]. fold h.
    rewrite <- HY. apply Qabs_Qlt_condition. split; lra.
Qed.

(** Up to a revenue of 4 * 10^13, the average ticket sent is a decimal
    with two places nearest to the exact quotient. *)
Lemma ticket_accuracy (R w : Z) :
  0 <= R <= 4 * 10 ^ 13 -> 0 < w < 2 ^ 32 ->
  nearest_decimal 2 (inject_Z R / inject_Z w)
                  (toFixed 2 (Binary64.div (Binary64.num R) (Binary64.num w))).
Proof.
  intros HR Hw. unfold Binary64.num, Binary64.div.
  pose proof (inject_Z_pos w (proj1 Hw)) as HW.
  assert (Hw0 : Qeq_bool (inject_Z w) 0 = false).
  { destruct (Qeq_bool _ _) eqn:E; [| reflexivity]. apply Qeq_bool_eq in E. lra. }
  rewrite Hw0.
  destruct (Z.eq_dec R 0) as [-> | HR0].
  - rewrite (round_zero (inject_Z 0 / inject_Z w)) by (field; lra).
    exists 0. split; [vm_compute; reflexivity |].
    assert (E : (inject_Z 0 - inject_Z 0 / inject_Z w * inject_Z (10 ^ Z.of_nat 2) == 0)%Q)
      by (field; lra).
    rewrite E. discriminate.
  - assert (HA : (1 <= inject_Z R <= inject_Z (4 * 10 ^ 13))%Q).
    { rewrite <- !Zle_Qle. change 1%Q with (inject_Z 1). rewrite <- Zle_Qle. lia. }
    assert (HWb : (inject_Z w <= inject_Z (2 ^ 32))%Q) by (rewrite <- Zle_Qle; lia).
    set (a := (inject_Z R / inject_Z w)%Q).
    set (h := (1 / (2 * inject_Z w))%Q).
    assert (Hh : (h * (2 * inject_Z w) == 1)%Q) by (unfold h; field; lra).
    assert (Ha : (a == inject_Z R * (2 * h))%Q) by (unfold a, h; field; lra).
    assert (Hh0 : (0 < h)%Q).
    { unfold h. apply Qlt_shift_div_l; lra. }
    assert (Hhlo : (1 # 8589934592 <= h)%Q).
    { unfold h. apply Qle_shift_div_l; [lra |].
      change (inject_Z (2 ^ 32)) with (4294967296%Q) in HWb. lra. }
    assert (Hhhi : (h <= 1 # 2)%Q).
    { unfold h. apply Qle_shift_div_r; [lra |].
      assert (1 <= inject_Z w)%Q; [| lra].
      change 1%Q with (inject_Z 1). rewrite <- Zle_Qle. lia. }
    change (inject_Z (4 * 10 ^ 13)) with (40000000000000%Q) in HA.
    assert (Halo : (2 * h <= a)%Q) by (rewrite Ha; nra).
    assert (Hahi : (a <= 80000000000000 * h)%Q) by (rewrite Ha; nra).
    destruct (round_close a) as [r1 [E1 [Hr1 Hd1]]].
    { split.
      - apply Qle_trans with (1 # 2 ^ 32)%Q; [unfold Qle; cbn; lia |].
        change (1 # 2 ^ 32)%Q with (1 # 4294967296)%Q. lra.
      - apply Qle_lt_trans with 40000000000000%Q; [lra | reflexivity]. }
    rewrite E1. apply Qabs_Qle_condition in Hd1.
    change (Binary64.pow2 (-53)) with (1 # 9007199254740992)%Q in Hd1.
    rewrite toFixed_nonneg_small; [| exact Hr1 |].
    2:{ change (inject_Z (10 ^ 21)) with 1000000000000000000000%Q. lra. }
    change (inject_Z (10 ^ Z.of_nat 2)) with 100%Q.
    exists (Qfloor (r1 * 100 + (1 # 2))). split; [reflexivity |].
    assert (HY : (a * 100 == inject_Z (100 * R) / inject_Z w)%Q).
    { unfold a. rewrite inject_Z_mult. change (inject_Z 100) with 100%Q.
      field. lra. }
    rewrite HY. apply floor_half_fraction; [lia |]. fold h.
    rewrite <- HY. apply Qabs_Qlt_condition. split; lra.
Qed.

Lemma fold_left_sum (f : item -> Z) (l : list item) (acc : Z) :
  fold_left (fun sum x => sum + f x) l acc = acc + total (map f l).
Proof.
  revert acc. induction l as [| x l IH]; intros acc; cbn [fold_left map total fold_right].
  - lia.
  - rewrite IH. unfold total. lia.
Qed.

Lemma toFixed_rounded (d : nat) (x : Binary64.number) : rounded d x (toFixed d x).
Proof.
  destruct x as [q | s |]; [| reflexivity | reflexivity].
  unfold rounded, toFixed.
  destruct (Qle_bool (inject_Z (10 ^ 21)) (Qabs q)) eqn:E.
  - split; [reflexivity |]. intros Hlt. apply Qle_bool_iff in E. lra.
  - apply Qle_bool_false in E. split; [intros Hle; lra |]. intros _.
    set (p := inject_Z (10 ^ Z.of_nat d)).
    exists (Qfloor (Qabs q * p + (1 # 2))). split; [| reflexivity].
    pose proof (Qfloor_le (Qabs q * p + (1 # 2))) as Hle.
    pose proof (Qlt_floor (Qabs q * p + (1 # 2))) as Hlt.
    rewrite inject_Z_plus in Hlt. change (inject_Z 1) with 1%Q in Hlt.
    split; lra.
Qed.

Lemma add_nonneg (x y : Binary64.number) :
  nonneg x -> nonneg y -> nonneg (Binary64.add x y).
Proof.
  destruct x as [a | s |], y as [b | s' |]; cbn [nonneg Binary64.add];
    try contradiction; intros Hx Hy.
  - apply round_nonneg. lra.
  - exact Hy.
  - exact Hx.
  - subst. reflexivity.
Qed.

Lemma num_negative (n : Z) : 0 <= n -> Binary64.negative (inject_Z n) = false.
Proof.
  intros H. unfold Binary64.negative.
  assert (Hq : (0 <= inject_Z n)%Q).
  { change 0%Q with (inject_Z 0). now rewrite <- Zle_Qle. }
  apply Qle_bool_iff in Hq. now rewrite Hq.
Qed.

Lemma div_nonneg (x : Binary64.number) (n : Z) :
  nonneg x -> 0 < n -> nonneg (Binary64.div x (Binary64.num n)).
Proof.
  intros Hx Hn. pose proof (inject_Z_pos n Hn) as HN.
  destruct x as [a | s |]; cbn [nonneg Binary64.div Binary64.num] in *;
    try contradiction.
  - destruct (Qeq_bool (inject_Z n) 0) eqn:E.
    { apply Qeq_bool_eq in E. lra. }
    apply round_nonneg. apply Qle_shift_div_l; lra.
  - subst s. rewrite num_negative by lia. reflexivity.
Qed.

Lemma mul_nonneg (x : Binary64.number) (n : Z) :
  nonneg x -> 0 < n -> nonneg (Binary64.mul x (Binary64.num n)).
Proof.
  intros Hx Hn. pose proof (inject_Z_pos n Hn) as HN.
  destruct x as [a | s |]; cbn [nonneg Binary64.mul Binary64.num] in *;
    try contradiction.
  - apply round_nonneg. nra.
  - destruct (Qeq_bool (inject_Z n) 0) eqn:E.
    { apply Qeq_bool_eq in E. lra. }
    subst s. rewrite num_negative by lia. reflexivity.
Qed.

Lemma toFixed_nonneg (d : nat) (x : Binary64.number) :
  nonneg x -> nonneg (toFixed d x).
Proof.
  destruct x as [q | s |]; cbn [nonneg toFixed]; [| trivial | trivial].
  intros Hq. destruct (Qle_bool (inject_Z (10 ^ 21)) (Qabs q)); [exact Hq |].
  apply round_nonneg.
  assert (Hb : Qle_bool 0 q = true) by now apply Qle_bool_iff.
  rewrite Hb.
  assert (HP : (0 < inject_Z (10 ^ Z.of_nat d))%Q).
  { apply inject_Z_pos. apply Z.pow_pos_nonneg; lia. }
  assert (Hn : 0 <= Qfloor (Qabs q * inject_Z (10 ^ Z.of_nat d) + (1 # 2))).
  { change 0 with (Qfloor 0). apply Qfloor_resp_le.
    rewrite (Qabs_pos q Hq). nra. }
  rewrite Zle_Qle in Hn. change (inject_Z 0) with 0%Q in Hn.
  apply Qle_shift_div_l; lra.
Qed.

(** The revenue as the code adds it, from a running sum [acc]. *)
Lemma revenue_fold (leads : list item) (acc : Binary64.number) :
  fold_left (fun sum l => Binary64.add sum (priceOf l)) leads acc =
  fold_left Binary64.add (map priceOf leads) acc.
Proof.
  revert acc. induction leads as [| l leads IH]; intros acc; cbn [fold_left map].
  - reflexivity.
  - apply IH.
Qed.

(** While the sizes of the prices add up to at most 2^53 every addition
    is exact. *)
Lemma revenue_exact (leads : list item) (acc : Z) :
  Z.abs acc + total (map (fun l => Z.abs (or0 (price l))) leads) <= 2 ^ 53 ->
  fold_left (fun sum l => Binary64.add sum (priceOf l)) leads (Binary64.num acc) =
  Binary64.num (acc + total (map (fun l => or0 (price l)) leads)).
Proof.
  revert acc. induction leads as [| l leads IH]; intros acc;
    cbn [fold_left map total fold_right].
  - intros _. now rewrite Z.add_0_r.
  - fold (total (map (fun l => Z.abs (or0 (price l))) leads)).
    fold (total (map (fun l => or0 (price l)) leads)).
    intros Hsafe.
    assert (Hrest : 0 <= total (map (fun l => Z.abs (or0 (price l))) leads)).
    { clear. induction leads as [| x leads IH]; cbn [map total fold_right]; [lia |].
      fold (total (map (fun l => Z.abs (or0 (price l))) leads)). lia. }
    assert (Hstep : Binary64.add (Binary64.num acc) (priceOf l) =
                    Binary64.num (acc + or0 (price l))).
    { unfold priceOf.
      rewrite (round_Z (inject_Z (or0 (price l))) (or0 (price l)))
        by (reflexivity || lia).
      unfold Binary64.num. cbn [Binary64.add].
      apply round_Z; [now rewrite inject_Z_plus | lia]. }
    rewrite Hstep, IH by lia. f_equal. lia.
Qed.

Lemma total_nonneg_prices (leads : list item) :
  Forall (fun l => 0 <= or0 (price l)) leads ->
  total (map (fun l => Z.abs (or0 (price l))) leads) =
  total (map (fun l => or0 (price l)) leads)
  /\ 0 <= total (map (fun l => or0 (price l)) leads).
Proof.
  induction 1 as [| l leads Hl _ IH]; cbn [map total fold_right]; [lia |].
  fold (total (map (fun l => Z.abs (or0 (price l))) leads)).
  fold (total (map (fun l => or0 (price l)) leads)). lia.
Qed.

(** C4.  Summary metrics.  The counts are the lengths of the created
    leads, of the closed leads with status 142 (won) and 143 (lost), and of
    the created leads with neither status (active).  [revenue_won] is the
    sum of the prices of the won leads, an absent price counting as 0,
    added as numbers from the left; it is their exact sum while the sizes
    of the prices add up to at most 2^53.  [conversion_rate] is
    won / created * 100 rounded to 4 decimal places, and 0 when nothing was
    created; [avg_ticket] is revenue_won / won rounded to 2 decimal places,
    and 0 when nothing was won.  The quotients are those of binary64
    numbers and the rounding is that of [toFixed] on them; up to 2^31 won
    leads, and up to a revenue of 4 * 10^13 with no negative price, the
    result is the number of a decimal nearest to the exact quotient.  The
    time-to-first-touch field is always null.  With 10 created, 3 won and a
    revenue of 300 the rate is 30 and the average ticket 100. *)
Theorem metrics_aggregator (createdLeads closedLeads : list item) :
  let won := filter (fun l => is_ 142 (status_id l)) closedLeads in
  let lost := filter (fun l => is_ 143 (status_id l)) closedLeads in
  let active :=
    filter (fun l => negb (is_ 142 (status_id l)) && negb (is_ 143 (status_id l)))
           createdLeads in
  let m := metricsOf createdLeads closedLeads in
  let revenue := total (map (fun l => or0 (price l)) won) in
  leads_created m = len createdLeads
  /\ leads_won m = len won
  /\ leads_lost m = len lost
  /\ active_leads m = len active
  /\ revenue_won m = Binary64.sum (map priceOf won)
  /\ (total (map (fun l => Z.abs (or0 (price l))) won) <= 2 ^ 53 ->
      revenue_won m = Binary64.num revenue)
  /\ (len createdLeads = 0 -> conversion_rate m = Binary64.num 0)
  /\ (len createdLeads > 0 ->
      rounded 4 (Binary64.mul (Binary64.div (Binary64.num (len won))
                                            (Binary64.num (len createdLeads)))
                              (Binary64.num 100))
              (conversion_rate m))
  /\ (0 < len createdLeads < 2 ^ 32 -> len won <= 2 ^ 31 ->
      nearest_decimal 4 (inject_Z (len won) / inject_Z (len createdLeads) * 100)
                      (conversion_rate m))
  /\ (len won = 0 -> avg_ticket m = Binary64.num 0)
  /\ (len won > 0 ->
      rounded 2 (Binary64.div (revenue_won m) (Binary64.num (len won)))
              (avg_ticket m))
  /\ (0 < len won < 2 ^ 32 ->
      Forall (fun l => 0 <= or0 (price l)) won -> revenue <= 4 * 10 ^ 13 ->
      nearest_decimal 2 (inject_Z revenue / inject_Z (len won)) (avg_ticket m))
  /\ time_to_first_touch_avg_minutes m = None
  /\ (len createdLeads = 10 -> len won = 3 -> revenue_won m = Binary64.num 300 ->
      conversion_rate m = Binary64.num 30 /\ avg_ticket m = Binary64.num 100).
Proof.
  intros won lost active m revenue.
  assert (Hsum : revenue_won m = Binary64.sum (map priceOf won)).
  { unfold m, metricsOf. cbn [revenue_won]. fold won. apply revenue_fold. }
  assert (Hrev : total (map (fun l => Z.abs (or0 (price l))) won) <= 2 ^ 53 ->
                 revenue_won m = Binary64.num revenue).
  { intros Hsafe. unfold m, metricsOf. cbn [revenue_won]. fold won.
    rewrite revenue_exact by (cbn [Z.abs]; lia). reflexivity. }
  assert (Hrate : conversion_rate m =
                  toFixed 4 (if len createdLeads >? 0
                             then Binary64.mul
                                    (Binary64.div (Binary64.num (len won))
                                                  (Binary64.num (len createdLeads)))
                                    (Binary64.num 100)
                             else Binary64.num 0)) by reflexivity.
  assert (Havg : avg_ticket m =
                 toFixed 2 (if len won >? 0
                            then Binary64.div (revenue_won m) (Binary64.num (len won))
                            else Binary64.num 0)) by reflexivity.
  assert (Hwon0 : 0 <= len won) by (unfold len; lia).
  do 4 (split; [reflexivity |]).
  split; [exact Hsum |]. split; [exact Hrev |].
  split; [| split; [| split; [| split; [| split; [| split; [| split; [reflexivity |]]]]]]].
  - intros H0. rewrite Hrate, H0. reflexivity.
  - intros Hpos. rewrite Hrate.
    apply Z.gt_lt, Z.gtb_lt in Hpos. rewrite Hpos. apply toFixed_rounded.
  - intros Hcreated Hmany. rewrite Hrate.
    destruct Hcreated as [Hpos Hlt]. pose proof Hpos as Hb.
    apply Z.gtb_lt in Hb. rewrite Hb.
    apply rate_accuracy; lia.
  - intros H0. rewrite Havg, H0. reflexivity.
  - intros Hpos. rewrite Havg.
    apply Z.gt_lt, Z.gtb_lt in Hpos. rewrite Hpos. apply toFixed_rounded.
  - intros Hlen Hprices Hbound. rewrite Havg.
    destruct Hlen as [Hpos Hlt]. pose proof Hpos as Hb.
    apply Z.gtb_lt in Hb. rewrite Hb.
    destruct (total_nonneg_prices won Hprices) as [Habs Hnn].
    fold revenue in Hnn, Habs.
    rewrite Hrev by (rewrite Habs; lia).
    apply ticket_accuracy; lia.
  - intros Hcreated Hwon Hrevenue. split.
    + rewrite Hrate, Hcreated, Hwon. vm_compute. reflexivity.
    + rewrite Havg, Hwon, Hrevenue. vm_compute. reflexivity.
Qed.

(** Ten created leads, three of them won at 100 each. *)
Lemma metrics_aggregator_witness :
  let wonLead := mkItem (Some 142) (Some 100) None None None None in
  let openLead := mkItem (Some 7) None None None None None in
  let m := metricsOf (repeat wonLead 3 ++ repeat openLead 7) (repeat wonLead 3) in
  conversion_rate m = Binary64.num 30 /\ avg_ticket m = Binary64.num 100.
Proof.
  intros wonLead openLead m.
  apply (metrics_aggregator (repeat wonLead 3 ++ repeat openLead 7)
                            (repeat wonLead 3)); vm_compute; reflexivity.
Defined.

(** The operations of [Binary64] against the reference operations of the
    standard library ([SpecFloat], with 53 bits and exponents below 1024)
    on small counts: every quotient [a / b], every rate [a / b * 100] and
    every sum [a / b + 100] for [a < 48] and [0 < b < 48]. *)
Definition of_spec_float (x : spec_float) : Binary64.number :=
  match x with
  | S754_zero _ => Binary64.num 0
  | S754_infinity s => Binary64.Infinity s
  | S754_nan => Binary64.NaN
  | S754_finite s m e =>
      Binary64.Finite
        (Qred ((if s then - inject_Z (Zpos m) else inject_Z (Zpos m))
               * Binary64.pow2 e))
  end.

Definition spec_float_of_Z (n : Z) : spec_float :=
  match n with
  | Z0 => S754_zero false
  | Zpos m => S754_finite false m 0
  | Zneg m => S754_finite true m 0
  end.

Definition same_number (x y : Binary64.number) : bool :=
  match x, y with
  | Binary64.Finite a, Binary64.Finite b =>
      (Qnum a =? Qnum b) && (Zpos (Qden a) =? Zpos (Qden b))
  | Binary64.Infinity s, Binary64.Infinity s' => Bool.eqb s s'
  | Binary64.NaN, Binary64.NaN => true
  | _, _ => false
  end.

Example binary64_agrees_with_SpecFloat :
  forallb
    (fun a =>
       forallb
         (fun b =>
            let q := SFdiv 53 1024 (spec_float_of_Z a) (spec_float_of_Z b) in
            let q' := Binary64.div (Binary64.num a) (Binary64.num b) in
            same_number q' (of_spec_float q)
            && same_number (Binary64.mul q' (Binary64.num 100))
                           (of_spec_float (SFmul 53 1024 q (spec_float_of_Z 100)))
            && same_number (Binary64.add q' (Binary64.num 100))
                           (of_spec_float (SFadd 53 1024 q (spec_float_of_Z 100))))
         (map Z.of_nat (seq 1 47)))
    (map Z.of_nat (seq 0 48)) = true.
Proof. vm_compute. reflexivity. Qed.

(** The decimal nearest to the number, not to the exact quotient: three
    of revenue over forty won leads is 0.075 exactly, the quotient of the
    code lies just below it and the average ticket sent is 0.07; 23 won
    of 640 created is 3.59375 per cent exactly and the rate sent 3.5937. *)
Example metrics_of_binary64_quotients :
  let wonLead p := mkItem (Some 142) (Some p) None None None None in
  avg_ticket (metricsOf [] (wonLead 3 :: repeat (wonLead 0) 39)) =
    Binary64.round (7 # 100)
  /\ Binary64.round (7 # 100) <> Binary64.round (8 # 100)
  /\ conversion_rate (metricsOf (repeat (wonLead 0) 640) (repeat (wonLead 0) 23)) =
       Binary64.round (35937 # 10000)
  /\ Binary64.round (35937 # 10000) <> Binary64.round (35938 # 10000).
Proof.
  cbv zeta. split; [vm_compute; reflexivity |].
  split; [vm_compute; discriminate |].
  split; [vm_compute; reflexivity |].
  vm_compute; discriminate.
Qed.

(* ================================================================== *)
(** * FunnelAggregator *)
(* ================================================================== *)

Section ObjectFacts.

Variable V : Type.
Variable f : string -> V.

Lemma own_table_in (ks : list string) (k : string) :
  In k ks -> JSObject.own (table f ks) k = Some (f k).
Proof.
  induction ks as [| k' ks IH]; cbn [table map JSObject.own]; [intros [] |].
  destruct (String.eqb k k') eqn:E.
  - apply String.eqb_eq in E. now subst.
  - intros [-> | H]; [now rewrite String.eqb_refl in E | now apply IH].
Qed.

Lemma own_table_out (ks : list string) (k : string) :
  ~ In k ks -> JSObject.own (table f ks) k = None.
Proof.
  induction ks as [| k' ks IH]; cbn [table map JSObject.own In]; [reflexivity |].
  intros H. destruct (String.eqb k k') eqn:E.
  - apply String.eqb_eq in E. subst. exfalso. apply H. now left.
  - apply IH. intros Hin. apply H. now right.
Qed.

Lemma put_table_out (ks : list string) (k : string) (v : V) :
  ~ In k ks -> JSObject.put (table f ks) k v = table f ks ++ [(k, v)].
Proof.
  induction ks as [| k' ks IH]; cbn [table map JSObject.put In app]; [reflexivity |].
  intros H. destruct (String.eqb k k') eqn:E.
  - apply String.eqb_eq in E. subst. exfalso. apply H. now left.
  - f_equal. apply IH. intros Hin. apply H. now right.
Qed.

Lemma own_last (o : JSObject.obj V) (k : string) (v : V) :
  JSObject.own o k = None -> JSObject.own (o ++ [(k, v)]) k = Some v.
Proof.
  induction o as [| [k' v'] o IH]; cbn [JSObject.own app].
  - now rewrite String.eqb_refl.
  - destruct (String.eqb k k'); [discriminate | exact IH].
Qed.

Lemma put_last (o : JSObject.obj V) (k : string) (v v' : V) :
  JSObject.own o k = None ->
  JSObject.put (o ++ [(k, v)]) k v' = o ++ [(k, v')].
Proof.
  induction o as [| [k0 v0] o IH]; cbn [JSObject.own JSObject.put app].
  - now rewrite String.eqb_refl.
  - destruct (String.eqb k k0); [discriminate |].
    intros H. f_equal. now apply IH.
Qed.

Lemma put_table_in (ks : list string) (k : string) (v : V) :
  NoDup ks -> In k ks ->
  JSObject.put (table f ks) k v =
  map (fun k' => (k', if String.eqb k' k then v else f k')) ks.
Proof.
  induction 1 as [| k' ks Hnotin Hnodup IH]; [intros [] |].
  cbn [table map JSObject.put In]. intros Hin.
  destruct (String.eqb k k') eqn:E.
  - apply String.eqb_eq in E. subst k'. rewrite String.eqb_refl. f_equal.
    apply map_ext_in. intros k' Hk'.
    destruct (String.eqb k' k) eqn:E'; [| reflexivity].
    apply String.eqb_eq in E'. subst. contradiction.
  - rewrite String.eqb_sym, E. f_equal.
    destruct Hin as [-> | Hin]; [now rewrite String.eqb_refl in E |].
    now apply IH.
Qed.

End ObjectFacts.

Lemma first_occurrences_In (ks : list string) (k : string) :
  In k (first_occurrences ks) <-> In k ks.
Proof.
  induction ks as [| k' ks IH]; cbn [first_occurrences In]; [reflexivity |].
  rewrite filter_In, IH, negb_true_iff, String.eqb_neq.
  destruct (string_dec k' k) as [-> | Hne]; [tauto |].
  split; [tauto |]. intros [H | H]; [tauto |]. right. split; congruence.
Qed.

Lemma first_occurrences_NoDup (ks : list string) : NoDup (first_occurrences ks).
Proof.
  induction ks as [| k ks IH]; cbn [first_occurrences]; constructor.
  - rewrite filter_In, String.eqb_refl. intros [_ H]. discriminate H.
  - now apply NoDup_filter.
Qed.

Lemma first_occurrences_snoc (ks : list string) (k : string) :
  first_occurrences (ks ++ [k]) =
  if existsb (String.eqb k) ks then first_occurrences ks
  else first_occurrences ks ++ [k].
Proof.
  induction ks as [| k' ks IH]; cbn [first_occurrences app existsb filter]; [reflexivity |].
  rewrite IH. destruct (String.eqb k k') eqn:E; cbn [orb].
  - apply String.eqb_eq in E. subst k'.
    destruct (existsb (String.eqb k) ks); [reflexivity |].
    rewrite filter_app. cbn [filter]. rewrite String.eqb_refl. cbn [negb].
    now rewrite app_nil_r.
  - destruct (existsb (String.eqb k) ks); [reflexivity |].
    rewrite filter_app. cbn [filter]. rewrite E. reflexivity.
Qed.

Lemma existsb_eqb_In (ks : list string) (k : string) :
  existsb (String.eqb k) ks = true <-> In k ks.
Proof.
  rewrite existsb_exists. split.
  - intros (x & Hin & E). apply String.eqb_eq in E. now subst.
  - intros H. exists k. split; [assumption | apply String.eqb_refl].
Qed.

Lemma total_app (a b : list Z) : total (a ++ b) = total a + total b.
Proof.
  induction a as [| x a IH]; cbn [app total fold_right]; [reflexivity |].
  fold (total (a ++ b)) (total a). lia.
Qed.

Lemma group_snoc (leads : list item) (l : item) (k : string) :
  group (leads ++ [l]) k =
  if String.eqb (stageNameOf l) k
  then mkStage (match with_label k leads with
                | [] => stageName l
                | _ :: _ => stage_name (group leads k)
                end)
               (count (group leads k) + 1)
               (value_sum (group leads k) + or0 (price l))
  else group leads k.
Proof.
  unfold group, with_label. rewrite filter_app. cbn [filter].
  destruct (String.eqb (stageNameOf l) k).
  - cbn [count value_sum stage_name]. unfold len.
    rewrite length_app, map_app, total_app. cbn [List.length map total fold_right].
    f_equal; [| lia | lia].
    destruct (filter (fun l0 => String.eqb (stageNameOf l0) k) leads); reflexivity.
  - now rewrite app_nil_r.
Qed.

Lemma with_label_some (leads : list item) (name : string) :
  In name (map stageNameOf leads) -> with_label name leads <> [].
Proof.
  intros H. apply in_map_iff in H. destruct H as (l & Hl & Hin).
  assert (Hmem : In l (with_label name leads))
    by (apply filter_In; split; [exact Hin | now apply String.eqb_eq]).
  intros E. rewrite E in Hmem. destruct Hmem.
Qed.

Lemma with_label_nil (leads : list item) (name : string) :
  ~ In name (map stageNameOf leads) -> with_label name leads = [].
Proof.
  induction leads as [| l leads IH]; cbn [with_label map filter In]; [reflexivity |].
  intros H. destruct (String.eqb (stageNameOf l) name) eqn:E.
  - apply String.eqb_eq in E. exfalso. apply H. now left.
  - apply IH. intros Hin. apply H. now right.
Qed.

(** The loop of [/api/funnels] builds one entry per distinct stage name,
    in order of first occurrence. *)
Lemma funnel_fold (leads : list item) :
  Forall (fun l => JSObject.inherited (stageNameOf l) = false) leads ->
  fold_left funnel_step leads [] =
  table (group leads) (first_occurrences (map stageNameOf leads)).
Proof.
  induction leads as [| l leads IH] using rev_ind; [reflexivity |].
  intros Hall. apply Forall_app in Hall. destruct Hall as [Hleads Hl].
  apply Forall_inv in Hl.
  rewrite fold_left_app. cbn [fold_left]. rewrite (IH Hleads).
  rewrite map_app. cbn [map]. rewrite first_occurrences_snoc.
  set (ks := first_occurrences (map stageNameOf leads)).
  set (lbl := stageNameOf l) in *.
  unfold funnel_step. fold lbl. rewrite Hl.
  destruct (existsb (String.eqb lbl) (map stageNameOf leads)) eqn:Hseen.
  - assert (Hin : In lbl ks)
      by (apply first_occurrences_In, existsb_eqb_In; exact Hseen).
    rewrite !(own_table_in _ (group leads) ks lbl Hin).
    rewrite (put_table_in _ (group leads) ks lbl _
                          (first_occurrences_NoDup _) Hin).
    unfold table. apply map_ext. intros k. f_equal.
    rewrite group_snoc. fold lbl. rewrite (String.eqb_sym k lbl).
    destruct (String.eqb lbl k) eqn:E; [| reflexivity].
    apply String.eqb_eq in E. subst k.
    pose proof (with_label_some leads lbl
                  (proj1 (existsb_eqb_In _ _) Hseen)) as Hsome.
    destruct (with_label lbl leads); [now contradiction Hsome | reflexivity].
  - assert (Hout : ~ In lbl ks).
    { intros Hin. unfold ks in Hin. apply -> first_occurrences_In in Hin.
      apply <- existsb_eqb_In in Hin. rewrite Hin in Hseen. discriminate Hseen. }
    assert (Hnone : ~ In lbl (map stageNameOf leads))
      by (intros Hin; apply Hout, first_occurrences_In; exact Hin).
    rewrite (own_table_out _ (group leads) ks lbl Hout).
    rewrite (put_table_out _ (group leads) ks lbl _ Hout).
    rewrite (own_last _ _ lbl _ (own_table_out _ (group leads) ks lbl Hout)).
    rewrite (put_last _ _ lbl _ _ (own_table_out _ (group leads) ks lbl Hout)).
    unfold table. rewrite map_app. cbn [map stage_name count value_sum]. f_equal.
    + apply map_ext_in. intros k Hk. f_equal. rewrite group_snoc. fold lbl.
      destruct (String.eqb lbl k) eqn:E; [| reflexivity].
      apply String.eqb_eq in E. subst k. contradiction.
    + do 2 f_equal. rewrite group_snoc. fold lbl. rewrite String.eqb_refl.
      unfold group. rewrite (with_label_nil leads lbl Hnone). reflexivity.
Qed.

(** A lead whose stage name is inherited by every object leaves
    [stageMap] as it is: the funnel is that of the other leads. *)
Lemma funnel_skips_inherited (leads : list item) :
  funnelOf leads =
  funnelOf (filter (fun l => negb (JSObject.inherited (stageNameOf l))) leads).
Proof.
  unfold funnelOf. f_equal. generalize (@nil (string * stage)).
  induction leads as [| l leads IH]; intros o; cbn [fold_left filter]; [reflexivity |].
  destruct (JSObject.inherited (stageNameOf l)) eqn:E; cbn [negb fold_left].
  - rewrite <- IH. f_equal. unfold funnel_step. now rewrite E.
  - apply IH.
Qed.

(** ** The order of [Object.values] *)

Lemma insert_index_In (k x : string) (ks : list string) :
  In x (JSObject.insert_index k ks) <-> x = k \/ In x ks.
Proof.
  induction ks as [| k' ks IH]; cbn [JSObject.insert_index In].
  - intuition.
  - destruct (Digits.value k <=? Digits.value k'); cbn [In]; [intuition |].
    rewrite IH. intuition.
Qed.

Lemma sort_index_In (x : string) (ks : list string) :
  In x (JSObject.sort_index ks) <-> In x ks.
Proof.
  induction ks as [| k ks IH]; cbn [JSObject.sort_index In]; [reflexivity |].
  rewrite insert_index_In, IH. intuition.
Qed.

Lemma key_order_In (x : string) (ks : list string) :
  In x (JSObject.key_order ks) -> In x ks.
Proof.
  unfold JSObject.key_order. rewrite in_app_iff, sort_index_In, !filter_In. tauto.
Qed.

Lemma insert_index_sorted (k : string) (ks : list string) :
  Sorted.StronglySorted index_le ks ->
  Sorted.StronglySorted index_le (JSObject.insert_index k ks).
Proof.
  induction 1 as [| k' ks Hs IH Hall]; cbn [JSObject.insert_index].
  - repeat constructor.
  - destruct (Digits.value k <=? Digits.value k') eqn:E.
    + apply Z.leb_le in E. constructor; [now constructor |].
      constructor; [exact E |].
      eapply Forall_impl; [| exact Hall]. unfold index_le. intros a Ha. lia.
    + apply Z.leb_gt in E. constructor; [exact IH |].
      apply Forall_forall. intros x Hx. apply insert_index_In in Hx.
      destruct Hx as [-> | Hx]; [unfold index_le; lia |].
      rewrite Forall_forall in Hall. now apply Hall.
Qed.

Lemma sort_index_sorted (ks : list string) :
  Sorted.StronglySorted index_le (JSObject.sort_index ks).
Proof.
  induction ks as [| k ks IH]; cbn [JSObject.sort_index]; [constructor |].
  now apply insert_index_sorted.
Qed.

Lemma insert_index_perm (k : string) (ks : list string) :
  Permutation.Permutation (JSObject.insert_index k ks) (k :: ks).
Proof.
  induction ks as [| k' ks IH]; cbn [JSObject.insert_index]; [reflexivity |].
  destruct (Digits.value k <=? Digits.value k'); [reflexivity |].
  rewrite IH. apply Permutation.perm_swap.
Qed.

Lemma sort_index_perm (ks : list string) :
  Permutation.Permutation (JSObject.sort_index ks) ks.
Proof.
  induction ks as [| k ks IH]; cbn [JSObject.sort_index]; [reflexivity |].
  rewrite insert_index_perm. now constructor.
Qed.

Lemma values_table (V : Type) (f : string -> V) (ks : list string) :
  JSObject.values (table f ks) = map f (JSObject.key_order ks).
Proof.
  unfold JSObject.values, JSObject.keys.
  replace (map fst (table f ks)) with ks
    by (unfold table; rewrite map_map; cbn [fst]; now rewrite map_id).
  assert (H : forall l, (forall k, In k l -> In k ks) ->
                        flat_map (fun k => match JSObject.own (table f ks) k with
                                           | Some v => [v]
                                           | None => []
                                           end) l = map f l).
  { induction l as [| k l IH]; intros Hl; cbn [flat_map map]; [reflexivity |].
    rewrite (own_table_in V f ks k (Hl k (or_introl eq_refl))).
    cbn [app]. f_equal. apply IH. intros k' Hk'. apply Hl. now right. }
  apply H. intros k. apply key_order_In.
Qed.

Lemma key_order_no_index (ks : list string) :
  Forall (fun k => JSObject.is_index k = false) ks -> JSObject.key_order ks = ks.
Proof.
  intros H. unfold JSObject.key_order.
  assert (Hnone : filter JSObject.is_index ks = []).
  { induction H as [| k ks Hk _ IH]; cbn [filter]; [reflexivity |].
    now rewrite Hk. }
  assert (Hall : filter (fun k => negb (JSObject.is_index k)) ks = ks).
  { induction H as [| k ks Hk H IH]; cbn [filter]; [reflexivity |].
    rewrite Hk. cbn [negb]. f_equal. apply IH.
    cbn [filter] in Hnone. now rewrite Hk in Hnone. }
  rewrite Hnone, Hall. reflexivity.
Qed.

(** C5, as amended.  For leads whose stage names are not names that every
    object inherits: the funnel has one entry per distinct stage name,
    with the number of its leads and the sum of their prices (0 when
    absent).  The stage name of a lead is the name of its nested
    [_embedded.status] when it has such a status (undefined when that
    status has no name, and then filed under the key "undefined"), else the
    stringified [status_id].  The entries come in the key order of a plain
    object: the names that are array indices (such as a stringified
    [status_id]) first, in ascending numeric order, then the other names in
    order of first occurrence.  When no name is an array index, that is
    the order of first occurrence. *)
Theorem funnel_aggregator (leads : list item) :
  Forall (fun l => JSObject.inherited (stageNameOf l) = false) leads ->
  let names := first_occurrences (map stageNameOf leads) in
  funnelOf leads = map (group leads) (JSObject.key_order names)
  /\ (forall k, In k names ->
                exists first rest,
                  with_label k leads = first :: rest
                  /\ group leads k =
                     mkStage (stageName first) (len (with_label k leads))
                             (total (map (fun l => or0 (price l))
                                         (with_label k leads))))
  /\ (forall l name, embedded_status l = Some name ->
                     stageName l = name /\ stageNameOf l = show name)
  /\ (forall l id, embedded_status l = None -> status_id l = Some id ->
                   stageName l = Some (Digits.String_ id)
                   /\ stageNameOf l = Digits.String_ id)
  /\ (exists indices,
         JSObject.key_order names =
           indices ++ filter (fun k => negb (JSObject.is_index k)) names
         /\ Permutation indices (filter JSObject.is_index names)
         /\ StronglySorted index_le indices)
  /\ (Forall (fun k => JSObject.is_index k = false) names ->
      funnelOf leads = map (group leads) names).
Proof.
  intros Hleads names.
  assert (Hfunnel : funnelOf leads = map (group leads) (JSObject.key_order names)).
  { unfold funnelOf. rewrite (funnel_fold leads Hleads). apply values_table. }
  split; [exact Hfunnel |]. split; [| split; [| split; [| split]]].
  - intros k Hk. unfold names in Hk. apply -> first_occurrences_In in Hk.
    pose proof (with_label_some leads k Hk) as Hsome.
    unfold group. destruct (with_label k leads) as [| first rest];
      [now contradiction Hsome |].
    exists first, rest. split; reflexivity.
  - intros l name Hname. unfold stageNameOf, stageName. now rewrite Hname.
  - intros l id Hname Hid. unfold stageNameOf, stageName. now rewrite Hname, Hid.
  - exists (JSObject.sort_index (filter JSObject.is_index names)).
    split; [reflexivity |]. split; [apply sort_index_perm | apply sort_index_sorted].
  - intros Hnames. rewrite Hfunnel, (key_order_no_index names Hnames). reflexivity.
Qed.

Lemma funnel_aggregator_witness :
  funnelOf example_leads =
  map (group example_leads)
      (JSObject.key_order (first_occurrences (map stageNameOf example_leads))).
Proof.
  apply (funnel_aggregator example_leads).
  repeat constructor.
Defined.

(** C5 as stated fails on its own example.  With the status names under
    [_embedded], the entry of "5", an array index, comes before the entry
    of "New", which was created first.  With [status] beside [price], as
    the example is written, the handler does not read it: the first two
    leads have no [status_id] and are filed under "undefined". *)
Lemma funnel_example_order :
  funnelOf example_leads = [mkStage (Some "5") 1 0; mkStage (Some "New") 2 150]
  /\ funnelOf example_leads <>
     [mkStage (Some "New") 2 150; mkStage (Some "5") 1 0]
  /\ funnelOf example_leads_flat =
     [mkStage (Some "5") 1 0; mkStage (Some "undefined") 2 150]
  /\ funnelOf example_leads_flat <>
     [mkStage (Some "New") 2 150; mkStage (Some "5") 1 0].
Proof.
  repeat split; try reflexivity; discriminate.
Qed.

(* ================================================================== *)
(** * RangeResolver and TimeSeriesAggregator *)
(* ================================================================== *)

Section TimeSeriesFacts.

Variable tz : Z.
Variable Date_parse : string -> option Z.

Lemma local_midnight_next (now shift : Z) :
  local_midnight tz now (shift + 1) =
  local_midnight tz now shift + JSDate.msPerDay.
Proof. unfold local_midnight, JSDate.Date_ymd, JSDate.msPerDay. lia. Qed.

(** The fallback of the resolver: no token, or a token it does not know. *)
Lemma parseRange_fallback (now : Z) (range from to : option string) :
  eqs range "today" = false -> eqs range "yesterday" = false ->
  eqs range "7d" = false -> eqs range "30d" = false ->
  eqs range "custom" = false ->
  parseRange tz Date_parse now range from to = today_range tz now.
Proof.
  intros H1 H2 H3 H4 H5. unfold parseRange.
  rewrite H1, H2, H3, H4, H5. reflexivity.
Qed.

Lemma eqs_neq (s lit : string) : s <> lit -> eqs (Some s) lit = false.
Proof. intros H. cbn [eqs]. now apply String.eqb_neq. Qed.

Lemma ceil_div_nonpos (a b : Z) : a <= 0 -> 0 < b -> ceil_div a b <= 0.
Proof.
  intros Ha Hb. unfold ceil_div.
  assert (0 <= (- a) / b) by (apply Z.div_pos; lia). lia.
Qed.

(** A range that ends no later than it starts has no day bucket. *)
Lemma series_of_range_empty (s e : Z) :
  e <= s -> series_of_range tz (mkRange (Some s) (Some e)) = [].
Proof.
  intros H. unfold series_of_range, zero_series. cbn [start end_].
  assert (Hd : ceil_div (e - s) JSDate.msPerDay <= 0)
    by (apply ceil_div_nonpos; [lia | reflexivity]).
  destruct (ceil_div (e - s) JSDate.msPerDay); try reflexivity. lia.
Qed.

(** The today window has exactly one day bucket. *)
Lemma series_of_today (now : Z) :
  series_of_range tz (today_range tz now) =
  [(JSDate.toISODate
      (JSDate.Date_ymd tz (JSDate.getFullYear tz (local_midnight tz now 0))
                       (JSDate.getMonth tz (local_midnight tz now 0))
                       (JSDate.getDate tz (local_midnight tz now 0) + 0)), 0)].
Proof.
  unfold series_of_range, today_range. cbn [start end_].
  replace (local_midnight tz now 1 - local_midnight tz now 0)
    with JSDate.msPerDay
    by (change 1 with (0 + 1) at 1; rewrite (local_midnight_next now 0); lia).
  reflexivity.
Qed.

Lemma own_put (V : Type) (o : JSObject.obj V) (k k' : string) (v : V) :
  JSObject.own (JSObject.put o k v) k' =
  if String.eqb k' k then Some v else JSObject.own o k'.
Proof.
  induction o as [| [k0 v0] o IH]; cbn [JSObject.put JSObject.own].
  - reflexivity.
  - destruct (String.eqb k k0) eqn:E; cbn [JSObject.own].
    + apply String.eqb_eq in E. subst k0.
      destruct (String.eqb k' k); reflexivity.
    + rewrite IH. destruct (String.eqb k' k0) eqn:E0; [| reflexivity].
      apply String.eqb_eq in E0. subst k0.
      rewrite String.eqb_sym in E. now rewrite E.
Qed.

(** Every value of the series built by the first loop is 0. *)
Lemma zero_series_zero (s days : Z) (k : string) (v : Z) :
  JSObject.own (zero_series tz s days) k = Some v -> v = 0.
Proof.
  unfold zero_series.
  generalize (seq 0 (Z.to_nat days)). intros l.
  assert (H : forall o : JSObject.obj Z,
             (forall k v, JSObject.own o k = Some v -> v = 0) ->
             forall k v,
               JSObject.own
                 (fold_left
                    (fun series i =>
                       JSObject.put series
                         (JSDate.toISODate
                            (JSDate.Date_ymd tz (JSDate.getFullYear tz s)
                               (JSDate.getMonth tz s)
                               (JSDate.getDate tz s + Z.of_nat i))) 0) l o) k
               = Some v -> v = 0).
  { induction l as [| i l IH]; intros o Ho k0 v0; cbn [fold_left]; [apply Ho |].
    apply IH. intros k1 v1. rewrite own_put.
    destruct (String.eqb k1 _); [now intros [= <-] | apply Ho]. }
  apply H. intros k0 v0. discriminate.
Qed.

Lemma points_zero (o : JSObject.obj Z) :
  (forall k v, JSObject.own o k = Some v -> v = 0) ->
  Forall (fun p => value p = 0) (points o).
Proof.
  intros Ho. unfold points.
  induction (JSObject.keys o) as [| k ks IH]; cbn [flat_map]; [constructor |].
  destruct (JSObject.own o k) as [v |] eqn:E; cbn [app]; [| exact IH].
  constructor; [cbn [value]; now apply (Ho k) | exact IH].
Qed.

Lemma series_of_range_zero (r : Range) :
  Forall (fun p => value p = 0) (points (series_of_range tz r)).
Proof.
  apply points_zero. intros k v. unfold series_of_range.
  destruct (start r) as [s |]; [| discriminate].
  destruct (end_ r) as [e |]; [| discriminate].
  apply zero_series_zero.
Qed.

(** With a metric that is none of the three, the compute function of
    [/api/timeseries] returns the zero series and leaves the world alone. *)
Lemma timeseries_compute_other (q : query) (w : World) :
  eqs (q_metric q) "leads_created" = false ->
  eqs (q_metric q) "leads_won" = false ->
  eqs (q_metric q) "revenue_won" = false ->
  timeseries_compute tz Date_parse q w =
  (Return (PSeries (points (series_of_range tz
                              (timeseries_range tz Date_parse (clock w) q)))), w).
Proof.
  intros H1 H2 H3. unfold timeseries_compute, bind, now_.
  rewrite H1, H2, H3. reflexivity.
Qed.

End TimeSeriesFacts.

(** Whatever the upstream answers, the loop starts by requesting the page
    it was entered with. *)
Lemma kommoLoop_first_request (path : string) (params : list (string * qval))
      (script : list scripted) :
  forall page_no results clk tr,
  exists more,
    trace (snd (kommoLoop path params page_no results script clk tr)) =
    tr ++ Get path params limit page_no :: more.
Proof.
  induction script as [| [lat ans] script IH]; intros page_no results clk tr.
  - exists []. reflexivity.
  - destruct ans as [d | e].
    + cbn [kommoLoop latency answer].
      destruct d as [items | items | r];
        try (destruct (Z.of_nat (List.length items) <? limit);
             [exists []; reflexivity |];
             destruct (IH (page_no + 1) (results ++ items) (clk + lat)
                          (tr ++ [Get path params limit page_no])) as [more Hm];
             rewrite Hm, <- app_assoc; eexists; reflexivity).
      exists []. reflexivity.
    + rewrite kommoLoop_failure. destruct (retryable e).
      * destruct (IH page_no results (clk + lat + 1000)
                     (tr ++ [Get path params limit page_no] ++ [Sleep 1000]))
          as [more Hm].
        rewrite Hm, <- !app_assoc. eexists. reflexivity.
      * exists []. reflexivity.
Qed.

(** C7, as amended.  The resolver, given the custom token with [from]
    parsing to a later time than [to], returns a range of negative
    duration, and for a range that ends no later than it starts the first
    loop of the time-series aggregator builds no day bucket.  The
    [/api/timeseries] handler, however, calls the resolver without [from]
    and [to]: for a request with the custom token it resolves the today
    window, which has one day bucket on a host whose offset from UTC is
    fixed, [tz], so that the local day lasts 24 hours. *)
Theorem custom_range_inverted (tz : Z) (Date_parse : string -> option Z)
        (now : Z) (from to : string) (f t : Z) :
  from <> "" -> to <> "" ->
  Date_parse from = Some f -> Date_parse to = Some t -> t < f ->
  let r := parseRange tz Date_parse now (Some "custom") (Some from) (Some to) in
  r = mkRange (Some f) (Some t)
  /\ series_of_range tz r = []
  /\ points (series_of_range tz r) = []
  /\ (forall s e, e <= s -> series_of_range tz (mkRange (Some s) (Some e)) = [])
  /\ (forall q, q_range q = Some "custom" ->
                timeseries_range tz Date_parse now q = today_range tz now)
  /\ List.length (series_of_range tz (today_range tz now)) = 1%nat.
Proof.
  intros Hfrom Hto Hf Ht Hlt r.
  assert (Hr : r = mkRange (Some f) (Some t)).
  { unfold r, parseRange.
    cbn [eqs truthy show String.eqb Ascii.eqb Bool.eqb andb].
    apply String.eqb_neq in Hfrom, Hto. rewrite Hfrom, Hto. cbn [negb andb].
    now rewrite Hf, Ht. }
  assert (Hempty : series_of_range tz r = [])
    by (rewrite Hr; apply series_of_range_empty; lia).
  split; [exact Hr |]. split; [exact Hempty |].
  split; [now rewrite Hempty |]. split; [| split].
  - intros s e. apply series_of_range_empty.
  - intros q Hq. unfold timeseries_range. rewrite Hq. reflexivity.
  - now rewrite series_of_today.
Qed.

Lemma custom_range_inverted_witness :
  parseRange 0 example_parse example_now
             (Some "custom") (Some "2024-02-10") (Some "2024-02-01") =
  mkRange (Some 1707523200000) (Some 1706745600000).
Proof.
  apply (custom_range_inverted 0 example_parse example_now
                               "2024-02-10" "2024-02-01"
                               1707523200000 1706745600000);
    (discriminate || (vm_compute; reflexivity)).
Defined.

(** C7 as stated fails: a timeseries request with the custom token and
    [from] later than [to] resolves the today window, of positive duration,
    and answers with one day bucket. *)
Lemma timeseries_ignores_custom_bounds :
  let q := mkQuery (Some "leads_created") (Some "custom")
                   (Some "2024-02-10") (Some "2024-02-01") None None in
  let w := mkWorld example_now [page_reply (mkPage 5 false [])] [] in
  example_parse "2024-02-10" = Some 1707523200000
  /\ example_parse "2024-02-01" = Some 1706745600000
  /\ timeseries_range 0 example_parse example_now q =
     mkRange (Some 1704844800000) (Some 1704931200000)
  /\ fst (fst (timeseries_handler 0 example_parse q [] w)) =
     Some (mkResponse 200 (Json (PSeries [mkPoint "2024-01-10" 0])))
  /\ points (series_of_range 0 (timeseries_range 0 example_parse example_now q))
     <> [].
Proof.
  cbv zeta. repeat split; try (vm_compute; reflexivity).
  vm_compute. discriminate.
Qed.

(** C9, as amended.  A timeseries request whose [metric] is present, not
    empty and none of leads_created, leads_won, revenue_won is answered
    with status 200 and without any fetch (the world, and with it the trace
    of requests, is as before); when the cache holds no live entry under
    the request's key the body is the series of the resolved range, every
    value of which is 0.  A request whose [metric] is absent or empty is
    answered with status 400 and the message 'metric is required', the
    cache and the world staying as they are. *)
Theorem timeseries_metric_selector (tz : Z) (Date_parse : string -> option Z)
        (q : query) (cache : LRU.cache payload) (w : World) :
  (forall metric,
      q_metric q = Some metric -> metric <> "" ->
      metric <> "leads_created" -> metric <> "leads_won" ->
      metric <> "revenue_won" ->
      let series :=
        points (series_of_range tz (timeseries_range tz Date_parse (clock w) q)) in
      snd (timeseries_handler tz Date_parse q cache w) = w
      /\ (exists p, fst (fst (timeseries_handler tz Date_parse q cache w)) =
                    Some (mkResponse 200 (Json p)))
      /\ (LRU.has cache (timeseries_key q) (clock w) = false ->
          fst (fst (timeseries_handler tz Date_parse q cache w)) =
          Some (mkResponse 200 (Json (PSeries series))))
      /\ Forall (fun p => value p = 0) series)
  /\ (q_metric q = None \/ q_metric q = Some "" ->
      timeseries_handler tz Date_parse q cache w =
      (Some (mkResponse 400 (Error "metric is required")), cache, w)).
Proof.
  split.
  - intros metric Hmetric Hne H1 H2 H3 series.
    assert (Hcompute := timeseries_compute_other tz Date_parse q w).
    rewrite Hmetric in Hcompute.
    specialize (Hcompute (eqs_neq _ _ H1) (eqs_neq _ _ H2) (eqs_neq _ _ H3)).
    unfold timeseries_handler. rewrite Hmetric. cbn [truthy].
    apply String.eqb_neq in Hne. rewrite Hne. cbn [negb].
    destruct (LRU.has cache (timeseries_key q) (clock w)) eqn:Hhas.
    + destruct (getCached_hit payload PUndefined (timeseries_key q)
                  (timeseries_compute tz Date_parse q) cache w Hhas)
        as (e & _ & Heq).
      rewrite Heq. cbn [respond fst snd].
      repeat split; [eexists; reflexivity | discriminate |
                     apply series_of_range_zero].
    + rewrite getCached_miss, Hcompute by exact Hhas. cbn [respond fst snd].
      repeat split; [eexists; reflexivity | apply series_of_range_zero].
  - intros [Hnone | Hempty]; unfold timeseries_handler;
      [rewrite Hnone | rewrite Hempty]; reflexivity.
Qed.

(** An unsupported metric on an empty cache: seven zero days, no request;
    and a request without metric: 400. *)
Lemma timeseries_metric_selector_witness :
  timeseries_handler 0 example_parse
    (mkQuery (Some "leads_open") None None None None None) []
    (mkWorld example_now [] []) =
  (Some (mkResponse 200 (Json (PSeries
     [mkPoint "2024-01-03" 0; mkPoint "2024-01-04" 0; mkPoint "2024-01-05" 0;
      mkPoint "2024-01-06" 0; mkPoint "2024-01-07" 0; mkPoint "2024-01-08" 0;
      mkPoint "2024-01-09" 0]))),
   [LRU.mkEntry
      "/timeseries?metric=leads_open&range=7d&pipeline=undefined&user_id=undefined"
      (PSeries
         [mkPoint "2024-01-03" 0; mkPoint "2024-01-04" 0; mkPoint "2024-01-05" 0;
          mkPoint "2024-01-06" 0; mkPoint "2024-01-07" 0; mkPoint "2024-01-08" 0;
          mkPoint "2024-01-09" 0])
      example_now],
   mkWorld example_now [] [])
  /\ snd (timeseries_handler 0 example_parse
            (mkQuery (Some "leads_open") None None None None None) []
            (mkWorld example_now [] [])) = mkWorld example_now [] []
  /\ timeseries_handler 0 example_parse
       (mkQuery None None None None None None) [] (mkWorld example_now [] []) =
     (Some (mkResponse 400 (Error "metric is required")), [],
      mkWorld example_now [] []).
Proof.
  split; [vm_compute; reflexivity |]. split.
  - apply (proj1 (timeseries_metric_selector 0 example_parse
                    (mkQuery (Some "leads_open") None None None None None) []
                    (mkWorld example_now [] []))
                 "leads_open" eq_refl); discriminate.
  - apply (proj2 (timeseries_metric_selector 0 example_parse
                    (mkQuery None None None None None None) []
                    (mkWorld example_now [] []))).
    left. reflexivity.
Defined.

(** C9 as stated fails for a [metric] that is present but empty
    ([?metric=]): it is none of the three selectors, and the answer is
    status 400, not a series. *)
Lemma timeseries_empty_metric_rejected :
  let q := mkQuery (Some "") None None None None None in
  q_metric q <> None
  /\ q_metric q <> Some "leads_created" /\ q_metric q <> Some "leads_won"
  /\ q_metric q <> Some "revenue_won"
  /\ timeseries_handler 0 example_parse q [] (mkWorld example_now [] []) =
     (Some (mkResponse 400 (Error "metric is required")), [],
      mkWorld example_now [] []).
Proof.
  cbv zeta. repeat split; try discriminate.
Qed.

(* ================================================================== *)
(** * TaskBucketer *)
(* ================================================================== *)

Section TaskFacts.

Variable tz : Z.
Variable now : Z.

Lemma tasks_step_counts (b : buckets) (task : item) :
  tasks_step tz now b task =
  mkBuckets (overdue b + (if is_overdue now task then 1 else 0))
            (today b + (if is_today tz now task then 1 else 0))
            (next48h b + (if is_next48h tz now task then 1 else 0)).
Proof.
  unfold tasks_step, is_overdue, is_today, is_next48h.
  destruct b as [o t n]. cbn [overdue today next48h].
  destruct (dueOf task) as [due |]; [| f_equal; lia].
  destruct (due <? now); cbn [negb andb]; [f_equal; lia |].
  destruct (same_local_date tz due now); cbn [negb andb]; [f_equal; lia |].
  destruct (due - now <=? 48 * 60 * 60 * 1000); f_equal; lia.
Qed.

Lemma len_filter_cons (p : item -> bool) (x : item) (l : list item) :
  len (filter p (x :: l)) = (if p x then 1 else 0) + len (filter p l).
Proof.
  unfold len. cbn [filter]. destruct (p x); cbn [List.length]; lia.
Qed.

Lemma bucketTasks_fold (tasks : list item) (b : buckets) :
  fold_left (tasks_step tz now) tasks b =
  mkBuckets (overdue b + len (filter (is_overdue now) tasks))
            (today b + len (filter (is_today tz now) tasks))
            (next48h b + len (filter (is_next48h tz now) tasks)).
Proof.
  revert b. induction tasks as [| task tasks IH]; intros b.
  - destruct b. cbn. f_equal; lia.
  - cbn [fold_left]. rewrite IH, tasks_step_counts, !len_filter_cons.
    cbn [overdue today next48h]. f_equal; lia.
Qed.

End TaskFacts.

(** C8, as amended.  The three counts are the numbers of tasks that are
    overdue (due strictly before now), due today (not overdue, and due on
    the local calendar date of now) and due in the next 48 hours (neither
    of the former, and due at most 48 hours after now).  A task is in at
    most one of the buckets, the tests being made in that order.  A task
    without a due timestamp ([complete_till_at] absent or 0) is in none;
    so is a task due more than 48 hours after now on another date than
    today. *)
Theorem task_bucketer (tz now : Z) (tasks : list item) :
  bucketTasks tz now tasks =
    mkBuckets (len (filter (is_overdue now) tasks))
              (len (filter (is_today tz now) tasks))
              (len (filter (is_next48h tz now) tasks))
  /\ (forall task due,
         dueOf task = Some due ->
         (is_overdue now task = true <-> due < now)
         /\ (is_today tz now task = true <->
             now <= due /\ same_local_date tz due now = true)
         /\ (is_next48h tz now task = true <->
             now <= due /\ same_local_date tz due now = false
             /\ due - now <= 48 * 3600 * 1000))
  /\ (forall task,
         (is_overdue now task = true ->
          is_today tz now task = false /\ is_next48h tz now task = false)
         /\ (is_today tz now task = true -> is_next48h tz now task = false))
  /\ (forall task,
         dueOf task = None ->
         is_overdue now task = false /\ is_today tz now task = false
         /\ is_next48h tz now task = false)
  /\ (forall task,
         dueOf task = None <->
         complete_till_at task = None \/ complete_till_at task = Some 0)
  /\ (forall task seconds,
         complete_till_at task = Some seconds -> seconds <> 0 ->
         dueOf task = Some (seconds * 1000)).
Proof.
  split; [| split; [| split; [| split; [| split]]]].
  - unfold bucketTasks. rewrite bucketTasks_fold. reflexivity.
  - intros task due Hdue. unfold is_overdue, is_today, is_next48h.
    rewrite Hdue. split; [apply Z.ltb_lt |].
    rewrite !andb_true_iff, !negb_true_iff, Z.ltb_ge, Z.leb_le. tauto.
  - intros task. unfold is_overdue, is_today, is_next48h.
    destruct (dueOf task) as [due |]; [| split; discriminate].
    destruct (due <? now); cbn [negb andb]; split; try discriminate.
    + split; reflexivity.
    + intros ->. reflexivity.
  - intros task Hdue. unfold is_overdue, is_today, is_next48h.
    rewrite Hdue. repeat split.
  - intros task. unfold dueOf.
    destruct (complete_till_at task) as [seconds |]; [| tauto].
    destruct (seconds =? 0) eqn:E.
    + apply Z.eqb_eq in E. subst. tauto.
    + apply Z.eqb_neq in E. split; [discriminate |].
      intros [H | H]; [discriminate | congruence].
  - intros task seconds Hs Hne. unfold dueOf. rewrite Hs.
    apply Z.eqb_neq in Hne. now rewrite Hne.
Qed.

(** The examples of the spec at 2024-01-10 09:00 UTC on a UTC host: due
    10 hours ago, later today, in 30 hours, and without a due date. *)
Lemma task_bucketer_witness :
  bucketTasks 0 example_now
    [task_due (1704877200 - 36000); task_due (1704877200 + 3600);
     task_due (1704877200 + 30 * 3600); blank] =
  mkBuckets 1 1 1
  /\ (is_overdue example_now (task_due (1704877200 - 36000)) = true <->
      (1704877200 - 36000) * 1000 < example_now).
Proof.
  split; [vm_compute; reflexivity |].
  apply (proj1 (proj2 (task_bucketer 0 example_now []))
           (task_due (1704877200 - 36000)) ((1704877200 - 36000) * 1000)).
  reflexivity.
Defined.

(** C8 as stated fails for a task due in 72 hours: it has a due
    timestamp, and it is counted in no bucket. *)
Lemma task_beyond_48h_in_no_bucket :
  let task := task_due (1704877200 + 72 * 3600) in
  dueOf task = Some (example_now + 72 * 3600 * 1000)
  /\ bucketTasks 0 example_now [task] = mkBuckets 0 0 0
  /\ is_overdue example_now task = false
  /\ is_today 0 example_now task = false
  /\ is_next48h 0 example_now task = false.
Proof.
  cbv zeta. repeat split; vm_compute; reflexivity.
Qed.

(* ================================================================== *)
(** * Day keys and the host timezone *)
(* ================================================================== *)

(** C6.  The keys of the series and the keys of the records are UTC
    dates, not calendar dates of the host's timezone.  On a host three
    hours east of UTC, at 2024-01-10 12:00 local time, for a lead created
    two minutes earlier and the range 'today': the
    local date of [now], of the start of the range and of the lead is
    2024-01-10, yet the only key of the series is "2024-01-09" and the
    lead, whose key is "2024-01-10", is dropped.  On a host three hours
    west of UTC, at 2024-01-10 23:00 local time, the key is the local
    date "2024-01-10", but a lead created at 22:00 local time has the key
    "2024-01-11" and is dropped. *)
Theorem timeseries_keys_are_utc_dates :
  let q := mkQuery (Some "leads_created") (Some "today") None None None None in
  let east := 3 * 3600 * 1000 in
  let west := - (3 * 3600 * 1000) in
  let noon_east := 1704877200000 in
  let late_west := 1704938400000 in
  (* east of UTC *)
  (JSDate.getFullYear east noon_east, JSDate.getMonth east noon_east,
   JSDate.getDate east noon_east) = (2024, 0, 10)
  /\ (JSDate.getFullYear east ((1704877200 - 120) * 1000),
      JSDate.getMonth east ((1704877200 - 120) * 1000),
      JSDate.getDate east ((1704877200 - 120) * 1000)) = (2024, 0, 10)
  /\ fst (fst (timeseries_handler east example_parse q []
                 (mkWorld noon_east
                    [page_reply (mkPage 5 false [lead_created (1704877200 - 120)])]
                    []))) =
     Some (mkResponse 200 (Json (PSeries [mkPoint "2024-01-09" 0])))
  (* west of UTC *)
  /\ (JSDate.getFullYear west late_west, JSDate.getMonth west late_west,
      JSDate.getDate west late_west) = (2024, 0, 10)
  /\ (JSDate.getFullYear west ((1704938400 - 3600) * 1000),
      JSDate.getMonth west ((1704938400 - 3600) * 1000),
      JSDate.getDate west ((1704938400 - 3600) * 1000)) = (2024, 0, 10)
  /\ fst (fst (timeseries_handler west example_parse q []
                 (mkWorld late_west
                    [page_reply (mkPage 5 false [lead_created (1704938400 - 3600)])]
                    []))) =
     Some (mkResponse 200 (Json (PSeries [mkPoint "2024-01-10" 0])))
  (* on a UTC host the same lead is counted under its date *)
  /\ fst (fst (timeseries_handler 0 example_parse q []
                 (mkWorld noon_east
                    [page_reply (mkPage 5 false [lead_created (1704877200 - 120)])]
                    []))) =
     Some (mkResponse 200 (Json (PSeries [mkPoint "2024-01-10" 1]))).
Proof.
  cbv zeta. repeat split; vm_compute; reflexivity.
Qed.

(* ================================================================== *)
(** * Further properties of the fetcher *)
(* ================================================================== *)

Section FetcherFacts.

Variable path : string.
Variable params : list (string * qval).

(** The value of a fetch depends neither on the clock, nor on the trace so
    far, nor on the failures that are retried. *)
Lemma kommoLoop_value (script : list scripted) :
  forall page_no results clk tr clk' tr',
    fst (kommoLoop path params page_no results script clk tr) =
    fst (kommoLoop path params page_no results
                   (filter (fun r => negb (retried_failure r)) script) clk' tr').
Proof.
  induction script as [| [lat ans] script IH]; intros page_no results clk tr clk' tr'.
  - reflexivity.
  - destruct ans as [d | err].
    + cbn [filter retried_failure answer negb kommoLoop latency].
      destruct d as [items | items | r];
        try (destruct (Z.of_nat (List.length items) <? limit);
             [reflexivity | apply IH]).
      reflexivity.
    + cbn [filter retried_failure answer]. rewrite kommoLoop_failure.
      destruct (retryable err) eqn:E; cbn [negb].
      * apply IH.
      * rewrite kommoLoop_failure, E. reflexivity.
Qed.

(** While the pages have 250 items or more the loop goes on, whatever
    their length, with the next page number. *)
Lemma kommoLoop_long_pages (pages : list page) :
  Forall (fun p => (250 <= List.length (page_items p))%nat) pages ->
  forall page_no results rest clk tr,
    kommoLoop path params page_no results (map page_reply pages ++ rest) clk tr =
    kommoLoop path params (page_no + Z.of_nat (List.length pages))
              (results ++ List.concat (map page_items pages)) rest
              (clk + total (map page_latency pages))
              (tr ++ page_requests path params page_no (List.length pages)).
Proof.
  induction 1 as [| p pages Hp _ IH]; intros page_no results rest clk tr.
  - cbn. now rewrite Z.add_0_r, !app_nil_r, Z.add_0_r.
  - cbn [map app]. rewrite kommoLoop_page.
    replace (Z.of_nat (List.length (page_items p)) <? limit) with false
      by (symmetry; apply Z.ltb_ge; unfold limit; lia).
    rewrite IH. cbn [List.concat List.length total map fold_right].
    unfold page_requests. cbn [seq map].
    rewrite <- seq_shift, map_map, <- !app_assoc. cbn [app].
    rewrite Z.add_0_r.
    f_equal; [lia | fold (total (map page_latency pages)); lia |].
    do 2 f_equal. apply map_ext. intros i. f_equal. lia.
Qed.

(** What one run of the loop does to the world: it consumes a prefix of
    the scripted replies, appends requests and sleeps to the trace, and
    advances the clock by the latencies and the sleeps. *)
Lemma kommoLoop_accounting (script : list scripted) :
  forall page_no results clk tr,
    let r := kommoLoop path params page_no results script clk tr in
    exists consumed evs,
      script = consumed ++ upstream (snd r)
      /\ trace (snd r) = tr ++ evs
      /\ Forall (fetch_event path params page_no) evs
      /\ List.length (filter is_get evs) =
         (List.length consumed
          + match fst r with Pending => 1 | _ => 0 end)%nat
      /\ List.length (filter is_sleep evs) =
         List.length (filter retried_failure consumed)
      /\ clock (snd r) =
         clk + total (map latency consumed)
         + 1000 * Z.of_nat (List.length (filter is_sleep evs)).
Proof.
  induction script as [| [lat ans] script IH]; intros page_no results clk tr.
  - exists [], [Get path params limit page_no]. cbn.
    repeat split; try lia.
    repeat constructor. exists page_no. split; [lia | reflexivity].
  - assert (Hget : fetch_event path params page_no (Get path params limit page_no))
      by (left; exists page_no; split; [lia | reflexivity]).
    assert (Hstop : forall (v : completion fetched),
               v <> Pending ->
               retried_failure (mkScripted lat ans) = false ->
               exists consumed evs,
                 mkScripted lat ans :: script =
                   consumed ++ upstream (mkWorld (clk + lat) script
                                           (tr ++ [Get path params limit page_no]))
                 /\ trace (mkWorld (clk + lat) script
                             (tr ++ [Get path params limit page_no])) = tr ++ evs
                 /\ Forall (fetch_event path params page_no) evs
                 /\ List.length (filter is_get evs) =
                    (List.length consumed
                     + match v with Pending => 1 | _ => 0 end)%nat
                 /\ List.length (filter is_sleep evs) =
                    List.length (filter retried_failure consumed)
                 /\ clock (mkWorld (clk + lat) script
                             (tr ++ [Get path params limit page_no])) =
                    clk + total (map latency consumed)
                    + 1000 * Z.of_nat (List.length (filter is_sleep evs))).
    { intros v Hv Hnot.
      exists [mkScripted lat ans], [Get path params limit page_no].
      cbn [app upstream trace clock filter is_get is_sleep List.length map latency
               total fold_right].
      rewrite Hnot. cbn [List.length].
      split; [reflexivity |]. split; [reflexivity |].
      split; [constructor; [exact Hget | constructor] |].
      split; [destruct v; [reflexivity | reflexivity | congruence] |].
      split; [reflexivity | lia]. }
    destruct ans as [d | err].
    + cbn zeta. cbn [kommoLoop latency answer].
      assert (Hpage : forall items,
                 exists consumed evs,
                   mkScripted lat (Ok d) :: script =
                     consumed ++ upstream
                       (snd (kommoLoop path params (page_no + 1) (results ++ items)
                               script (clk + lat)
                               (tr ++ [Get path params limit page_no])))
                   /\ trace (snd (kommoLoop path params (page_no + 1)
                                    (results ++ items) script (clk + lat)
                                    (tr ++ [Get path params limit page_no])))
                      = tr ++ evs
                   /\ Forall (fetch_event path params page_no) evs
                   /\ List.length (filter is_get evs) =
                      (List.length consumed
                       + match fst (kommoLoop path params (page_no + 1)
                                      (results ++ items) script (clk + lat)
                                      (tr ++ [Get path params limit page_no]))
                         with Pending => 1 | _ => 0 end)%nat
                   /\ List.length (filter is_sleep evs) =
                      List.length (filter retried_failure consumed)
                   /\ clock (snd (kommoLoop path params (page_no + 1)
                                    (results ++ items) script (clk + lat)
                                    (tr ++ [Get path params limit page_no])))
                      = clk + total (map latency consumed)
                        + 1000 * Z.of_nat (List.length (filter is_sleep evs))).
      { intros items.
        destruct (IH (page_no + 1) (results ++ items) (clk + lat)
                     (tr ++ [Get path params limit page_no]))
          as (consumed & evs & Hc & Ht & Hev & Hg & Hs & Hk).
        exists (mkScripted lat (Ok d) :: consumed),
               (Get path params limit page_no :: evs).
        cbn [app filter is_get is_sleep retried_failure answer List.length map
                 latency total fold_right].
        split; [now rewrite <- Hc |].
        split; [now rewrite Ht, <- app_assoc |].
        split; [constructor; [exact Hget |];
                eapply Forall_impl; [| exact Hev];
                intros ev [(pg & Hpg & ->) | ->];
                [left; exists pg; split; [lia | reflexivity] | now right] |].
        split; [rewrite Hg; lia |].
        split; [exact Hs |].
        rewrite Hk. fold (total (map latency consumed)). lia. }
      destruct d as [items | items | r];
        try (destruct (Z.of_nat (List.length items) <? limit);
             [apply (Hstop (Return (Items (results ++ items))));
              [discriminate | reflexivity]
             | apply Hpage]).
      apply (Hstop (Return (Raw r))); [discriminate | reflexivity].
    + cbn zeta. rewrite kommoLoop_failure.
      destruct (retryable err) eqn:E.
      * destruct (IH page_no results (clk + lat + 1000)
                     (tr ++ [Get path params limit page_no] ++ [Sleep 1000]))
          as (consumed & evs & Hc & Ht & Hev & Hg & Hs & Hk).
        exists (mkScripted lat (Fail err) :: consumed),
               (Get path params limit page_no :: Sleep 1000 :: evs).
        split; [cbn [app]; f_equal; exact Hc |].
        split; [etransitivity; [exact Ht |]; now rewrite <- !app_assoc |].
        split; [constructor; [exact Hget |]; constructor; [now right | exact Hev] |].
        split; [cbn [filter is_get List.length]; rewrite Hg; lia |].
        split; [cbn [filter is_sleep retried_failure answer]; rewrite E;
                cbn [List.length]; now rewrite Hs |].
        rewrite Hk.
        cbn [filter is_sleep List.length map latency total fold_right].
        fold (total (map latency consumed)). lia.
      * apply (Hstop (Throw err)); [discriminate | exact E].
Qed.

End FetcherFacts.

(** X1.  Accounting of one [kommoRequest]: it consumes a prefix of the
    replies the upstream has ready and leaves the rest; it only appends to
    the trace, and what it appends are requests for the same path and
    parameters with limit 250 and a page number from 1 on, and sleeps of
    1000 ms; there is one request per consumed reply (one more when the
    fetch is left waiting), one sleep per retried failure, and the clock
    advances by the latencies of the consumed replies plus one second per
    sleep. *)
Theorem fetch_accounting (path : string) (params : list (string * qval))
        (w : World) :
  let r := kommoRequest path params w in
  exists consumed evs,
    upstream w = consumed ++ upstream (snd r)
    /\ trace (snd r) = trace w ++ evs
    /\ Forall (fetch_event path params 1) evs
    /\ List.length (filter is_get evs) =
       (List.length consumed + match fst r with Pending => 1 | _ => 0 end)%nat
    /\ List.length (filter is_sleep evs) =
       List.length (filter retried_failure consumed)
    /\ clock (snd r) =
       clock w + total (map latency consumed)
       + 1000 * Z.of_nat (List.length (filter is_sleep evs)).
Proof.
  unfold kommoRequest.
  exact (kommoLoop_accounting path params (upstream w) 1 [] (clock w) (trace w)).
Qed.

(** X2.  What [kommoRequest] returns or throws does not depend on the
    failures with status 429 or >= 500 among the replies, nor on the clock
    or the trace: it is what the fetch gives on the same replies with those
    failures left out. *)
Theorem fetch_ignores_retried_failures
        (path : string) (params : list (string * qval)) (w : World)
        (clk : Z) (tr : list event) :
  fst (kommoRequest path params w) =
  fst (kommoRequest path params
         (mkWorld clk (filter (fun r => negb (retried_failure r)) (upstream w)) tr)).
Proof.
  unfold kommoRequest. cbn [upstream clock trace]. apply kommoLoop_value.
Qed.

(** X3.  A reply that is neither an array nor an envelope ends the fetch
    at once and is returned as it is: the items of the pages fetched before
    it are discarded. *)
Theorem fetch_non_list_reply_discards_pages
        (path : string) (params : list (string * qval))
        (pages : list page) (lat : Z) (d : raw) (rest : list scripted)
        (clk : Z) (tr : list event) :
  Forall (fun p => (250 <= List.length (page_items p))%nat) pages ->
  kommoRequest path params
    (mkWorld clk (map page_reply pages ++ mkScripted lat (Ok (Other d)) :: rest) tr) =
  (Return (Raw d),
   mkWorld (clk + total (map page_latency pages) + lat) rest
           (tr ++ page_requests path params 1 (List.length pages)
               ++ [Get path params limit (1 + Z.of_nat (List.length pages))])).
Proof.
  intros Hpages. unfold kommoRequest. cbn [upstream clock trace].
  rewrite (kommoLoop_long_pages path params pages Hpages).
  cbn [kommoLoop latency answer]. now rewrite <- app_assoc.
Qed.

Lemma fetch_non_list_reply_discards_pages_witness :
  kommoRequest "/leads/pipelines" []
    (mkWorld 0 (map page_reply [mkPage 5 false (repeat blank 250)]
                ++ [mkScripted 7 (Ok (Other (RValue "{}")))]) []) =
  (Return (Raw (RValue "{}")),
   mkWorld 12 []
     [Get "/leads/pipelines" [] 250 1; Get "/leads/pipelines" [] 250 2]).
Proof.
  apply (fetch_non_list_reply_discards_pages "/leads/pipelines" []
           [mkPage 5 false (repeat blank 250)] 7 (RValue "{}") [] 0 []).
  repeat constructor.
Defined.

(** X4.  Pagination has no bound of its own: as long as every reply is a
    page of 250 items or more, the fetch asks for the next page, and after
    [n] such pages it is waiting for page [n + 1]. *)
Theorem fetch_never_stops_on_full_pages
        (path : string) (params : list (string * qval))
        (pages : list page) (clk : Z) (tr : list event) :
  Forall (fun p => (250 <= List.length (page_items p))%nat) pages ->
  kommoRequest path params (mkWorld clk (map page_reply pages) tr) =
  (Pending,
   mkWorld (clk + total (map page_latency pages)) []
           (tr ++ page_requests path params 1 (List.length pages)
               ++ [Get path params limit (1 + Z.of_nat (List.length pages))])).
Proof.
  intros Hpages. unfold kommoRequest. cbn [upstream clock trace].
  rewrite <- (app_nil_r (map page_reply pages)).
  rewrite (kommoLoop_long_pages path params pages Hpages).
  cbn [kommoLoop]. now rewrite <- app_assoc.
Qed.

Lemma fetch_never_stops_on_full_pages_witness :
  kommoRequest "/leads" []
    (mkWorld 0 (map page_reply [mkPage 5 false (repeat blank 250);
                                mkPage 5 true (repeat blank 251)]) []) =
  (Pending,
   mkWorld 10 []
     [Get "/leads" [] 250 1; Get "/leads" [] 250 2; Get "/leads" [] 250 3]).
Proof.
  apply (fetch_never_stops_on_full_pages "/leads" []
           [mkPage 5 false (repeat blank 250); mkPage 5 true (repeat blank 251)]
           0 []).
  repeat constructor.
Defined.

(* ================================================================== *)
(** * Further properties of the range resolver *)
(* ================================================================== *)

(** X5.  The four preset windows, whatever [from] and [to] are: 'today'
    and 'yesterday' are each 86400000 ms long and yesterday ends where
    today starts; '7d' and '30d' end at [now] and are 7 and 30 times
    86400000 ms long. *)
Theorem preset_windows (tz : Z) (Date_parse : string -> option Z) (now : Z)
        (from to : option string) :
  (exists s, parseRange tz Date_parse now (Some "today") from to =
             mkRange (Some s) (Some (s + 86400000))
             /\ parseRange tz Date_parse now (Some "yesterday") from to =
                mkRange (Some (s - 86400000)) (Some s))
  /\ parseRange tz Date_parse now (Some "7d") from to =
     mkRange (Some (now - 7 * 86400000)) (Some now)
  /\ parseRange tz Date_parse now (Some "30d") from to =
     mkRange (Some (now - 30 * 86400000)) (Some now).
Proof.
  split; [| split; reflexivity].
  exists (local_midnight tz now 0). unfold parseRange.
  cbn [eqs String.eqb Ascii.eqb Bool.eqb].
  pose proof (local_midnight_next tz now 0) as Hnext.
  pose proof (local_midnight_next tz now (-1)) as Hprev.
  cbn [Z.add Z.opp Z.pos_sub] in Hnext, Hprev.
  unfold JSDate.msPerDay in Hnext, Hprev.
  split; do 2 f_equal; lia.
Qed.

(** X6.  The custom token needs both bounds: when [from] or [to] is
    missing or empty the resolver gives the today window, whatever the
    other bound is. *)
Theorem custom_needs_both_bounds (tz : Z) (Date_parse : string -> option Z)
        (now : Z) (from to : option string) :
  truthy from = false \/ truthy to = false ->
  parseRange tz Date_parse now (Some "custom") from to = today_range tz now.
Proof.
  intros H. unfold parseRange. cbn [eqs String.eqb Ascii.eqb Bool.eqb andb].
  destruct H as [H | H]; rewrite H; [| rewrite andb_false_r]; reflexivity.
Qed.

Lemma custom_needs_both_bounds_witness :
  parseRange 0 example_parse example_now (Some "custom") (Some "2024-02-01") None =
  today_range 0 example_now.
Proof.
  apply (custom_needs_both_bounds 0 example_parse example_now
                                  (Some "2024-02-01") None).
  right. reflexivity.
Defined.

(** X7.  [toUnix] takes the whole seconds of a time value, rounding down
    before the epoch as after it, so a timestamp in seconds survives the
    way through [new Date(seconds * 1000)]; and the created-at filter of
    the 7-day and 30-day windows spans exactly 604800 and 2592000
    seconds. *)
Theorem toUnix_seconds (seconds ms : Z) :
  0 <= ms < 1000 ->
  toUnix (Some (seconds * 1000 + ms)) = QNum (Some seconds)
  /\ toUnix (Some (seconds * 1000)) = QNum (Some seconds)
  /\ toUnix None = QNum None
  /\ (forall now,
         toUnix (Some (now - 7 * 24 * 60 * 60 * 1000)) =
           QNum (Some (now / 1000 - 604800))
         /\ toUnix (Some (now - 30 * 24 * 60 * 60 * 1000)) =
            QNum (Some (now / 1000 - 2592000))).
Proof.
  intros Hms. unfold toUnix. cbn [option_map].
  split; [| split; [| split; [reflexivity |]]].
  - do 2 f_equal. rewrite Z.add_comm, Z.div_add by lia.
    rewrite Z.div_small by lia. reflexivity.
  - do 2 f_equal. apply Z.div_mul. lia.
  - intros now. split; do 2 f_equal.
    + replace (now - 7 * 24 * 60 * 60 * 1000) with (now + (-604800) * 1000) by lia.
      rewrite Z.div_add by lia. lia.
    + replace (now - 30 * 24 * 60 * 60 * 1000) with (now + (-2592000) * 1000) by lia.
      rewrite Z.div_add by lia. lia.
Qed.

Lemma toUnix_seconds_witness :
  toUnix (Some (-2 * 1000 + 999)) = QNum (Some (-2)).
Proof.
  apply (toUnix_seconds (-2) 999). lia.
Defined.

(* ================================================================== *)
(** * Further properties of the cache-aside helper and the handlers *)
(* ================================================================== *)

Section GetCachedFacts.

Variable V : Type.
Variable undefined : V.

(** A call that does not return a value ran [fetchFn], which ended the
    same way, and the cache is as before. *)
Lemma getCached_failure (key : string) (fetchFn : M V) (c c' : LRU.cache V)
      (w w' : World) (r : completion V) :
  getCached undefined key fetchFn c w = (r, c', w') ->
  (forall v, r <> Return v) ->
  LRU.has c key (clock w) = false /\ fetchFn w = (r, w') /\ c' = c.
Proof.
  intros H Hr. destruct (LRU.has c key (clock w)) eqn:Hhas.
  - destruct (getCached_hit V undefined key fetchFn c w Hhas) as (e & _ & Heq).
    rewrite Heq in H. injection H as <- _ _. exfalso. now apply (Hr (LRU.value e)).
  - rewrite (getCached_miss V undefined key fetchFn c w Hhas) in H.
    destruct (fetchFn w) as [[v | e |] w0]; injection H as <- <- <-.
    + exfalso. now apply (Hr v).
    + repeat split.
    + repeat split.
Qed.

End GetCachedFacts.

(** X8.  [getCached] has no failure of its own and hides none: when it
    throws, the cache held no live entry for the key, the compute function
    was run and threw that very error, and the cache is left exactly as it
    was; the same holds when it is left waiting. *)
Theorem getCached_propagates_failure (V : Type) (undefined : V) (key : string)
        (fetchFn : M V) (c c' : LRU.cache V) (w w' : World) :
  (forall e,
      getCached undefined key fetchFn c w = (Throw e, c', w') ->
      LRU.has c key (clock w) = false /\ fetchFn w = (Throw e, w') /\ c' = c)
  /\ (getCached undefined key fetchFn c w = (Pending, c', w') ->
      LRU.has c key (clock w) = false /\ fetchFn w = (Pending, w') /\ c' = c).
Proof.
  split.
  - intros e H. apply (getCached_failure V undefined key fetchFn c c' w w' _ H).
    discriminate.
  - intros H. apply (getCached_failure V undefined key fetchFn c c' w w' _ H).
    discriminate.
Qed.

Lemma getCached_propagates_failure_witness :
  LRU.has ([] : LRU.cache payload) "users" 0 = false
  /\ fetchUsers (mkWorld 0 [http_failure (5, 404)] []) =
     (Throw (HttpError 404), mkWorld 5 [] [Get "/users" [] 250 1])
  /\ ([] : LRU.cache payload) = [].
Proof.
  apply (proj1 (getCached_propagates_failure payload PUndefined "users" fetchUsers
                  [] [] (mkWorld 0 [http_failure (5, 404)] [])
                  (mkWorld 5 [] [Get "/users" [] 250 1]))
               (HttpError 404)).
  reflexivity.
Defined.

(** What a handler built from [getCached] and [respond] can answer. *)
Lemma respond_cases (failure key : string) (fetchFn : M payload)
      (c c' : LRU.cache payload) (w w' : World) (answer : option response) :
  respond failure (getCached PUndefined key fetchFn c w) = (answer, c', w') ->
  match answer with
  | Some resp =>
      (status resp = 200 /\ exists p, sent resp = Json p)
      \/ (resp = mkResponse 500 (Error failure) /\ c' = c
          /\ exists e, fetchFn w = (Throw e, w'))
  | None => c' = c /\ fetchFn w = (Pending, w')
  end.
Proof.
  destruct (getCached PUndefined key fetchFn c w) as [[r c0] w0] eqn:H.
  destruct r as [p | e |]; cbn [respond]; intros [= <- <- <-].
  - left. split; [reflexivity | eexists; reflexivity].
  - right. destruct (getCached_failure payload PUndefined key fetchFn c c0 w w0 _ H)
      as (_ & Hf & Hc); [discriminate |].
    repeat split; [exact Hc | exists e; exact Hf].
  - destruct (getCached_failure payload PUndefined key fetchFn c c0 w w0 _ H)
      as (_ & Hf & Hc); [discriminate |].
    split; assumption.
Qed.

(** The message a route sends with status 500. *)
Definition failure_message (route : string) : string :=
  if String.eqb route "/api/pipelines" then "Failed to fetch pipelines"
  else if String.eqb route "/api/users" then "Failed to fetch users"
  else if String.eqb route "/api/metrics" then "Failed to fetch metrics"
  else if String.eqb route "/api/funnels" then "Failed to fetch funnel data"
  else if String.eqb route "/api/timeseries" then "Failed to fetch timeseries data"
  else "Failed to fetch tasks".

(** The six data routes with their handlers. *)
Definition routes (tz : Z) (Date_parse : string -> option Z)
  : list (string * handler) :=
  [ ("/api/pipelines", pipelines_handler);
    ("/api/users", users_handler);
    ("/api/metrics", metrics_handler tz Date_parse);
    ("/api/funnels", funnels_handler tz Date_parse);
    ("/api/timeseries", timeseries_handler tz Date_parse);
    ("/api/tasks", tasks_handler tz) ].

(** X9.  What the six data handlers answer.  An answer has status 200
    and a JSON payload, or status 500 and the fixed message of its route
    (never the upstream error), or, on [/api/timeseries] only, status 400
    with 'metric is required'.  With 500 and with 400 the cache is left
    exactly as it was: a failure is never cached. *)
Theorem handler_answers (tz : Z) (Date_parse : string -> option Z)
        (route : string) (h : handler) (q : query)
        (c c' : LRU.cache payload) (w w' : World) (resp : response) :
  In (route, h) (routes tz Date_parse) ->
  h q c w = (Some resp, c', w') ->
  (status resp = 200 /\ exists p, sent resp = Json p)
  \/ (resp = mkResponse 500 (Error (failure_message route)) /\ c' = c)
  \/ (route = "/api/timeseries"
      /\ resp = mkResponse 400 (Error "metric is required")
      /\ c' = c /\ w' = w).
Proof.
  intros Hin H. cbn [routes In] in Hin.
  assert (Hgeneric :
            forall failure key fetchFn,
              respond failure (getCached PUndefined key fetchFn c w) =
                (Some resp, c', w') ->
              (status resp = 200 /\ exists p, sent resp = Json p)
              \/ (resp = mkResponse 500 (Error failure) /\ c' = c)).
  { intros failure key fetchFn Hr.
    destruct (respond_cases failure key fetchFn c c' w w' (Some resp) Hr)
      as [H200 | (H500 & Hc & _)]; [left; exact H200 | right; split; assumption]. }
  destruct Hin as [E | [E | [E | [E | [E | [E | []]]]]]];
    injection E as <- <-; cbn [failure_message String.eqb Ascii.eqb Bool.eqb].
  - destruct (Hgeneric _ _ _ H) as [H1 | H1]; [now left | right; now left].
  - destruct (Hgeneric _ _ _ H) as [H1 | H1]; [now left | right; now left].
  - destruct (Hgeneric _ _ _ H) as [H1 | H1]; [now left | right; now left].
  - destruct (Hgeneric _ _ _ H) as [H1 | H1]; [now left | right; now left].
  - unfold timeseries_handler in H.
    destruct (negb (truthy (q_metric q))).
    + injection H as <- <- <-. right; right. repeat split.
    + destruct (Hgeneric _ _ _ H) as [H1 | H1]; [now left | right; now left].
  - destruct (Hgeneric _ _ _ H) as [H1 | H1]; [now left | right; now left].
Qed.

Lemma handler_answers_witness :
  (status (mkResponse 500 (Error "Failed to fetch users")) = 200
   /\ exists p, sent (mkResponse 500 (Error "Failed to fetch users")) = Json p)
  \/ (mkResponse 500 (Error "Failed to fetch users") =
      mkResponse 500 (Error (failure_message "/api/users"))
      /\ ([] : LRU.cache payload) = [])
  \/ ("/api/users" = "/api/timeseries"
      /\ mkResponse 500 (Error "Failed to fetch users") =
         mkResponse 400 (Error "metric is required")
      /\ ([] : LRU.cache payload) = []
      /\ mkWorld 5 [] [Get "/users" [] 250 1] =
         mkWorld 0 [http_failure (5, 404)] []).
Proof.
  apply (handler_answers 0 example_parse "/api/users" users_handler
           (mkQuery None None None None None None) [] []
           (mkWorld 0 [http_failure (5, 404)] [])
           (mkWorld 5 [] [Get "/users" [] 250 1])
           (mkResponse 500 (Error "Failed to fetch users"))).
  - right. left. reflexivity.
  - reflexivity.
Defined.

Section RepeatFacts.

Variable V : Type.

Lemma filter_all (f : LRU.entry V -> bool) (l : list (LRU.entry V)) :
  (forall x, In x l -> f x = true) -> filter f l = l.
Proof.
  induction l as [| x l IH]; cbn [filter]; [reflexivity |].
  intros H. rewrite (H x (or_introl eq_refl)). f_equal.
  apply IH. intros y Hy. apply H. now right.
Qed.

Lemma In_removelast_In (x : LRU.entry V) (l : list (LRU.entry V)) :
  In x (removelast l) -> In x l.
Proof.
  induction l as [| y l IH]; cbn [removelast]; [intros [] |].
  destruct l as [| z l]; [intros [] |].
  intros [-> | H]; [now left | right; now apply IH].
Qed.

(** Reading the entry that [set] has just stored leaves the cache as it is. *)
Lemma get_after_set (c : LRU.cache V) (k : string) (v : V) (t now : Z) :
  now - t < CACHE_TTL ->
  LRU.get (LRU.set c k v t) k now = (Some v, LRU.set c k v t).
Proof.
  intros Hlive. unfold LRU.get. rewrite find_set.
  replace (LRU.live (LRU.mkEntry k v t) now) with true
    by (symmetry; apply live_window; exact Hlive).
  cbn [LRU.value]. f_equal. unfold LRU.set.
  cbn [LRU.remove filter LRU.key]. rewrite String.eqb_refl. cbn [negb].
  f_equal. apply filter_all. intros x Hx.
  assert (Hin : In x (LRU.remove c k)).
  { destruct (LRU.max <=? List.length (LRU.remove c k))%nat;
      [now apply In_removelast_In | exact Hx]. }
  unfold LRU.remove in Hin. apply filter_In in Hin. apply Hin.
Qed.

End RepeatFacts.

(** A handler that has just computed and sent a payload sends the same
    answer for the next 60 seconds, whatever its compute function would
    do, and touches neither the cache nor the world. *)
Lemma respond_repeat (failure key : string) (fetchFn g : M payload)
      (c c1 : LRU.cache payload) (w w1 w2 : World) (resp : response) :
  LRU.has c key (clock w) = false ->
  respond failure (getCached PUndefined key fetchFn c w) = (Some resp, c1, w1) ->
  status resp = 200 ->
  clock w1 <= clock w2 < clock w1 + CACHE_TTL ->
  respond failure (getCached PUndefined key g c1 w2) = (Some resp, c1, w2).
Proof.
  intros Hmiss H Hstatus Hwin.
  rewrite (getCached_miss payload PUndefined key fetchFn c w Hmiss) in H.
  destruct (fetchFn w) as [[p | e |] w0]; cbn [respond] in H;
    [| injection H as <- _ _; discriminate Hstatus | discriminate H].
  injection H as <- <- <-. unfold getCached.
  assert (Hhas : LRU.has (LRU.set c key p (clock w0)) key (clock w2) = true).
  { unfold LRU.has. rewrite find_set. apply live_window. cbn [LRU.storedAt]. lia. }
  rewrite Hhas, get_after_set by lia. reflexivity.
Qed.

(** The cache key of a route for a query. *)
Definition cache_key (route : string) (q : query) : string :=
  if String.eqb route "/api/pipelines" then "pipelines"
  else if String.eqb route "/api/users" then "users"
  else if String.eqb route "/api/metrics" then metrics_key q
  else if String.eqb route "/api/funnels" then funnels_key q
  else if String.eqb route "/api/timeseries" then timeseries_key q
  else tasks_key q.



(* ================================================================== *)
(** * Further properties of the aggregators *)
(* ================================================================== *)

Lemma len_nonneg (l : list item) : 0 <= len l.
Proof. unfold len. lia. Qed.

Lemma len_filter_le (p : item -> bool) (l : list item) : len (filter p l) <= len l.
Proof.
  unfold len. pose proof (filter_length_le p l). lia.
Qed.

Lemma len_filter_exclusive (p q : item -> bool) (l : list item) :
  (forall x, p x = true -> q x = false) ->
  len (filter p l) + len (filter q l) <= len l.
Proof.
  intros Hpq. induction l as [| x l IH]; [cbn; lia |].
  rewrite !len_filter_cons. unfold len in *. cbn [List.length].
  destruct (p x) eqn:Hp; [rewrite (Hpq x Hp) |]; destruct (q x); lia.
Qed.

(** X11.  Bounds the summary metrics keep: no count is negative, won and
    lost together are at most the closed leads, the active leads at most
    the created ones, and the conversion rate is never negative; with no
    negative price, revenue and average ticket are not negative either. *)
Theorem metrics_bounds (createdLeads closedLeads : list item) :
  let m := metricsOf createdLeads closedLeads in
  0 <= leads_created m /\ 0 <= leads_won m /\ 0 <= leads_lost m
  /\ 0 <= active_leads m
  /\ leads_won m + leads_lost m <= len closedLeads
  /\ active_leads m <= leads_created m
  /\ nonneg (conversion_rate m)
  /\ (Forall (fun l => 0 <= or0 (price l)) closedLeads ->
      nonneg (revenue_won m) /\ nonneg (avg_ticket m)).
Proof.
  intros m. unfold m, metricsOf.
  cbn [leads_created leads_won leads_lost active_leads conversion_rate
       revenue_won avg_ticket].
  set (won := filter (fun l => is_ 142 (status_id l)) closedLeads).
  assert (Hzero : nonneg (Binary64.num 0)) by apply Qle_refl.
  repeat (split; [apply len_nonneg |]).
  split; [| split; [apply len_filter_le | split]].
  - apply len_filter_exclusive. intros x H. unfold is_ in *.
    destruct (status_id x) as [v |]; [| reflexivity].
    apply Z.eqb_eq in H. subst v. reflexivity.
  - apply toFixed_nonneg.
    destruct (len createdLeads >? 0) eqn:E; [| exact Hzero].
    apply Z.gtb_lt in E. apply mul_nonneg; [| lia].
    apply div_nonneg; [| exact E].
    cbn [nonneg Binary64.num]. change 0%Q with (inject_Z 0).
    rewrite <- Zle_Qle. apply len_nonneg.
  - intros Hprices.
    assert (Hrev : nonneg (fold_left (fun sum l => Binary64.add sum (priceOf l))
                                     won (Binary64.num 0))).
    { assert (Hwon : Forall (fun l => 0 <= or0 (price l)) won).
      { apply Forall_forall. intros l Hl. unfold won in Hl.
        apply filter_In in Hl. rewrite Forall_forall in Hprices.
        apply Hprices, Hl. }
      revert Hzero. generalize (Binary64.num 0). clear -Hwon.
      induction Hwon as [| l won Hl _ IH]; intros acc Hacc; cbn [fold_left].
      - exact Hacc.
      - apply IH. apply add_nonneg; [exact Hacc |].
        unfold priceOf. apply round_nonneg.
        change 0%Q with (inject_Z 0). now rewrite <- Zle_Qle. }
    split; [exact Hrev |].
    apply toFixed_nonneg.
    destruct (len won >? 0) eqn:E; [| exact Hzero].
    apply Z.gtb_lt in E. now apply div_nonneg.
Qed.

Lemma metrics_bounds_witness :
  nonneg (revenue_won (metricsOf example_leads example_leads))
  /\ nonneg (avg_ticket (metricsOf example_leads example_leads)).
Proof.
  apply (metrics_bounds example_leads example_leads).
  repeat constructor; discriminate.
Defined.

Lemma filter_perm (p : item -> bool) (l l' : list item) :
  Permutation l l' -> Permutation (filter p l) (filter p l').
Proof.
  induction 1 as [| x l l' _ IH | x y l | l l' l'' _ IH1 _ IH2]; cbn [filter].
  - constructor.
  - destruct (p x); [now constructor | exact IH].
  - destruct (p x), (p y); try reflexivity. apply perm_swap.
  - now transitivity (filter p l').
Qed.

Lemma total_perm (l l' : list Z) : Permutation l l' -> total l = total l'.
Proof.
  induction 1 as [| x l l' _ IH | x y l | l l' l'' _ IH1 _ IH2];
    cbn [total fold_right] in *; unfold total in *; lia.
Qed.

Lemma len_perm (l l' : list item) : Permutation l l' -> len l = len l'.
Proof. intros H. unfold len. now rewrite (Permutation_length H). Qed.

(** X12.  The summary metrics do not depend on the order in which the
    upstream lists the leads.  Permuting the created leads and the closed
    leads leaves the four counts and the conversion rate as they are; and
    while the sizes of the prices of the won leads add up to at most 2^53,
    so that the additions of the revenue are exact, it leaves every field
    as it is. *)
Theorem metrics_order_independent (created created' closed closed' : list item) :
  Permutation created created' -> Permutation closed closed' ->
  let m := metricsOf created closed in
  let m' := metricsOf created' closed' in
  leads_created m = leads_created m'
  /\ leads_won m = leads_won m'
  /\ leads_lost m = leads_lost m'
  /\ active_leads m = active_leads m'
  /\ conversion_rate m = conversion_rate m'
  /\ (total (map (fun l => Z.abs (or0 (price l)))
                 (filter (fun l => is_ 142 (status_id l)) closed)) <= 2 ^ 53 ->
      m = m').
Proof.
  intros Hc Hd m m'.
  pose proof (len_perm _ _ Hc) as Hcreated.
  pose proof (len_perm _ _ (filter_perm (fun l => is_ 142 (status_id l)) _ _ Hd))
    as Hwon.
  pose proof (len_perm _ _ (filter_perm (fun l => is_ 143 (status_id l)) _ _ Hd))
    as Hlost.
  pose proof (len_perm _ _ (filter_perm
                              (fun l => negb (is_ 142 (status_id l))
                                        && negb (is_ 143 (status_id l))) _ _ Hc))
    as Hactive.
  unfold m, m', metricsOf.
  cbn [leads_created leads_won leads_lost active_leads conversion_rate].
  rewrite Hcreated, Hwon, Hlost, Hactive.
  do 5 (split; [reflexivity |]).
  intros Hsafe.
  assert (Hsafe' : total (map (fun l => Z.abs (or0 (price l)))
                              (filter (fun l => is_ 142 (status_id l)) closed'))
                   <= 2 ^ 53).
  { rewrite <- (total_perm _ _
                  (Permutation_map (fun l => Z.abs (or0 (price l)))
                     (filter_perm (fun l => is_ 142 (status_id l)) _ _ Hd))).
    exact Hsafe. }
  rewrite !revenue_exact by (cbn [Z.abs]; lia).
  rewrite (total_perm _ _
             (Permutation_map (fun l => or0 (price l))
                (filter_perm (fun l => is_ 142 (status_id l)) _ _ Hd))).
  reflexivity.
Qed.

Lemma metrics_order_independent_witness :
  metricsOf example_leads example_leads =
  metricsOf (rev example_leads) (rev example_leads).
Proof.
  apply (metrics_order_independent example_leads (rev example_leads)
                                   example_leads (rev example_leads));
    [apply Permutation_rev | apply Permutation_rev | vm_compute; discriminate].
Defined.

(** Beyond 2^53 the additions round and their order shows: 2^53 + 1 + 1
    is 2^53 from the left, and 1 + 1 + 2^53 is 2^53 + 2. *)
Example revenue_depends_on_order_beyond_2_53 :
  let wonLead p := mkItem (Some 142) (Some p) None None None None in
  let leads := [wonLead (2 ^ 53); wonLead 1; wonLead 1] in
  revenue_won (metricsOf [] leads) = Binary64.num (2 ^ 53)
  /\ revenue_won (metricsOf [] (rev leads)) = Binary64.num (2 ^ 53 + 2).
Proof. cbv zeta. split; vm_compute; reflexivity. Qed.

Lemma filter_all_items (p : item -> bool) (l : list item) :
  (forall x, In x l -> p x = true) -> filter p l = l.
Proof.
  induction l as [| x l IH]; cbn [filter]; [reflexivity |].
  intros H. rewrite (H x (or_introl eq_refl)). f_equal.
  apply IH. intros y Hy. apply H. now right.
Qed.

Lemma key_order_perm (ks : list string) : Permutation (JSObject.key_order ks) ks.
Proof.
  unfold JSObject.key_order. rewrite sort_index_perm.
  induction ks as [| k ks IH]; cbn [filter]; [constructor |].
  destruct (JSObject.is_index k); cbn [negb app].
  - now constructor.
  - rewrite <- Permutation_middle. now constructor.
Qed.

Lemma total_indicator (x : string) (c : Z) (ks : list string) :
  NoDup ks ->
  total (map (fun k => if String.eqb x k then c else 0) ks) =
  if existsb (String.eqb x) ks then c else 0.
Proof.
  induction 1 as [| k ks Hk _ IH]; cbn [map total fold_right existsb]; [reflexivity |].
  fold (total (map (fun k => if String.eqb x k then c else 0) ks)). rewrite IH.
  destruct (String.eqb x k) eqn:E; cbn [orb]; [| lia].
  apply String.eqb_eq in E. subst k.
  destruct (existsb (String.eqb x) ks) eqn:Hex; [| lia].
  apply existsb_eqb_In in Hex. contradiction.
Qed.

Lemma total_map_add (A : Type) (f g : A -> Z) (l : list A) :
  total (map (fun x => f x + g x) l) = total (map f l) + total (map g l).
Proof.
  induction l as [| x l IH]; cbn [map total fold_right]; [reflexivity |].
  unfold total in *. lia.
Qed.

(** Summed over distinct names that cover the leads, the weights of the
    groups are the weights of the leads. *)
Lemma groups_partition (f : item -> Z) (ks : list string) (leads : list item) :
  NoDup ks ->
  (forall l, In l leads -> In (stageNameOf l) ks) ->
  total (map (fun k => total (map f (with_label k leads))) ks) =
  total (map f leads).
Proof.
  intros Hnd. induction leads as [| l leads IH]; intros Hcover.
  - cbn [with_label filter map]. clear. induction ks; cbn; [reflexivity | assumption].
  - transitivity
      (total (map (fun k => (if String.eqb (stageNameOf l) k then f l else 0)
                            + total (map f (with_label k leads))) ks)).
    + f_equal. apply map_ext. intros k. unfold with_label. cbn [filter].
      destruct (String.eqb (stageNameOf l) k); cbn [map total fold_right]; reflexivity.
    + rewrite total_map_add, (total_indicator _ _ _ Hnd), IH.
      * replace (existsb (String.eqb (stageNameOf l)) ks) with true; [reflexivity |].
        symmetry. apply existsb_eqb_In. apply Hcover. now left.
      * intros l' Hl'. apply Hcover. now right.
Qed.

Lemma len_total (l : list item) : len l = total (map (fun _ => 1) l).
Proof.
  unfold len. induction l as [| x l IH]; cbn [List.length map total fold_right];
    [reflexivity |].
  fold (total (map (fun _ : item => 1) l)). lia.
Qed.

(** X13.  The funnel loses and doubles nothing: over the leads whose
    stage name is not a name every object inherits, the counts of the
    stages add up to the number of leads and the value sums to the sum of
    their prices; no stage name occurs twice and every stage has at least
    one lead. *)
Theorem funnel_conserves (leads : list item) :
  let kept :=
    filter (fun l => negb (JSObject.inherited (stageNameOf l))) leads in
  total (map count (funnelOf leads)) = len kept
  /\ total (map value_sum (funnelOf leads)) =
     total (map (fun l => or0 (price l)) kept)
  /\ NoDup (map stage_name (funnelOf leads))
  /\ Forall (fun s => 1 <= count s) (funnelOf leads)
  /\ (Forall (fun l => JSObject.inherited (stageNameOf l) = false) leads ->
      kept = leads).
Proof.
  intros kept.
  assert (Hkept : Forall (fun l => JSObject.inherited (stageNameOf l) = false) kept).
  { apply Forall_forall. intros l Hl. unfold kept in Hl.
    apply filter_In in Hl. now apply negb_true_iff. }
  set (names := first_occurrences (map stageNameOf kept)).
  assert (Hfunnel : funnelOf leads = map (group kept) (JSObject.key_order names)).
  { rewrite funnel_skips_inherited. fold kept. unfold funnelOf.
    rewrite (funnel_fold kept Hkept). apply values_table. }
  assert (Hcover : forall l, In l kept -> In (stageNameOf l) names).
  { intros l Hl. apply first_occurrences_In, in_map, Hl. }
  assert (Hnd : NoDup names) by apply first_occurrences_NoDup.
  rewrite Hfunnel, !map_map.
  split; [| split; [| split; [| split]]].
  - rewrite (total_perm _ _ (Permutation_map _ (key_order_perm names))).
    cbn [group count]. rewrite len_total, <- (groups_partition _ names kept Hnd Hcover).
    f_equal. apply map_ext. intros k. apply len_total.
  - rewrite (total_perm _ _ (Permutation_map _ (key_order_perm names))).
    cbn [group value_sum]. apply (groups_partition _ names kept Hnd Hcover).
  - apply (NoDup_map_inv show). rewrite map_map.
    replace (map (fun k => show (stage_name (group kept k)))
                 (JSObject.key_order names))
      with (JSObject.key_order names).
    + apply (Permutation_NoDup (Permutation_sym (key_order_perm names)) Hnd).
    + rewrite <- (map_id (JSObject.key_order names)) at 1.
      apply map_ext_in. intros k Hk. apply key_order_In in Hk.
      unfold names in Hk. apply -> first_occurrences_In in Hk.
      pose proof (with_label_some kept k Hk) as Hsome.
      unfold group. cbn [stage_name].
      destruct (with_label k kept) as [| first rest] eqn:E;
        [now contradiction Hsome |].
      assert (Hfirst : In first (with_label k kept)) by (rewrite E; now left).
      unfold with_label in Hfirst. apply filter_In in Hfirst.
      destruct Hfirst as [_ Hfirst]. apply String.eqb_eq in Hfirst.
      symmetry. exact Hfirst.
  - apply Forall_forall. intros s Hs. apply in_map_iff in Hs.
    destruct Hs as (k & <- & Hk). apply key_order_In in Hk.
    apply first_occurrences_In, in_map_iff in Hk. destruct Hk as (l & Hl & Hin).
    cbn [group count]. unfold len, with_label.
    assert (Hmem : In l (filter (fun l0 => String.eqb (stageNameOf l0) k) kept))
      by (apply filter_In; split; [exact Hin | now apply String.eqb_eq]).
    destruct (filter (fun l0 => String.eqb (stageNameOf l0) k) kept);
      [destruct Hmem | cbn [List.length]; lia].
  - intros Hall. unfold kept. apply filter_all_items. intros l Hl.
    rewrite Forall_forall in Hall. now rewrite (Hall l Hl).
Qed.

Lemma funnel_conserves_witness :
  filter (fun l => negb (JSObject.inherited (stageNameOf l))) example_leads =
  example_leads.
Proof.
  apply (funnel_conserves example_leads). repeat constructor.
Defined.

(* ================================================================== *)
(** * Further properties of the time series *)
(* ================================================================== *)

Section SeriesFacts.

Variable V : Type.

Lemma own_keys (o : JSObject.obj V) (k : string) :
  In k (map fst o) <-> exists v, JSObject.own o k = Some v.
Proof.
  induction o as [| [k' v'] o IH]; cbn [map fst In JSObject.own].
  - split; [intros [] | intros [v H]; discriminate H].
  - destruct (String.eqb k k') eqn:E.
    + apply String.eqb_eq in E. subst. split; [eexists; reflexivity | now left].
    + rewrite IH. apply String.eqb_neq in E. split; [| now right].
      intros [H | H]; [congruence | exact H].
Qed.

(** Writing a key only adds it when it is new, then at the end. *)
Lemma put_keys (o : JSObject.obj V) (k : string) (v : V) :
  map fst (JSObject.put o k v) =
  match JSObject.own o k with
  | Some _ => map fst o
  | None => map fst o ++ [k]
  end.
Proof.
  induction o as [| [k' v'] o IH]; cbn [JSObject.put JSObject.own map fst app].
  - reflexivity.
  - destruct (String.eqb k k'); cbn [map fst]; [reflexivity |].
    rewrite IH. destruct (JSObject.own o k); reflexivity.
Qed.

Lemma put_keys_NoDup (o : JSObject.obj V) (k : string) (v : V) :
  NoDup (map fst o) -> NoDup (map fst (JSObject.put o k v)).
Proof.
  intros H. rewrite put_keys. destruct (JSObject.own o k) eqn:E; [exact H |].
  apply NoDup_app; [exact H | repeat constructor; intros [] |].
  intros x Hx [<- | []]. apply own_keys in Hx. destruct Hx as [v0 Hv0]. congruence.
Qed.

Lemma own_NoDup (o : JSObject.obj V) :
  NoDup (map fst o) ->
  map (JSObject.own o) (map fst o) = map (fun kv => Some (snd kv)) o.
Proof.
  induction o as [| [k v] o IH]; cbn [map fst snd]; [reflexivity |].
  intros H. apply NoDup_cons_iff in H. destruct H as [Hk Hnd].
  cbn [JSObject.own]. rewrite String.eqb_refl. f_equal.
  rewrite <- (IH Hnd). apply map_ext_in. intros k' Hk'.
  destruct (String.eqb k' k) eqn:E; [| reflexivity].
  apply String.eqb_eq in E. subst. contradiction.
Qed.

End SeriesFacts.

(** The dates sent are the keys of the series, in key order. *)
Lemma points_dates (o : JSObject.obj Z) : map date (points o) = JSObject.keys o.
Proof.
  unfold points.
  assert (H : forall ks, (forall k, In k ks -> In k (map fst o)) ->
                         map date
                           (flat_map (fun d => match JSObject.own o d with
                                               | Some v => [mkPoint d v]
                                               | None => []
                                               end) ks) = ks).
  { induction ks as [| k ks IH]; intros Hks; cbn [flat_map map]; [reflexivity |].
    destruct (proj1 (own_keys Z o k) (Hks k (or_introl eq_refl))) as [v Hv].
    rewrite Hv. cbn [app map date]. f_equal. apply IH.
    intros k' Hk'. apply Hks. now right. }
  apply H. intros k. unfold JSObject.keys. apply key_order_In.
Qed.

Lemma bump_keys (o : JSObject.obj Z) (k : string) (v : Z) :
  map fst (bump o k v) = map fst o.
Proof.
  unfold bump. destruct (JSObject.own o k) eqn:E; [| reflexivity].
  now rewrite put_keys, E.
Qed.

Lemma bucket_keys (stamp : item -> option Z) (amount : item -> Z)
      (leads : list item) :
  forall series series',
    bucket stamp amount leads series = Some series' ->
    map fst series' = map fst series.
Proof.
  induction leads as [| lead leads IH]; intros series series'; cbn [bucket].
  - now intros [= <-].
  - destruct (stamp lead) as [seconds |]; [| discriminate].
    destruct (JSDate.Date_ms (seconds * 1000)) as [d |]; [| discriminate].
    intros H. rewrite (IH _ _ H). apply bump_keys.
Qed.

(** X14.  Bucketing the fetched leads never adds a date to the series
    nor removes one: the dates of the answer, and their order, are those
    of the zero-filled series built from the range, whatever the leads
    are. *)
Theorem series_dates_fixed_by_range
        (stamp : item -> option Z) (amount : item -> Z)
        (leads : list item) (series series' : JSObject.obj Z) :
  bucket stamp amount leads series = Some series' ->
  map date (points series') = map date (points series)
  /\ map date (points series) = JSObject.keys series
  /\ List.length (points series') = List.length (points series).
Proof.
  intros H. pose proof (bucket_keys stamp amount leads series series' H) as Hk.
  assert (Hd : map date (points series') = map date (points series)).
  { rewrite !points_dates. unfold JSObject.keys. now rewrite Hk. }
  split; [exact Hd |]. split; [apply points_dates |].
  rewrite <- (length_map date (points series')), Hd. apply length_map.
Qed.

Lemma series_dates_fixed_by_range_witness :
  map date (points [("2024-01-10", 1)]) = map date (points [("2024-01-10", 0)]).
Proof.
  apply (series_dates_fixed_by_range created_at (fun _ => 1)
           [lead_created 1704877080; lead_created 0]
           [("2024-01-10", 0)] [("2024-01-10", 1)]).
  vm_compute. reflexivity.
Defined.

(** A timestamp that gives an Invalid Date: undefined, or a number of
    seconds more than 8 640 000 000 000 000 ms away from the epoch. *)
Definition invalid_stamp (stamp : item -> option Z) (lead : item) : Prop :=
  match stamp lead with
  | None => True
  | Some seconds => JSDate.maxTime < Z.abs (seconds * 1000)
  end.

(** X15.  One lead whose timestamp gives an Invalid Date (the timestamp
    is undefined, or lies beyond the range of Date) makes the whole
    bucketing fail, since formatting the date throws; with every
    timestamp a number within the range the bucketing succeeds. *)
Theorem bucket_fails_on_missing_timestamp
        (stamp : item -> option Z) (amount : item -> Z)
        (leads : list item) (series : JSObject.obj Z) :
  bucket stamp amount leads series = None <->
  Exists (invalid_stamp stamp) leads.
Proof.
  revert series. induction leads as [| lead leads IH]; intros series; cbn [bucket].
  - split; [discriminate | intros H; inversion H].
  - destruct (stamp lead) as [seconds |] eqn:E.
    + unfold JSDate.Date_ms.
      destruct (Z.abs (seconds * 1000) <=? JSDate.maxTime) eqn:Er.
      * apply Z.leb_le in Er. rewrite IH. split; [intros H; now right |].
        intros H. inversion H as [x l Hx | x l Hx]; subst; [| exact Hx].
        unfold invalid_stamp in Hx. rewrite E in Hx. lia.
      * apply Z.leb_gt in Er. split; [| reflexivity].
        intros _. left. unfold invalid_stamp. now rewrite E.
    + split; [| reflexivity].
      intros _. left. unfold invalid_stamp. now rewrite E.
Qed.

Lemma bucket_fails_on_missing_timestamp_witness :
  bucket created_at (fun _ => 1) [lead_created 0; blank] [("1970-01-01", 0)] = None.
Proof.
  apply (proj2 (bucket_fails_on_missing_timestamp created_at (fun _ => 1)
                  [lead_created 0; blank] [("1970-01-01", 0)])).
  right. left. exact I.
Defined.

(** Whether a key is an own key of the series. *)
Definition has_key (series : JSObject.obj Z) (k : string) : bool :=
  match JSObject.own series k with Some _ => true | None => false end.

(** Whether a lead is counted: its timestamp is there and its date is a
    key of the series. *)
Definition counted (stamp : item -> option Z) (series : JSObject.obj Z)
           (lead : item) : bool :=
  match stamp lead with
  | Some seconds => has_key series (JSDate.toISODate (seconds * 1000))
  | None => false
  end.

Lemma put_total (o : JSObject.obj Z) (k : string) (old v : Z) :
  JSObject.own o k = Some old ->
  total (map snd (JSObject.put o k v)) = total (map snd o) - old + v.
Proof.
  induction o as [| [k' v'] o IH]; cbn [JSObject.own JSObject.put]; [discriminate |].
  destruct (String.eqb k k').
  - intros [= ->]. cbn [map snd total fold_right]. lia.
  - intros H. cbn [map snd total fold_right].
    fold (total (map snd (JSObject.put o k v))) (total (map snd o)).
    rewrite (IH H). lia.
Qed.

Lemma bump_total (o : JSObject.obj Z) (k : string) (v : Z) :
  total (map snd (bump o k v)) =
  total (map snd o) + (if has_key o k then v else 0).
Proof.
  unfold bump, has_key. destruct (JSObject.own o k) as [old |] eqn:E; [| lia].
  rewrite (put_total o k old (old + v) E). lia.
Qed.

Lemma bump_has_key (o : JSObject.obj Z) (k k' : string) (v : Z) :
  has_key (bump o k v) k' = has_key o k'.
Proof.
  unfold bump, has_key. destruct (JSObject.own o k) as [old |] eqn:E; [| reflexivity].
  rewrite own_put. destruct (String.eqb k' k) eqn:Ek; [| reflexivity].
  apply String.eqb_eq in Ek. subst. now rewrite E.
Qed.

Lemma bucket_total (stamp : item -> option Z) (amount : item -> Z)
      (leads : list item) :
  forall series series',
    bucket stamp amount leads series = Some series' ->
    total (map snd series') =
    total (map snd series)
    + total (map amount (filter (counted stamp series) leads)).
Proof.
  induction leads as [| lead leads IH]; intros series series'; cbn [bucket filter].
  - intros [= <-]. cbn. lia.
  - unfold counted at 1. destruct (stamp lead) as [seconds |] eqn:E; [| discriminate].
    unfold JSDate.Date_ms.
    destruct (Z.abs (seconds * 1000) <=? JSDate.maxTime); [| discriminate].
    intros H. rewrite (IH _ _ H), bump_total.
    replace (filter (counted stamp (bump series (JSDate.toISODate (seconds * 1000))
                                         (amount lead))) leads)
      with (filter (counted stamp series) leads).
    + destruct (has_key series (JSDate.toISODate (seconds * 1000)));
        cbn [map total fold_right];
        fold (total (map amount (filter (counted stamp series) leads))); lia.
    + apply filter_ext. intros l. unfold counted.
      destruct (stamp l); [| reflexivity]. now rewrite bump_has_key.
Qed.

Lemma points_total (o : JSObject.obj Z) :
  NoDup (map fst o) -> total (map value (points o)) = total (map snd o).
Proof.
  intros Hnd.
  assert (Hflat : forall ks,
             (forall k, In k ks -> In k (map fst o)) ->
             map value
               (flat_map (fun d => match JSObject.own o d with
                                   | Some v => [mkPoint d v]
                                   | None => []
                                   end) ks) =
             map (fun k => match JSObject.own o k with Some v => v | None => 0 end) ks).
  { induction ks as [| k ks IH]; intros Hks; cbn [flat_map map]; [reflexivity |].
    destruct (proj1 (own_keys Z o k) (Hks k (or_introl eq_refl))) as [v Hv].
    rewrite Hv. cbn [app map value]. f_equal. apply IH.
    intros k' Hk'. apply Hks. now right. }
  unfold points. rewrite Hflat by (intros k; unfold JSObject.keys; apply key_order_In).
  unfold JSObject.keys.
  rewrite (total_perm _ _ (Permutation_map _ (key_order_perm (map fst o)))).
  f_equal. rewrite <- (map_map (JSObject.own o)
                               (fun x => match x with Some v => v | None => 0 end)).
  rewrite (own_NoDup Z o Hnd), map_map. reflexivity.
Qed.

Lemma zero_series_NoDup (tz s days : Z) : NoDup (map fst (zero_series tz s days)).
Proof.
  unfold zero_series. generalize (seq 0 (Z.to_nat days)). intros l.
  assert (H : forall o : JSObject.obj Z,
             NoDup (map fst o) ->
             NoDup (map fst
                      (fold_left
                         (fun series i =>
                            JSObject.put series
                              (JSDate.toISODate
                                 (JSDate.Date_ymd tz (JSDate.getFullYear tz s)
                                    (JSDate.getMonth tz s)
                                    (JSDate.getDate tz s + Z.of_nat i))) 0) l o))).
  { induction l as [| i l IH]; intros o Ho; cbn [fold_left]; [exact Ho |].
    apply IH. now apply put_keys_NoDup. }
  apply H. constructor.
Qed.

Lemma zero_series_total (tz s days : Z) :
  total (map snd (zero_series tz s days)) = 0.
Proof.
  assert (H : forall o : JSObject.obj Z,
             (forall k v, In (k, v) o -> v = 0) -> total (map snd o) = 0).
  { induction o as [| [k v] o IH]; intros Ho; cbn [map snd total fold_right];
      [reflexivity |].
    fold (total (map snd o)).
    rewrite (Ho k v (or_introl eq_refl)), IH; [reflexivity |].
    intros k' v' Hin. apply (Ho k' v'). now right. }
  apply H. intros k v Hin.
  pose proof (zero_series_NoDup tz s days) as Hnd.
  apply (zero_series_zero tz s days k).
  revert Hnd Hin. generalize (zero_series tz s days). intros o.
  induction o as [| [k' v'] o IH]; cbn [map fst In JSObject.own]; [intros _ [] |].
  intros Hnd Hin. apply NoDup_cons_iff in Hnd. destruct Hnd as [Hk' Hnd].
  destruct Hin as [[= -> ->] | Hin]; [now rewrite String.eqb_refl |].
  destruct (String.eqb k k') eqn:E; [| now apply IH].
  apply String.eqb_eq in E. subst k'. exfalso. apply Hk'.
  apply in_map_iff. exists (k, v). split; [reflexivity | exact Hin].
Qed.

(** X16.  The series counts every lead once or not at all: after
    bucketing from the zero-filled series of a range, the values sent add
    up to the amounts (1 per lead, or its price) of exactly those leads
    whose date is one of the keys; leads with another date add nothing. *)
Theorem series_total_is_counted_leads
        (tz start days : Z) (stamp : item -> option Z) (amount : item -> Z)
        (leads : list item) (series' : JSObject.obj Z) :
  bucket stamp amount leads (zero_series tz start days) = Some series' ->
  total (map value (points series')) =
  total (map amount (filter (counted stamp (zero_series tz start days)) leads)).
Proof.
  intros H.
  rewrite points_total.
  - rewrite (bucket_total stamp amount leads _ _ H), zero_series_total. lia.
  - rewrite (bucket_keys stamp amount leads _ _ H). apply zero_series_NoDup.
Qed.

Lemma series_total_is_counted_leads_witness :
  total (map value (points [("2024-01-10", 1)])) =
  total (map (fun _ => 1)
             (filter (counted created_at (zero_series 0 example_now 1))
                     [lead_created 1704877080; lead_created 0])).
Proof.
  apply (series_total_is_counted_leads 0 example_now 1 created_at (fun _ => 1)
           [lead_created 1704877080; lead_created 0] [("2024-01-10", 1)]).
  vm_compute. reflexivity.
Defined.

(* ================================================================== *)
(** * Further properties of the task buckets *)
(* ================================================================== *)

(** Whether a task has a due time the loop looks at. *)
Definition has_due (task : item) : bool :=
  match dueOf task with Some _ => true | None => false end.

Lemma bucket_flags (tz now : Z) (task : item) :
  (if is_overdue now task then 1 else 0)
  + (if is_today tz now task then 1 else 0)
  + (if is_next48h tz now task then 1 else 0)
  <= (if has_due task then 1 else 0).
Proof.
  unfold is_overdue, is_today, is_next48h, has_due.
  destruct (dueOf task) as [due |]; [| lia].
  destruct (due <? now); cbn [negb andb]; [lia |].
  destruct (same_local_date tz due now); cbn [negb andb]; [lia |].
  destruct (due - now <=? 48 * 60 * 60 * 1000); lia.
Qed.

(** X17.  The three task counts are never negative, together they are
    at most the number of tasks that have a due time, tasks without one
    can be left out without changing the counts, and the counts do not
    depend on the order of the tasks. *)
Theorem task_counts_bounds (tz now : Z) (tasks : list item) :
  let b := bucketTasks tz now tasks in
  0 <= overdue b /\ 0 <= today b /\ 0 <= next48h b
  /\ overdue b + today b + next48h b <= len (filter has_due tasks)
  /\ len (filter has_due tasks) <= len tasks
  /\ bucketTasks tz now (filter has_due tasks) = b
  /\ (forall tasks', Permutation tasks tasks' -> bucketTasks tz now tasks' = b).
Proof.
  intros b. unfold b, bucketTasks. clear b. rewrite bucketTasks_fold.
  cbn [overdue today next48h].
  pose proof (len_nonneg (filter (is_overdue now) tasks)) as N1.
  pose proof (len_nonneg (filter (is_today tz now) tasks)) as N2.
  pose proof (len_nonneg (filter (is_next48h tz now) tasks)) as N3.
  do 3 (split; [lia |]). clear N1 N2 N3.
  split; [| split; [apply len_filter_le | split]].
  - induction tasks as [| task tasks IH]; [cbn; lia |].
    rewrite !len_filter_cons. pose proof (bucket_flags tz now task). lia.
  - rewrite bucketTasks_fold. cbn [overdue today next48h].
    assert (H : forall p : item -> bool,
               (forall t, p t = true -> has_due t = true) ->
               len (filter p (filter has_due tasks)) = len (filter p tasks)).
    { intros p Hp. induction tasks as [| task tasks IH]; [reflexivity |].
      destruct (has_due task) eqn:Hd.
      - replace (filter has_due (task :: tasks)) with (task :: filter has_due tasks)
          by (cbn [filter]; now rewrite Hd).
        rewrite !len_filter_cons, IH. reflexivity.
      - replace (filter has_due (task :: tasks)) with (filter has_due tasks)
          by (cbn [filter]; now rewrite Hd).
        rewrite len_filter_cons, IH.
        destruct (p task) eqn:Hpt; [| lia].
        rewrite (Hp task Hpt) in Hd. discriminate. }
    f_equal; apply H; intros t; unfold is_overdue, is_today, is_next48h, has_due;
      destruct (dueOf t); (reflexivity || discriminate).
  - intros tasks' Hperm. rewrite bucketTasks_fold. cbn [overdue today next48h].
    f_equal; symmetry; apply len_perm, filter_perm, Hperm.
Qed.

Lemma task_counts_bounds_witness :
  bucketTasks 0 example_now (rev [task_due 1704877100; blank; task_due 1704880000]) =
  bucketTasks 0 example_now [task_due 1704877100; blank; task_due 1704880000].
Proof.
  apply (task_counts_bounds 0 example_now
           [task_due 1704877100; blank; task_due 1704880000]).
  apply Permutation_rev.
Defined.

(* ================================================================== *)
(** * The handlers from request to answer *)
(* ================================================================== *)

Lemma kommoLoop_other (path : string) (params : list (string * qval))
      (lat : Z) (d : raw) (page_no : Z) (results : list item)
      (rest : list scripted) (clk : Z) (tr : list event) :
  kommoLoop path params page_no results (mkScripted lat (Ok (Other d)) :: rest) clk tr =
  (Return (Raw d), mkWorld (clk + lat) rest (tr ++ [Get path params limit page_no])).
Proof. reflexivity. Qed.

(** The parameters of the request for incomplete tasks. *)
Definition tasks_params (q : query) : list (string * qval) :=
  [("filter[is_completed]", QNum (Some 0))]
  ++ filter_param "filter[responsible_user_id]" (q_user_id q).

(** X18.  [/api/tasks] from request to answer, on a cache miss, when the
    upstream answers with full pages and a short one: the handler asks for
    the incomplete tasks page by page, answers 200 with the buckets of all
    the tasks, and stores that payload under the key of the request with
    the time at which the fetch ended; the tasks are classified against
    the time at which the request arrived, not the time at which the fetch
    ended. *)
Theorem tasks_request_to_answer (tz : Z) (q : query) (c : LRU.cache payload)
        (clk : Z) (tr : list event)
        (full : list page) (last : page) (rest : list scripted) :
  LRU.has c (tasks_key q) clk = false ->
  Forall (fun p => List.length (page_items p) = 250%nat) full ->
  (List.length (page_items last) < 250)%nat ->
  let pages := full ++ [last] in
  let answer :=
    PTasks (bucketTasks tz clk (List.concat (map page_items pages))) in
  let done := clk + total (map page_latency pages) in
  tasks_handler tz q c (mkWorld clk (map page_reply pages ++ rest) tr) =
  (Some (mkResponse 200 (Json answer)),
   LRU.set c (tasks_key q) answer done,
   mkWorld done rest
           (tr ++ page_requests "/tasks" (tasks_params q) 1 (List.length pages))).
Proof.
  intros Hmiss Hfull Hlast pages answer done.
  unfold tasks_handler. rewrite getCached_miss by exact Hmiss.
  unfold tasks_compute, bind, now_, kommoRequest. cbn [upstream clock trace].
  fold (tasks_params q).
  rewrite (kommoLoop_pages "/tasks" (tasks_params q) full last Hfull Hlast).
  reflexivity.
Qed.

Lemma tasks_request_to_answer_witness :
  tasks_handler 0 (mkQuery None None None None None None) []
    (mkWorld example_now
       (map page_reply [mkPage 90000 false [task_due 1704877230]]) []) =
  (Some (mkResponse 200 (Json (PTasks (mkBuckets 0 1 0)))),
   [LRU.mkEntry "/tasks?user_id=undefined" (PTasks (mkBuckets 0 1 0))
                (example_now + 90000)],
   mkWorld (example_now + 90000) []
           [Get "/tasks" [("filter[is_completed]", QNum (Some 0))] 250 1]).
Proof.
  assert (Hlast : (List.length (page_items (mkPage 90000 false [task_due 1704877230]))
                   < 250)%nat) by (cbn; lia).
  pose proof (tasks_request_to_answer 0 (mkQuery None None None None None None)
                [] example_now [] [] (mkPage 90000 false [task_due 1704877230]) []
                eq_refl (Forall_nil _) Hlast) as W.
  vm_compute in W. vm_compute. exact W.
Defined.

(** The parameters of the two lead requests for a range. *)
Definition created_params (r : Range) (pipeline_id user_id : option string)
  : list (string * qval) :=
  [("filter[created_at][from]", toUnix (start r));
   ("filter[created_at][to]", toUnix (end_ r))]
  ++ filter_param "filter[pipeline_id]" pipeline_id
  ++ filter_param "filter[responsible_user_id]" user_id.

Definition closed_params (r : Range) (pipeline_id user_id : option string)
  : list (string * qval) :=
  [("filter[closed_at][from]", toUnix (start r));
   ("filter[closed_at][to]", toUnix (end_ r))]
  ++ filter_param "filter[pipeline_id]" pipeline_id
  ++ filter_param "filter[responsible_user_id]" user_id.

(** X19.  [/api/metrics] answers all or nothing.  On a cache miss, a
    fatal error of the first fetch (created leads) is answered with 500
    and the fixed message, the second fetch is never sent and nothing is
    cached; and when the created leads have been fetched in full, a fatal
    error of the second fetch (closed leads) is answered the same way:
    the leads already fetched are dropped and nothing is cached. *)
Theorem metrics_all_or_nothing (tz : Z) (Date_parse : string -> option Z)
        (q : query) (c : LRU.cache payload) (clk : Z) (tr : list event) :
  LRU.has c (metrics_key q) clk = false ->
  let r := parseRange tz Date_parse clk (default "today" (q_range q))
                      (q_from q) (q_to q) in
  let created := created_params r (q_pipeline_id q) (q_user_id q) in
  let closed := closed_params r (q_pipeline_id q) (q_user_id q) in
  let failed := Some (mkResponse 500 (Error "Failed to fetch metrics")) in
  (forall lat err rest,
      fatal err ->
      metrics_handler tz Date_parse q c
        (mkWorld clk (mkScripted lat (Fail err) :: rest) tr) =
      (failed, c,
       mkWorld (clk + lat) rest (tr ++ [Get "/leads" created limit 1])))
  /\ (forall full last lat err rest,
         Forall (fun p => List.length (page_items p) = 250%nat) full ->
         (List.length (page_items last) < 250)%nat ->
         fatal err ->
         metrics_handler tz Date_parse q c
           (mkWorld clk (map page_reply (full ++ [last])
                         ++ mkScripted lat (Fail err) :: rest) tr) =
         (failed, c,
          mkWorld (clk + total (map page_latency (full ++ [last])) + lat) rest
                  (tr ++ page_requests "/leads" created 1
                                       (List.length (full ++ [last]))
                      ++ [Get "/leads" closed limit 1]))).
Proof.
  intros Hmiss r created closed failed. split.
  - intros lat err rest Hfatal. apply retryable_fatal in Hfatal.
    unfold metrics_handler. rewrite getCached_miss by exact Hmiss.
    unfold metrics_compute, bind, now_, fetchLeads, kommoRequest.
    cbn [upstream clock trace]. fold r. fold created.
    rewrite kommoLoop_failure, Hfatal. reflexivity.
  - intros full last lat err rest Hfull Hlast Hfatal.
    apply retryable_fatal in Hfatal.
    unfold metrics_handler. rewrite getCached_miss by exact Hmiss.
    unfold metrics_compute, bind, now_, fetchLeads, fetchLeadsClosed, kommoRequest.
    cbn [upstream clock trace]. fold r. fold created. fold closed.
    rewrite (kommoLoop_pages "/leads" created full last Hfull Hlast).
    cbn [upstream clock trace].
    rewrite kommoLoop_failure, Hfatal. cbn [respond].
    now rewrite <- app_assoc.
Qed.

Lemma metrics_all_or_nothing_witness :
  metrics_handler 0 example_parse (mkQuery None (Some "7d") None None None None) []
    (mkWorld example_now [mkScripted 5 (Fail (HttpError 401))] []) =
  (Some (mkResponse 500 (Error "Failed to fetch metrics")), [],
   mkWorld (example_now + 5) []
     [Get "/leads"
          [("filter[created_at][from]", QNum (Some 1704272400));
           ("filter[created_at][to]", QNum (Some 1704877200))] 250 1]).
Proof.
  pose proof (proj1 (metrics_all_or_nothing 0 example_parse
                       (mkQuery None (Some "7d") None None None None) []
                       example_now [] eq_refl)
                    5 (HttpError 401) []) as W.
  assert (Hfatal : fatal (HttpError 401))
    by (intros status [= <-]; unfold retried; lia).
  specialize (W Hfatal). vm_compute in W. vm_compute. exact W.
Defined.

(** X20.  A reply without a body (status 204, whose data is the empty
    string) is not a list, so [kommoRequest] returns the empty string
    itself.  On a cache miss [/api/funnels] then answers 200 with an empty
    funnel and [/api/tasks] 200 with three zero counts, since a loop over
    the empty string runs no iteration, but [/api/metrics], which calls
    [filter] on what it fetched, answers 500. *)
Theorem empty_body_replies (tz : Z) (Date_parse : string -> option Z)
        (q : query) (c : LRU.cache payload) (clk : Z) (tr : list event)
        (lat lat' : Z) (rest : list scripted) :
  let empty := fun l => mkScripted l (Ok (Other (RString ""))) in
  (LRU.has c (funnels_key q) clk = false ->
   fst (fst (funnels_handler tz Date_parse q c (mkWorld clk (empty lat :: rest) tr)))
   = Some (mkResponse 200 (Json (PFunnel []))))
  /\ (LRU.has c (tasks_key q) clk = false ->
      fst (fst (tasks_handler tz q c (mkWorld clk (empty lat :: rest) tr)))
      = Some (mkResponse 200 (Json (PTasks (mkBuckets 0 0 0)))))
  /\ (LRU.has c (metrics_key q) clk = false ->
      metrics_handler tz Date_parse q c
        (mkWorld clk (empty lat :: empty lat' :: rest) tr)
      = (Some (mkResponse 500 (Error "Failed to fetch metrics")), c,
         mkWorld (clk + lat + lat') rest
           (tr ++ [Get "/leads"
                       (created_params
                          (parseRange tz Date_parse clk (default "today" (q_range q))
                                      (q_from q) (q_to q))
                          (q_pipeline_id q) (q_user_id q)) limit 1;
                   Get "/leads"
                       (closed_params
                          (parseRange tz Date_parse clk (default "today" (q_range q))
                                      (q_from q) (q_to q))
                          (q_pipeline_id q) (q_user_id q)) limit 1]))).
Proof.
  intros empty. split; [| split]; intros Hmiss.
  - unfold funnels_handler. rewrite getCached_miss by exact Hmiss.
    unfold funnels_compute, bind, now_, fetchLeads, kommoRequest.
    cbn [upstream clock trace]. unfold empty. rewrite kommoLoop_other.
    reflexivity.
  - unfold tasks_handler. rewrite getCached_miss by exact Hmiss.
    unfold tasks_compute, bind, now_, kommoRequest.
    cbn [upstream clock trace]. unfold empty. rewrite kommoLoop_other.
    reflexivity.
  - unfold metrics_handler. rewrite getCached_miss by exact Hmiss.
    unfold metrics_compute, bind, now_, fetchLeads, fetchLeadsClosed, kommoRequest.
    cbn [upstream clock trace]. unfold empty. rewrite kommoLoop_other.
    cbn [upstream clock trace]. rewrite kommoLoop_other.
    cbn [as_array throw respond]. unfold created_params, closed_params.
    now rewrite <- app_assoc.
Qed.

Lemma empty_body_replies_witness :
  fst (fst (funnels_handler 0 example_parse (mkQuery None None None None None None)
              [] (mkWorld example_now [mkScripted 5 (Ok (Other (RString "")))] [])))
  = Some (mkResponse 200 (Json (PFunnel []))).
Proof.
  apply (proj1 (empty_body_replies 0 example_parse
                  (mkQuery None None None None None None) [] example_now []
                  5 5 [])).
  reflexivity.
Defined.

(* ================================================================== *)
(** * Cache keys *)
(* ================================================================== *)

Lemma custom_fallback_missing (tz : Z) (Date_parse : string -> option Z)
      (now : Z) (from to : option string) :
  truthy from = false \/ truthy to = false ->
  parseRange tz Date_parse now (Some "custom") from to = today_range tz now.
Proof.
  intros H. unfold parseRange. cbn [eqs String.eqb Ascii.eqb Bool.eqb andb].
  destruct H as [H | H]; rewrite H; [| rewrite andb_false_r]; reflexivity.
Qed.

(** X21.  The cache key of [/api/metrics] does not tell a missing
    parameter from the literal string 'undefined'.  A custom-range request
    with [from=undefined] and the same request without [from] have the
    same key, though the resolver gives the first a range with an invalid
    start and the second the today window; so within 60 seconds of a
    computed answer to the first, the second is answered with that same
    payload, without any fetch. *)
Theorem metrics_key_confuses_missing_and_undefined
        (tz : Z) (Date_parse : string -> option Z) (now : Z)
        (to : string) (pipeline_id user_id : option string) :
  to <> "" ->
  Date_parse "undefined" = None ->
  let q := mkQuery None (Some "custom") (Some "undefined") (Some to)
                   pipeline_id user_id in
  let q' := mkQuery None (Some "custom") None (Some to) pipeline_id user_id in
  metrics_key q = metrics_key q'
  /\ parseRange tz Date_parse now (q_range q) (q_from q) (q_to q) =
     mkRange None (Date_parse to)
  /\ parseRange tz Date_parse now (q_range q') (q_from q') (q_to q') =
     today_range tz now
  /\ (forall c c1 w w1 w2 resp,
         LRU.has c (metrics_key q) (clock w) = false ->
         metrics_handler tz Date_parse q c w = (Some resp, c1, w1) ->
         status resp = 200 ->
         clock w1 <= clock w2 < clock w1 + CACHE_TTL ->
         metrics_handler tz Date_parse q' c1 w2 = (Some resp, c1, w2)).
Proof.
  intros Hto Hinvalid q q'.
  assert (Hkey : metrics_key q = metrics_key q') by reflexivity.
  split; [exact Hkey |]. split; [| split].
  - unfold parseRange, q.
    cbn [q_range q_from q_to eqs truthy show String.eqb Ascii.eqb Bool.eqb negb andb].
    apply String.eqb_neq in Hto. rewrite Hto. cbn [negb]. now rewrite Hinvalid.
  - apply custom_fallback_missing. now left.
  - intros c c1 w w1 w2 resp Hmiss H Hstatus Hwin.
    unfold metrics_handler in *. rewrite <- Hkey.
    eapply respond_repeat; eassumption.
Qed.

(** X22.  Two different data routes never share a cache key, whatever
    their queries: an answer cached for one route is never served for
    another. *)
Theorem routes_have_distinct_keys (tz : Z) (Date_parse : string -> option Z)
        (route route' : string) (h h' : handler) (q q' : query) :
  In (route, h) (routes tz Date_parse) ->
  In (route', h') (routes tz Date_parse) ->
  route <> route' ->
  cache_key route q <> cache_key route' q'.
Proof.
  intros Hin Hin' Hne. cbn [routes In] in Hin, Hin'.
  destruct Hin as [E | [E | [E | [E | [E | [E | []]]]]]];
    injection E as <- _;
    destruct Hin' as [E' | [E' | [E' | [E' | [E' | [E' | []]]]]]];
    injection E' as <- _;
    try (exfalso; apply Hne; reflexivity);
    cbn [cache_key String.eqb Ascii.eqb Bool.eqb];
    unfold metrics_key, funnels_key, timeseries_key, tasks_key;
    cbn [String.append]; discriminate.
Qed.

Lemma routes_have_distinct_keys_witness :
  cache_key "/api/tasks" (mkQuery None None None None None None) <>
  cache_key "/api/timeseries" (mkQuery None None None None None None).
Proof.
  apply (routes_have_distinct_keys 0 example_parse "/api/tasks" "/api/timeseries"
           (tasks_handler 0) (timeseries_handler 0 example_parse)).
  - do 5 right. left. reflexivity.
  - do 4 right. left. reflexivity.
  - discriminate.
Defined.

Lemma metrics_key_confuses_missing_and_undefined_witness :
  metrics_key (mkQuery None (Some "custom") (Some "undefined") (Some "2024-02-01")
                       None None) =
  metrics_key (mkQuery None (Some "custom") None (Some "2024-02-01") None None).
Proof.
  apply (metrics_key_confuses_missing_and_undefined 0 example_parse example_now
           "2024-02-01" None None); [discriminate | reflexivity].
Defined.

(** X23.  [/api/metrics] passes the bounds of a custom range on as they
    parse.  With the custom token and both [from] and [to] present, the
    range is the pair of parsed dates, whether or not they are valid and
    whichever is later; and on a cache miss the first request the handler
    sends is for page 1 of [/leads] with the created-at filter of exactly
    that range (NaN for a bound that does not parse), and with the
    pipeline and user filters of the query. *)
Theorem metrics_sends_custom_bounds_unchecked
        (tz : Z) (Date_parse : string -> option Z)
        (q : query) (from to : string) (c : LRU.cache payload) (w : World) :
  q_range q = Some "custom" -> q_from q = Some from -> q_to q = Some to ->
  from <> "" -> to <> "" ->
  LRU.has c (metrics_key q) (clock w) = false ->
  parseRange tz Date_parse (clock w) (q_range q) (q_from q) (q_to q) =
    mkRange (Date_parse from) (Date_parse to)
  /\ exists more,
      trace (snd (metrics_handler tz Date_parse q c w)) =
      trace w
      ++ Get "/leads"
             ([("filter[created_at][from]",
                QNum (option_map (fun t => t / 1000) (Date_parse from)));
               ("filter[created_at][to]",
                QNum (option_map (fun t => t / 1000) (Date_parse to)))]
              ++ filter_param "filter[pipeline_id]" (q_pipeline_id q)
              ++ filter_param "filter[responsible_user_id]" (q_user_id q))
             250 1
      :: more.
Proof.
  intros Hrange Hfrom Hto Hf Ht Hmiss.
  assert (Hr : parseRange tz Date_parse (clock w) (q_range q) (q_from q) (q_to q) =
               mkRange (Date_parse from) (Date_parse to)).
  { rewrite Hrange, Hfrom, Hto. unfold parseRange.
    cbn [eqs truthy show String.eqb Ascii.eqb Bool.eqb andb].
    apply String.eqb_neq in Hf, Ht. rewrite Hf, Ht. reflexivity. }
  split; [exact Hr |].
  unfold metrics_handler. rewrite getCached_miss by exact Hmiss.
  unfold metrics_compute, bind, now_.
  replace (default "today" (q_range q)) with (q_range q)
    by (rewrite Hrange; reflexivity).
  rewrite Hr. unfold fetchLeads, fetchLeadsClosed, kommoRequest.
  cbn [start end_].
  match goal with
  | |- context [kommoLoop "/leads" ?ps 1 [] (upstream w) (clock w) (trace w)] =>
      destruct (kommoLoop_first_request "/leads" ps (upstream w) 1 []
                                        (clock w) (trace w)) as [more Hmore];
      destruct (kommoLoop "/leads" ps 1 [] (upstream w) (clock w) (trace w))
        as [[f | e |] w1] eqn:Hloop
  end; cbn [snd] in Hmore; [| exists more; exact Hmore | exists more; exact Hmore].
  match goal with
  | |- context [kommoLoop "/leads" ?ps 1 [] (upstream w1) (clock w1) (trace w1)] =>
      destruct (kommoLoop_first_request "/leads" ps (upstream w1) 1 []
                                        (clock w1) (trace w1)) as [more' Hmore'];
      destruct (kommoLoop "/leads" ps 1 [] (upstream w1) (clock w1) (trace w1))
        as [[f' | e' |] w2] eqn:Hloop'
  end; cbn [snd] in Hmore'; rewrite Hmore in Hmore'; rewrite <- app_assoc in Hmore';
    cbn [app] in Hmore'; eexists.
  - destruct f' as [l' | r']; cbn [as_array ret throw]; [| exact Hmore'].
    destruct f as [l | r0]; exact Hmore'.
  - exact Hmore'.
  - exact Hmore'.
Qed.

Lemma metrics_sends_custom_bounds_unchecked_witness :
  parseRange 0 example_parse example_now
             (Some "custom") (Some "soon") (Some "2024-02-01") =
  mkRange None (Some 1706745600000).
Proof.
  apply (metrics_sends_custom_bounds_unchecked 0 example_parse
           (mkQuery None (Some "custom") (Some "soon") (Some "2024-02-01") None None)
           "soon" "2024-02-01" [] (mkWorld example_now [] []));
    (reflexivity || discriminate).
Defined.

(* ================================================================== *)
(** * The default range of [/api/timeseries] *)
(* ================================================================== *)

(** The request with [range] as its range parameter. *)
Definition with_range (q : query) (range : option string) : query :=
  mkQuery (q_metric q) range (q_from q) (q_to q) (q_pipeline_id q) (q_user_id q).

(** The seven days before [now]. *)
Definition last_7_days (now : Z) : Range :=
  mkRange (Some (now - 7 * 86400 * 1000)) (Some now).

(** The first request of a time series for the three metrics that fetch:
    the window goes out as the bounds of the creation time, or of the
    closing time. *)
Definition timeseries_params (metric : string) (r : Range)
           (pipeline_id user_id : option string) : list (string * qval) :=
  if String.eqb metric "leads_created"
  then created_params r pipeline_id user_id
  else closed_params r pipeline_id user_id.

Section DefaultRangeFacts.

Variable tz : Z.
Variable Date_parse : string -> option Z.

(** A time series that is computed has the dates of the zero-filled
    series of the resolved range, for every metric. *)
Lemma timeseries_compute_dates (q : query) (w w' : World) (p : payload) :
  timeseries_compute tz Date_parse q w = (Return p, w') ->
  exists pts,
    p = PSeries pts
    /\ map date pts =
       JSObject.keys (series_of_range tz (timeseries_range tz Date_parse (clock w) q)).
Proof.
  unfold timeseries_compute, bind, now_.
  set (r := timeseries_range tz Date_parse (clock w) q).
  set (series := series_of_range tz r).
  assert (Hb : forall stamp amount leads w0,
             bucketed (bucket stamp amount leads series) w0 = (Return p, w') ->
             exists pts, p = PSeries pts /\ map date pts = JSObject.keys series).
  { intros stamp amount leads w0 H. unfold bucketed in H.
    destruct (bucket stamp amount leads series) as [series' |] eqn:E;
      [| discriminate].
    injection H as <- _. exists (points series'). split; [reflexivity |].
    rewrite points_dates. unfold JSObject.keys.
    now rewrite (bucket_keys stamp amount leads series series' E). }
  destruct (eqs (q_metric q) "leads_created").
  - destruct (fetchLeads r (q_pipeline_id q) (q_user_id q) w) as [[f | e |] w1];
      [| discriminate | discriminate].
    destruct f as [l | [s | j]]; cbn [as_iterable ret throw];
      [apply Hb | apply Hb | discriminate].
  - destruct (eqs (q_metric q) "leads_won" || eqs (q_metric q) "revenue_won").
    + destruct (fetchLeadsClosed r (q_pipeline_id q) (q_user_id q) w)
        as [[f | e |] w1]; [| discriminate | discriminate].
      destruct f as [l | raw]; cbn [as_array ret throw]; [| discriminate].
      destruct (eqs (q_metric q) "leads_won"); apply Hb.
    + intros [= <- _]. exists (points series). split; [reflexivity |].
      apply points_dates.
Qed.

(** On a cache miss the handler of a fetching metric starts with the
    request for the leads of the resolved range. *)
Lemma timeseries_first_request (q : query) (metric : string)
      (cache : LRU.cache payload) (w : World) :
  q_metric q = Some metric ->
  metric = "leads_created" \/ metric = "leads_won" \/ metric = "revenue_won" ->
  LRU.has cache (timeseries_key q) (clock w) = false ->
  exists more,
    trace (snd (timeseries_handler tz Date_parse q cache w)) =
    trace w
    ++ Get "/leads"
           (timeseries_params metric (timeseries_range tz Date_parse (clock w) q)
                              (q_pipeline_id q) (q_user_id q))
           250 1
    :: more.
Proof.
  intros Hmetric Hcases Hmiss.
  unfold timeseries_handler. rewrite Hmetric.
  assert (Htruthy : truthy (Some metric) = true)
    by (destruct Hcases as [-> | [-> | ->]]; reflexivity).
  rewrite Htruthy. cbn [negb].
  rewrite getCached_miss by exact Hmiss.
  unfold timeseries_compute, bind, now_. rewrite Hmetric.
  set (r := timeseries_range tz Date_parse (clock w) q).
  unfold timeseries_params, created_params, closed_params.
  destruct Hcases as [-> | [-> | ->]];
    cbn [eqs String.eqb Ascii.eqb Bool.eqb orb];
    unfold fetchLeads, fetchLeadsClosed, kommoRequest;
    match goal with
    | |- context [kommoLoop ?p ?ps 1 [] (upstream w) (clock w) (trace w)] =>
        destruct (kommoLoop_first_request p ps (upstream w) 1 [] (clock w) (trace w))
          as [more Hmore];
        destruct (kommoLoop p ps 1 [] (upstream w) (clock w) (trace w))
          as [[f | e |] w1] eqn:Hloop
    end; cbn [snd] in Hmore; exists more; try exact Hmore.
  - destruct f as [l | [s | j]]; cbn [as_iterable ret throw bucketed];
      try exact Hmore; destruct (bucket _ _ _ _); exact Hmore.
  - destruct f as [l | raw]; cbn [as_array ret throw bucketed];
      try exact Hmore; destruct (bucket _ _ _ _); exact Hmore.
  - destruct f as [l | raw]; cbn [as_array ret throw bucketed];
      try exact Hmore; destruct (bucket _ _ _ _); exact Hmore.
Qed.

End DefaultRangeFacts.

(** C10.  A request to [/api/timeseries] without a [range] parameter is
    handled over the 7-day rolling window [now - 7 * 86400 s, now): the
    handler puts the token '7d' in place of the missing parameter before it
    calls the resolver, whereas the resolver itself, given no token or a
    token it does not know, resolves the today window, which is a
    different range.  So, for every such request, whatever the metric, the
    cache and the upstream: the handler does what it does for the same
    request with [range=7d]; on a cache miss with [leads_created],
    [leads_won] or [revenue_won] its first request asks for the leads
    created, or closed, within the seven days before the request; and a
    series it computes and sends has the dates of the first loop run over
    seven days from the day of [now - 7 days], which for any other metric
    is sent zero-filled and without a request. *)
Theorem timeseries_default_range (tz : Z) (Date_parse : string -> option Z)
        (now : Z) (q : query) :
  q_range q = None ->
  timeseries_range tz Date_parse now q = last_7_days now
  /\ timeseries_range tz Date_parse now q =
     parseRange tz Date_parse now (Some "7d") None None
  /\ (forall from to,
         parseRange tz Date_parse now None from to = today_range tz now)
  /\ (forall token from to,
         token <> "today" -> token <> "yesterday" -> token <> "7d" ->
         token <> "30d" -> token <> "custom" ->
         parseRange tz Date_parse now (Some token) from to = today_range tz now)
  /\ timeseries_range tz Date_parse now q <> today_range tz now
  /\ (forall cache w,
         timeseries_handler tz Date_parse q cache w =
         timeseries_handler tz Date_parse (with_range q (Some "7d")) cache w)
  /\ (forall cache w metric,
         q_metric q = Some metric ->
         metric = "leads_created" \/ metric = "leads_won" \/ metric = "revenue_won" ->
         LRU.has cache (timeseries_key q) (clock w) = false ->
         exists more,
           trace (snd (timeseries_handler tz Date_parse q cache w)) =
           trace w
           ++ Get "/leads"
                  (timeseries_params metric (last_7_days (clock w))
                                     (q_pipeline_id q) (q_user_id q))
                  250 1
           :: more)
  /\ (forall cache w p cache' w',
         LRU.has cache (timeseries_key q) (clock w) = false ->
         timeseries_handler tz Date_parse q cache w =
           (Some (mkResponse 200 (Json p)), cache', w') ->
         exists pts,
           p = PSeries pts
           /\ map date pts =
              JSObject.keys (zero_series tz (clock w - 7 * 86400 * 1000) 7))
  /\ (forall cache w metric,
         q_metric q = Some metric -> metric <> "" ->
         metric <> "leads_created" -> metric <> "leads_won" ->
         metric <> "revenue_won" ->
         LRU.has cache (timeseries_key q) (clock w) = false ->
         let pts := points (zero_series tz (clock w - 7 * 86400 * 1000) 7) in
         timeseries_handler tz Date_parse q cache w =
           (Some (mkResponse 200 (Json (PSeries pts))),
            LRU.set cache (timeseries_key q) (PSeries pts) (clock w), w)).
Proof.
  intros Hrange.
  assert (H7 : forall t, timeseries_range tz Date_parse t q = last_7_days t).
  { intros t. unfold timeseries_range. rewrite Hrange. reflexivity. }
  assert (Hseries : forall t,
             series_of_range tz (last_7_days t) =
             zero_series tz (t - 7 * 86400 * 1000) 7).
  { intros t. unfold series_of_range, last_7_days. cbn [start end_].
    replace (t - (t - 7 * 86400 * 1000)) with 604800000 by lia. reflexivity. }
  split; [apply H7 |].
  split; [unfold timeseries_range; rewrite Hrange; reflexivity |].
  split; [intros from to; now apply parseRange_fallback |].
  split.
  { intros token from to H1 H2 H3 H4 H5.
    apply parseRange_fallback; now apply eqs_neq. }
  split.
  { rewrite H7. unfold last_7_days, today_range. intros [= Hstart Hend].
    change 1 with (0 + 1) in Hend. rewrite local_midnight_next in Hend.
    unfold JSDate.msPerDay in Hend. lia. }
  split.
  { intros cache w. destruct q as [metric range from to pipeline user].
    cbn [q_range] in Hrange. subst range. reflexivity. }
  split.
  { intros cache w metric Hmetric Hcases Hmiss.
    rewrite <- (H7 (clock w)).
    now apply timeseries_first_request. }
  split.
  { intros cache w p cache' w' Hmiss Hanswer.
    unfold timeseries_handler in Hanswer.
    destruct (negb (truthy (q_metric q))); [discriminate |].
    rewrite getCached_miss in Hanswer by exact Hmiss.
    destruct (timeseries_compute tz Date_parse q w) as [[p0 | e |] w0] eqn:Hrun;
      cbn [respond] in Hanswer; try discriminate.
    injection Hanswer as <- _ _.
    destruct (timeseries_compute_dates tz Date_parse q w w0 p0 Hrun)
      as (pts & Hp & Hdates).
    exists pts. split; [exact Hp |].
    now rewrite Hdates, H7, Hseries. }
  intros cache w metric Hmetric Hne H1 H2 H3 Hmiss pts.
  unfold timeseries_handler. rewrite Hmetric.
  assert (Htruthy : truthy (Some metric) = true).
  { cbn [truthy]. apply String.eqb_neq in Hne.
    destruct (String.eqb metric "") eqn:E; [congruence | reflexivity]. }
  rewrite Htruthy. cbn [negb].
  rewrite getCached_miss by exact Hmiss.
  rewrite timeseries_compute_other
    by (rewrite Hmetric; now apply eqs_neq).
  rewrite H7, Hseries. reflexivity.
Qed.

(** A request for the won leads at [example_now], 2024-01-10T09:00Z, on a
    host at UTC whose upstream has no lead: the seven days from 3 January. *)
Lemma timeseries_default_range_witness :
  let q := mkQuery (Some "leads_won") None None None None None in
  let w := mkWorld example_now [page_reply (mkPage 5 false [])] [] in
  timeseries_range 0 example_parse example_now q =
    mkRange (Some 1704272400000) (Some 1704877200000)
  /\ exists cache' w',
      timeseries_handler 0 example_parse q [] w =
        (Some (mkResponse 200 (Json (PSeries
           (map (fun d => mkPoint d 0)
                ["2024-01-03"; "2024-01-04"; "2024-01-05"; "2024-01-06";
                 "2024-01-07"; "2024-01-08"; "2024-01-09"])))),
         cache', w')
      /\ trace w' =
         [Get "/leads"
              [("filter[closed_at][from]", QNum (Some 1704272400));
               ("filter[closed_at][to]", QNum (Some 1704877200))] 250 1].
Proof.
  intros q w. split.
  - apply (proj1 (timeseries_default_range 0 example_parse example_now q eq_refl)).
  - eexists. eexists. split; vm_compute; reflexivity.
Defined.
